(** * Icon tooling: the placeholder-icon generator and the icon exporter

    A shallow embedding of [scripts/generate_placeholder_icon.py] and
    [scripts/process_icons.py].

    - Python [float] is IEEE-754 binary64: it is modelled by Rocq's primitive
      floats, operation by operation, in the order the source evaluates them.
    - Python [int] is [Z].
    - The scripts act on the file system, on Pillow image objects and on the
      standard output: they are written in a state-and-exception monad over a
      [world] holding the file store, the heap of image objects and the
      trace of effects.
    - Pillow's rasterisation and resampling kernels and libm's [sin] are
      library code: they are the members of the classes [Pillow] and [Libm],
      and every definition and theorem is parametric in them. *)

From Stdlib Require Import ZArith QArith Qround Qabs Floats List String Ascii Bool Lia.
From stdpp Require Import base option list gmap strings pretty sorting.
Import ListNotations.

Local Open Scope string_scope.
Local Open Scope list_scope.
Local Open Scope Z_scope.

(* Decimal literals such as 0.15 denote the nearest binary64 value, as they
   do in Python. *)
#[local] Set Warnings "-inexact-float".

(** ** Python numbers *)

Module Py.

(** [float(z)] for an [int] of at most 63 bits (the conversion is exact
    below [2^53], which covers every integer the scripts convert). *)
Definition float_of_int (z : Z) : float :=
  if z <? 0 then PrimFloat.opp (PrimFloat.of_uint63 (Uint63.of_Z (- z)))
  else PrimFloat.of_uint63 (Uint63.of_Z z).

(** [int(x)]: truncation toward zero; [None] stands for the [ValueError]
    (NaN) or [OverflowError] (infinity) Python raises. *)
Definition int_of_float (x : float) : option Z :=
  match Prim2SF x with
  | S754_zero _ => Some 0
  | S754_finite s m e =>
      let a := if 0 <=? e then Z.shiftl (Z.pos m) e
               else Z.shiftr (Z.pos m) (- e) in
      Some (if s then - a else a)
  | S754_infinity _ => None
  | S754_nan => None
  end.

(** [a / b] on two [int]s (true division). *)
Definition int_truediv (a b : Z) : float :=
  (float_of_int a / float_of_int b)%float.

(** The exact rational value of a finite float. *)
Definition exact (x : float) : option Q :=
  match Prim2SF x with
  | S754_zero _ => Some 0%Q
  | S754_finite s m e =>
      let v := if 0 <=? e then inject_Z (Z.shiftl (Z.pos m) e)
               else Qmake (Z.pos m) (Z.to_pos (Z.shiftl 1 (- e))) in
      Some (if s then Qopp v else v)
  | S754_infinity _ => None
  | S754_nan => None
  end.

(** [range(n)] *)
Definition range (n : Z) : list Z := map Z.of_nat (seq 0 (Z.to_nat n)).

(** [math.pi] *)
Definition pi : float := 0x1.921fb54442d18p+1%float.

End Py.

(** ** Colours *)

(** A Pillow colour argument: an RGB triple or an RGBA quadruple. *)
Inductive colour : Type :=
| RGB (r g b : Z)
| RGBA (r g b a : Z).

(** ** The generator's per-sample arithmetic
    ([create_gradient_icon], the body of [for i in range(steps)]) *)

Module Stroke.

Definition c1 : Z * Z * Z := (0, 198, 255).
Definition c2 : Z * Z * Z := (140, 50, 255).
Definition c3 : Z * Z * Z := (255, 30, 150).

Definition steps : Z := 200.

(** [t = i / (steps - 1)] *)
Definition sample_t (i : Z) : float := Py.int_truediv i (steps - 1).

(** [int(a + (b - a) * local_t)] *)
Definition channel (a b : Z) (local_t : float) : option Z :=
  Py.int_of_float (Py.float_of_int a + Py.float_of_int (b - a) * local_t)%float.

(** [(r, g, b, 255)] interpolated from stop [p] to stop [q]. *)
Definition blend (p q : Z * Z * Z) (local_t : float) : option colour :=
  let '(pr, pg, pb) := p in
  let '(qr, qg, qb) := q in
  r ← channel pr qr local_t;
  g ← channel pg qg local_t;
  b ← channel pb qb local_t;
  Some (RGBA r g b 255).

(** The [if t < 0.5: ... else: ...] block and [color = (r, g, b, 255)]. *)
Definition stroke_color (t : float) : option colour :=
  if (t <? 0.5)%float then
    let local_t := (t * Py.float_of_int 2)%float in
    blend c1 c2 local_t
  else
    let local_t := ((t - 0.5) * Py.float_of_int 2)%float in
    blend c2 c3 local_t.

(** [size * 0.15], the first factor of the thickness. *)
Definition full_thickness (size : Z) : float :=
  (Py.float_of_int size * 0.15)%float.

(** [1 - 0.5 * abs(t - 0.5)], the second factor. *)
Definition taper (t : float) : float :=
  (Py.float_of_int 1 - 0.5 * PrimFloat.abs (t - 0.5))%float.

(** [thickness = (size * 0.15) * (1 - 0.5 * abs(t - 0.5))] *)
Definition thickness (size : Z) (t : float) : float :=
  (full_thickness size * taper t)%float.

(** [margin = size * 0.2], [width = size - 2 * margin],
    [height = size - 2 * margin] *)
Definition margin (size : Z) : float := (Py.float_of_int size * 0.2)%float.
Definition width (size : Z) : float :=
  (Py.float_of_int size - Py.float_of_int 2 * margin size)%float.
Definition height (size : Z) : float :=
  (Py.float_of_int size - Py.float_of_int 2 * margin size)%float.

End Stroke.

Import Stroke.

(** ** Pillow and libm: the library code the scripts call *)

(** Pillow's pixel-level kernels.  Each one returns the new raster of an image
    whose size is given as first argument; what they compute is Pillow's
    business, which image they are applied to is the scripts'. *)
Class Pillow : Type := {
  Pixels : Type;
  (** [Image.new('RGBA', size, color)] *)
  raster_new : Z * Z → colour → Pixels;
  (** [ImageDraw.rounded_rectangle(xy, radius=, fill=)] *)
  raster_rounded_rectangle :
    Z * Z → Pixels → (Z * Z) * (Z * Z) → Z → colour → Pixels;
  (** [ImageDraw.ellipse(xy, fill=)] *)
  raster_ellipse :
    Z * Z → Pixels → float * float * float * float → colour → Pixels;
  (** [Image.resize(size, Image.Resampling.LANCZOS)]: source size, source
      raster, target size *)
  resample_lanczos : Z * Z → Pixels → Z * Z → Pixels;
  (** What [Image.open] reads back from an icon container that was encoded
      from a raster of the given size with the given list of sizes. *)
  ico_largest_frame :
    Z * Z → Pixels → list (Z * Z) → option ((Z * Z) * Pixels);
}.

(** [math.sin] *)
Class Libm : Type := { sin : float → float }.

Section Scripts.
Context `{!Pillow, !Libm}.

(** *** Images, files and the world *)

(** A loaded Pillow image: its [size] and its raster. *)
Record Image : Type := mkImage {
  im_size : Z * Z;
  im_px : Pixels;
}.

(** What a file holds: an encoded single image, an icon container (the
    image handed to the ICO encoder and the sizes asked of it), or bytes
    that are no image. *)
Inductive file_data : Type :=
| PngData (im : Image)
| IcoData (im : Image) (sizes : list (Z * Z))
| Blob (bytes : string).

Inductive node : Type :=
| Dir
| File (d : file_data).

(** The observable effects, in the order they happen. *)
Inductive event : Type :=
| Print (line : string)
| Mkdir (path : string)
| Write (path : string) (d : file_data).

(** The file store maps a path, as the string the script passes, to what is
    there (parent directories, links and the normalisation of paths are not
    modelled); image objects live in [heap] and are named by their index. *)
Record world : Type := mkWorld {
  fs : gmap string node;
  heap : list Image;
  trace : list event;
}.

Inductive exn : Type :=
| FileNotFoundError
| FileExistsError
| IsADirectoryError
| UnidentifiedImageError
| ValueError
| ReferenceError
| SystemExit (code : Z).

Inductive result (A : Type) : Type :=
| Ok (a : A)
| Raise (e : exn).
#[global] Arguments Ok {A} a.
#[global] Arguments Raise {A} e.

(** State and exceptions: a raised exception keeps the world as it is at
    that point (files already written stay written). *)
Definition M (A : Type) : Type := world → result A * world.

#[global] Instance M_ret : MRet M := λ A a w, (Ok a, w).
#[global] Instance M_bind : MBind M := λ A B f m w,
  match m w with
  | (Ok a, w') => f a w'
  | (Raise e, w') => (Raise e, w')
  end.

Definition raise {A : Type} (e : exn) : M A := λ w, (Raise e, w).

Definition emit (e : event) : M unit := λ w,
  (Ok tt, mkWorld (fs w) (heap w) (trace w ++ [e])).

(** [for x in xs: body(x)] *)
Fixpoint for_ {A : Type} (xs : list A) (body : A → M unit) : M unit :=
  match xs with
  | [] => mret tt
  | x :: xs' => body x ;; for_ xs' body
  end.

(** *** Python and Pillow primitives *)

(** [print(line)] *)
Definition print (line : string) : M unit := emit (Print line).

(** [os.path.exists(path)] *)
Definition os_path_exists (path : string) : M bool := λ w,
  (Ok (bool_decide (is_Some (fs w !! path))), w).

(** [os.makedirs(path, exist_ok=True)], as far as the store goes: the
    directory at [path] itself.  The parents the call creates on its way are
    not represented (the store has no tree), nor is its failure below a
    regular file. *)
Definition os_makedirs (path : string) : M unit := λ w,
  match fs w !! path with
  | Some Dir => (Ok tt, w)
  | Some (File _) => (Raise FileExistsError, w)
  | None =>
      if bool_decide (path = "") then (Raise FileNotFoundError, w)
      else (Ok tt, mkWorld (<[path := Dir]> (fs w)) (heap w)
                     (trace w ++ [Mkdir path]))
  end.

(** [os.path.join(a, b)] (posixpath) *)
Definition is_sep (c : ascii) : bool := bool_decide (c = "/"%char).

(** [path.endswith('/')] *)
Fixpoint ends_with_sep (path : string) : bool :=
  match path with
  | EmptyString => false
  | String c EmptyString => is_sep c
  | String _ rest => ends_with_sep rest
  end.

(** [path.startswith('/')] *)
Definition starts_with_sep (path : string) : bool :=
  match path with
  | String c _ => is_sep c
  | EmptyString => false
  end.

Definition os_path_join (a b : string) : string :=
  if starts_with_sep b then b
  else if bool_decide (a = "") || ends_with_sep a then a +:+ b
  else a +:+ "/" +:+ b.

Definition alloc (im : Image) : M nat := λ w,
  (Ok (length (heap w)), mkWorld (fs w) (heap w ++ [im]) (trace w)).

Definition deref (r : nat) : M Image := λ w,
  match heap w !! r with
  | Some im => (Ok im, w)
  | None => (Raise ReferenceError, w)
  end.

Definition assign (r : nat) (im : Image) : M unit := λ w,
  (Ok tt, mkWorld (fs w) (<[r := im]> (heap w)) (trace w)).

(** What [Image.open] decodes from a file. *)
Definition decode (d : file_data) : option Image :=
  match d with
  | PngData im => Some im
  | IcoData im sizes =>
      '(size, px) ← ico_largest_frame (im_size im) (im_px im) sizes;
      Some (mkImage size px)
  | Blob _ => None
  end.

(** [Image.open(path)] (the raster is read here; Pillow reads it at the
    first use, before the script writes anything).  A file whose header
    identifies an image but whose data cannot be read, which Pillow opens
    and then fails to load, is not represented. *)
Definition Image_open (path : string) : M nat := λ w,
  match fs w !! path with
  | None => (Raise FileNotFoundError, w)
  | Some Dir => (Raise IsADirectoryError, w)
  | Some (File d) =>
      match decode d with
      | Some im => alloc im w
      | None => (Raise UnidentifiedImageError, w)
      end
  end.

(** [Image.new('RGBA', size, color)]: Pillow refuses a negative side and
    one that does not fit a C [int] (the one exception stands for both
    errors; running out of memory is not represented). *)
Definition Image_new (size : Z * Z) (color : colour) : M nat :=
  if bool_decide (0 ≤ size.1 < 2 ^ 31 ∧ 0 ≤ size.2 < 2 ^ 31)
  then alloc (mkImage size (raster_new size color))
  else raise ValueError.

(** The image [im.resize(size, LANCZOS)] returns; [im] is left as it is. *)
Definition resized_image (im : Image) (size : Z * Z) : Image :=
  mkImage size (resample_lanczos (im_size im) (im_px im) size).

(** [img.resize(size, Image.Resampling.LANCZOS)]: a new image object. *)
Definition Image_resize (img : nat) (size : Z * Z) : M nat :=
  im ← deref img; alloc (resized_image im size).

Definition write_file (path : string) (d : file_data) : M unit := λ w,
  match fs w !! path with
  | Some Dir => (Raise IsADirectoryError, w)
  | _ => (Ok tt, mkWorld (<[path := File d]> (fs w)) (heap w)
                   (trace w ++ [Write path d]))
  end.

(** [img.save(path)].  Pillow picks the format from the extension: every
    name the scripts save under ends in [.png], and no other extension is
    modelled.  A save is all or nothing here: the failures of the encoder
    (an image mode PNG cannot hold, an empty image) and of the file system
    (a missing parent directory), after which Pillow leaves an emptied file
    or none, are not represented; the theorems below that speak of a
    returning run do not depend on them. *)
Definition Image_save (img : nat) (path : string) : M unit :=
  im ← deref img; write_file path (PngData im).

(** [img.save(path, format='ICO', sizes=sizes)] *)
Definition Image_save_ico (img : nat) (path : string)
    (sizes : list (Z * Z)) : M unit :=
  im ← deref img; write_file path (IcoData im sizes).

(** [draw.rounded_rectangle(xy, radius=radius, fill=fill)]: in place. *)
Definition ImageDraw_rounded_rectangle (draw : nat)
    (xy : (Z * Z) * (Z * Z)) (radius : Z) (fill : colour) : M unit :=
  im ← deref draw;
  assign draw (mkImage (im_size im)
    (raster_rounded_rectangle (im_size im) (im_px im) xy radius fill)).

(** [draw.ellipse(xy, fill=fill)]: in place. *)
Definition ImageDraw_ellipse (draw : nat)
    (xy : float * float * float * float) (fill : colour) : M unit :=
  im ← deref draw;
  assign draw (mkImage (im_size im)
    (raster_ellipse (im_size im) (im_px im) xy fill)).

(** *** The generator: [create_gradient_icon] *)

(** One circle of the stroke: everything the loop body computes from [i]
    before it draws. *)
Record stamp : Type := mkStamp {
  st_t : float;
  st_x : float;
  st_y : float;
  st_color : colour;
  st_thickness : float;
}.

(** Lines 38-60 of the loop body; [None] when an [int(...)] raises. *)
Definition sample (size i : Z) : option stamp :=
  let t := sample_t i in
  let x := (margin size + width size * t)%float in
  let y := (Py.int_truediv size 2
            + sin (t * Py.pi * Py.float_of_int 2)
              * (height size * 0.3))%float in
  color ← stroke_color t;
  let thickness := thickness size t in
  Some (mkStamp t x y color thickness).

(** [[x - rO, y - rO, x + rO, y + rO]] with [rO = thickness / 2] *)
Definition bounding_box (s : stamp) : float * float * float * float :=
  let rO := (st_thickness s / Py.float_of_int 2)%float in
  ((st_x s - rO)%float, (st_y s - rO)%float,
   (st_x s + rO)%float, (st_y s + rO)%float).

(** The body of [for i in range(steps)]. *)
Definition stroke_step (draw : nat) (size i : Z) : M unit :=
  match sample size i with
  | None => raise ValueError
  | Some s => ImageDraw_ellipse draw (bounding_box s) (st_color s)
  end.

Definition bg_color : colour := RGB 20 20 25.
Definition highlight_color : colour := RGBA 255 255 255 20.

Definition create_gradient_icon (output_path : string) (size : Z)
    : M unit :=
  image ← Image_new (size, size) (RGBA 0 0 0 0);
  let draw := image in
  let corner_radius := size / 5 in
  ImageDraw_rounded_rectangle draw ((0, 0), (size, size))
    corner_radius bg_color;;
  for_ (Py.range steps) (stroke_step draw size);;
  ImageDraw_ellipse draw
    ((Py.float_of_int size * 0.1)%float, (Py.float_of_int size * 0.1)%float,
     (Py.float_of_int size * 0.9)%float, (Py.float_of_int size * 0.5)%float)
    highlight_color;;
  Image_save image output_path;;
  print ("Generated icon at " +:+ output_path).

(** [if __name__ == "__main__"] of the generator: the default size. *)
Definition generator_main : M unit :=
  create_gradient_icon "icon_master.png" 1024.

(** *** The exporter: [process_icon] *)

(** The [sizes] dict, in insertion order. *)
Definition sizes : list (string * (Z * Z)) :=
  [ ("icon.png", (512, 512));
    ("32x32.png", (32, 32));
    ("128x128.png", (128, 128));
    ("128x128@2x.png", (256, 256));
    ("Square30x30Logo.png", (30, 30));
    ("Square44x44Logo.png", (44, 44));
    ("Square71x71Logo.png", (71, 71));
    ("Square89x89Logo.png", (89, 89));
    ("Square107x107Logo.png", (107, 107));
    ("Square142x142Logo.png", (142, 142));
    ("Square150x150Logo.png", (150, 150));
    ("Square284x284Logo.png", (284, 284));
    ("Square310x310Logo.png", (310, 310));
    ("StoreLogo.png", (50, 50)) ].

Definition ico_sizes : list (Z * Z) :=
  [(256, 256); (128, 128); (64, 64); (48, 48); (32, 32); (16, 16)].

(** [str(size)] of a pair of ints, as the f-string prints it. *)
Definition repr_size (size : Z * Z) : string :=
  "(" +:+ pretty size.1 +:+ ", " +:+ pretty size.2 +:+ ")".

(** The body of [for name, size in sizes.items()]. *)
Definition export_step (img : nat) (target_dir_tauri : string)
    (entry : string * (Z * Z)) : M unit :=
  let '(name, size) := entry in
  resized ← Image_resize img size;
  Image_save resized (os_path_join target_dir_tauri name);;
  print ("Saved " +:+ name +:+ " (" +:+ repr_size size +:+ ")").

Definition process_icon
    (source_path target_dir_tauri target_dir_public : string) : M unit :=
  found ← os_path_exists source_path;
  if negb found then
    print ("Error: Source file not found at " +:+ source_path)
  else
    os_makedirs target_dir_tauri;;
    os_makedirs target_dir_public;;
    img ← Image_open source_path;
    print ("Processing icons from " +:+ source_path +:+ "...");;
    for_ sizes (export_step img target_dir_tauri);;
    Image_save_ico img (os_path_join target_dir_tauri "icon.ico") ico_sizes;;
    print "Saved icon.ico";;
    public ← Image_resize img (512, 512);
    Image_save public (os_path_join target_dir_public "icon.png");;
    print "Saved public/icon.png".

(** [if __name__ == "__main__"] of the exporter; [cwd] is [os.getcwd()]. *)
Definition exporter_main (argv : list string) (cwd : string) : M unit :=
  if bool_decide (length argv < 2)%nat then
    print "Usage: python process_icons.py <path_to_source_image>";;
    raise (SystemExit 1)
  else
    let source_image := default "" (argv !! 1%nat) in
    let project_root := cwd in
    let tauri_icons_dir :=
      os_path_join (os_path_join project_root "src-tauri") "icons" in
    let public_dir := os_path_join project_root "public" in
    process_icon source_image tauri_icons_dir public_dir.

(** The exit status of the interpreter after running a script. *)
Definition exit_status {A : Type} (r : result A) : Z :=
  match r with
  | Ok _ => 0
  | Raise (SystemExit code) => code
  | Raise _ => 1
  end.

(** *** What a run leaves behind *)

(** The events of a run that took the world from [w] to [w']. *)
Definition since (w w' : world) : list event :=
  drop (length (trace w)) (trace w').

(** The files written, in order, among some events. *)
Definition writes (evs : list event) : list (string * file_data) :=
  omap (λ ev, match ev with
              | Write path d => Some (path, d)
              | _ => None
              end) evs.

Definition is_ico (d : file_data) : bool :=
  match d with
  | IcoData _ _ => true
  | _ => false
  end.

(** The store after writing the files [ws] in order. *)
Definition written (ws : list (string * file_data))
    (store : gmap string node) : gmap string node :=
  foldl (λ st pd, <[pd.1 := File pd.2]> st) store ws.

(** The store after a successful [os.makedirs(path, exist_ok=True)]. *)
Definition made_dir (path : string) (store : gmap string node)
    : gmap string node :=
  match store !! path with
  | None => <[path := Dir]> store
  | Some _ => store
  end.

Definition mkdir_events (path : string) (store : gmap string node)
    : list event :=
  match store !! path with
  | None => [Mkdir path]
  | Some _ => []
  end.

(** The part of a path after its last separator. *)
Definition has_sep (path : string) : bool :=
  existsb is_sep (list_ascii_of_string path).

Fixpoint basename (path : string) : string :=
  match path with
  | EmptyString => EmptyString
  | String c rest => if has_sep path then basename rest else path
  end.

(** The circle of sample [i] painted on a canvas ([im] itself when the
    sample raises). *)
Definition paint (size : Z) (im : Image) (i : Z) : Image :=
  match sample size i with
  | Some s =>
      mkImage (im_size im)
        (raster_ellipse (im_size im) (im_px im) (bounding_box s)
           (st_color s))
  | None => im
  end.

(** The picture [create_gradient_icon] builds for a canvas size. *)
Definition canvas (size : Z) : Image :=
  let blank := mkImage (size, size) (raster_new (size, size) (RGBA 0 0 0 0)) in
  let plate := mkImage (size, size)
    (raster_rounded_rectangle (size, size) (im_px blank)
       ((0, 0), (size, size)) (size / 5) bg_color) in
  let stroke := foldl (paint size) plate (Py.range steps) in
  mkImage (im_size stroke)
    (raster_ellipse (im_size stroke) (im_px stroke)
       ((Py.float_of_int size * 0.1)%float,
        (Py.float_of_int size * 0.1)%float,
        (Py.float_of_int size * 0.9)%float,
        (Py.float_of_int size * 0.5)%float)
       highlight_color).

(** The events of one iteration of the exporter's loop, and of the whole
    run after the directories are made, for a source image [orig]. *)
Definition export_step_events (orig : Image) (target_dir_tauri : string)
    (entry : string * (Z * Z)) : list event :=
  [ Write (os_path_join target_dir_tauri entry.1)
      (PngData (resized_image orig entry.2));
    Print ("Saved " +:+ entry.1 +:+ " (" +:+ repr_size entry.2 +:+ ")") ].

Definition export_events (orig : Image)
    (source_path target_dir_tauri target_dir_public : string)
    : list event :=
  Print ("Processing icons from " +:+ source_path +:+ "...")
  :: (sizes ≫= export_step_events orig target_dir_tauri)
  ++ [ Write (os_path_join target_dir_tauri "icon.ico")
         (IcoData orig ico_sizes);
       Print "Saved icon.ico";
       Write (os_path_join target_dir_public "icon.png")
         (PngData (resized_image orig (512, 512)));
       Print "Saved public/icon.png" ].

(** [os.makedirs(path, exist_ok=True)] succeeds on this store. *)
Definition can_make_dir (path : string) (store : gmap string node) : bool :=
  match store !! path with
  | Some Dir => true
  | Some (File _) => false
  | None => negb (bool_decide (path = ""))
  end.

(** The files a run of the exporter writes, in order, for a source image
    [orig]. *)
Definition outputs (orig : Image) (tauri pub : string)
    : list (string * file_data) :=
  map (λ e, (os_path_join tauri e.1, PngData (resized_image orig e.2))) sizes
  ++ [ (os_path_join tauri "icon.ico", IcoData orig ico_sizes);
       (os_path_join pub "icon.png", PngData (resized_image orig (512, 512))) ].

End Scripts.

(** ** The interpolation and the sampling as the specification words them,
    in exact rational arithmetic *)

Module Spec.

(** Truncation of a rational to an integer, toward zero. *)
Definition truncate (q : Q) : Z :=
  if Qle_bool 0 q then Qfloor q else (- Qfloor (- q))%Z.

(** One channel of [a + (b - a) * local_t], truncated. *)
Definition channel (a b : Z) (local_t : Q) : Z :=
  truncate (inject_Z a + inject_Z (b - a) * local_t)%Q.

Definition blend (p q : Z * Z * Z) (local_t : Q) : colour :=
  let '(pr, pg, pb) := p in
  let '(qr, qg, qb) := q in
  RGBA (channel pr qr local_t) (channel pg qg local_t)
       (channel pb qb local_t) 255.

(** For [t < 0.5] interpolate c1 to c2 with [local_t = 2t]; for [t >= 0.5]
    interpolate c2 to c3 with [local_t = 2(t - 0.5)]. *)
Definition color (t : Q) : colour :=
  if Qle_bool (1 # 2) t
  then blend c2 c3 (2 * (t - (1 # 2)))%Q
  else blend c1 c2 (2 * t)%Q.

(** The [i]-th of [steps] samples spread over the closed interval [0, 1]. *)
Definition sample_point (i : Z) : Q := Qmake i 199.

End Spec.

(** ** Boolean checks run over the finitely many samples *)

#[global] Instance colour_eq_dec : EqDecision colour.
Proof. solve_decision. Defined.

(** [x] is a finite float whose exact value is within [eps] of [q]. *)
Definition near (x : float) (q eps : Q) : bool :=
  match Py.exact x with
  | Some v => Qle_bool (Qabs (v - q)) eps
  | None => false
  end.

Definition half_ulp : Q := 1 # (2 ^ 54).

(** [(r, g, b, 255)] for a colour stop [(r, g, b)]. *)
Definition opaque (c : Z * Z * Z) : colour :=
  let '(r, g, b) := c in RGBA r g b 255.

Definition sampling_check (i : Z) : bool :=
  (0 <=? sample_t i)%float && (sample_t i <=? 1)%float
  && near (sample_t i) (Spec.sample_point i) half_ulp
  && (if i <? steps - 1 then (sample_t i <? sample_t (i + 1))%float
      else (sample_t i =? 1)%float)
  && (if i =? 0 then (sample_t i =? 0)%float else true).

Definition color_check (i : Z) : bool :=
  bool_decide (stroke_color (sample_t i) = Some (Spec.color (Spec.sample_point i)))
  && match Py.exact (sample_t i) with
     | Some q => bool_decide (stroke_color (sample_t i) = Some (Spec.color q))
     | None => false
     end.

Definition midpoint_check (i : Z) : bool :=
  negb (sample_t i =? 0.5)%float
  && negb (bool_decide (stroke_color (sample_t i) = Some (opaque c2)))
  && (taper (sample_t i) <? 1)%float.

(** The thickness of sample [i] against its neighbour and against the bounds,
    for one canvas size. *)
Definition thickness_check (size i : Z) : bool :=
  (thickness size (sample_t i) <=? full_thickness size)%float
  && (full_thickness size * 0.75 <=? thickness size (sample_t i))%float
  && (if 1 <=? size
      then (thickness size (sample_t i) <? full_thickness size)%float
      else true)
  && (if i <? 99
      then (thickness size (sample_t i)
            <=? thickness size (sample_t (i + 1)))%float
      else true)
  && (if (100 <=? i) && (i <? 199)
      then (thickness size (sample_t (i + 1))
            <=? thickness size (sample_t i))%float
      else true).

Definition size_check (size : Z) : bool :=
  forallb (thickness_check size) (Py.range steps)
  && (thickness size 0.5 =? full_thickness size)%float
  && (thickness size (sample_t 0) =? full_thickness size * 0.75)%float
  && (thickness size (sample_t 199) =? full_thickness size * 0.75)%float.

(** ** Rounding as [SpecFloat] computes it: the closed forms the proofs use *)

(** The record after [k + 1] shifts: the quotient, the bit just shifted out,
    and whether any lower bit is set. *)
Definition shifted (m : Z) (k : nat) : shr_record :=
  Build_shr_record (m / 2 ^ (Z.of_nat k + 1)) (Z.testbit m (Z.of_nat k))
    (negb (m mod 2 ^ Z.of_nat k =? 0)).

(** [round_nearest_even] after [k + 1] shifts of [m]. *)
Definition rne (m : Z) (k : nat) : Z :=
  round_nearest_even (shr_m (shifted m k)) (loc_of_shr_record (shifted m k)).

(** The least exponent of binary64. *)
Definition emin64 : Z := -1074.

(** The result of rounding a mantissa of [53 + k + 1] digits. *)
Definition rounded (m : positive) (e : Z) (k : nat) : spec_float :=
  if rne (Z.pos m) k =? 2 ^ 53
  then S754_finite false (2 ^ 52)%positive (e + Z.of_nat k + 2)
  else S754_finite false (Z.to_pos (rne (Z.pos m) k)) (e + Z.of_nat k + 1).

(** A positive normal number: 53 significant bits, exponent given. *)
Definition normal (x : spec_float) (m : positive) (e : Z) : Prop :=
  x = S754_finite false m e /\ 2 ^ 52 <= Z.pos m < 2 ^ 53.

(** The significand of the taper factor of sample [i], scaled by [2^53]
    (0 when the factor is not a positive number in [1/2, 1)). *)
Definition taper_mantissa (i : Z) : Z :=
  match Prim2SF (taper (sample_t i)) with
  | S754_finite false m e => if e =? -53 then Z.pos m else 0
  | _ => 0
  end.

Definition taper_check (i : Z) : bool :=
  (3 * 2 ^ 51 <=? taper_mantissa i) && (taper_mantissa i <=? 2 ^ 53 - 2)
  && (if i <? 99 then taper_mantissa i <=? taper_mantissa (i + 1) else true)
  && (if (100 <=? i) && (i <? 199)
      then taper_mantissa (i + 1) <=? taper_mantissa i else true).

(** ** Stand-ins for the library code, to run the scripts on concrete inputs

    Every theorem below holds for all instances of [Pillow] and [Libm]; these
    two only serve to evaluate the scripts. *)

(** Rasters that record the kernels applied, innermost first. *)
Inductive raster_log : Type :=
| Decoded (tag : string)
| Blank (size : Z * Z) (color : colour)
| RoundedRectangle (under : raster_log)
    (xy : (Z * Z) * (Z * Z)) (radius : Z) (fill : colour)
| Ellipse (under : raster_log)
    (xy : float * float * float * float) (fill : colour)
| Lanczos (from : raster_log) (from_size to_size : Z * Z).

Definition logging_pillow : Pillow := {|
  Pixels := raster_log;
  raster_new := Blank;
  raster_rounded_rectangle := λ _ px xy radius fill,
    RoundedRectangle px xy radius fill;
  raster_ellipse := λ _ px xy fill, Ellipse px xy fill;
  resample_lanczos := λ from_size px to_size, Lanczos px from_size to_size;
  ico_largest_frame := λ size px _, Some (size, px);
|}.

(** The first two terms of the sine series. *)
Definition series_libm : Libm := {|
  sin := λ x, (x - x * x * x / 6)%float;
|}.

(** A world holding one 1024x1024 master image, and the world the exporter
    leaves when run on it. *)
Definition master : @Image logging_pillow :=
  @mkImage logging_pillow (1024, 1024) (Decoded "icon_master.png").

Definition demo_world : @world logging_pillow :=
  mkWorld (<["icon_master.png" := File (PngData master)]> ∅) [] [].

Definition demo_export : @world logging_pillow :=
  (process_icon "icon_master.png" "src-tauri/icons" "public" demo_world).2.

(** ** What the scripts keep and leave alone *)

Section Invariants.
Context `{!Pillow}.

(** The store [st'] keeps every node of [st] with its kind: a directory is
    still a directory, a file is still a file (its content may differ). *)
Definition keeps_nodes (st st' : gmap string node) : Prop :=
  ∀ p, match st !! p with
       | Some Dir => st' !! p = Some Dir
       | Some (File _) => ∃ d, st' !! p = Some (File d)
       | None => True
       end.

(** A computation whose every run, whatever its outcome, takes the store
    to one related to it by [R]. *)
Definition respects (R : relation (gmap string node)) {A : Type} (m : M A)
    : Prop :=
  ∀ w r w', m w = (r, w') → R (fs w) (fs w').

(** The store [st'] has at [p] what [st] has, provided something was there
    or [p] is none of [dirs]. *)
Definition kept_at (p : string) (dirs : list string)
    (st st' : gmap string node) : Prop :=
  is_Some (st !! p) ∨ p ∉ dirs → st' !! p = st !! p.

(** A node [Image.open] cannot read: a directory, or a file that is no
    image. *)
Definition unreadable (n : node) : Prop :=
  match n with
  | Dir => True
  | File d => decode d = None
  end.

(** The paths a run of the exporter writes to, in order. *)
Definition output_paths (tauri pub : string) : list string :=
  map (os_path_join tauri) (sizes.*1)
  ++ [os_path_join tauri "icon.ico"; os_path_join pub "icon.png"].

End Invariants.

(** ** Checks on the colours along the stroke *)

Definition is_byte (z : Z) : bool := (0 <=? z) && (z <=? 255).

(** The colour of sample [i] is opaque with byte channels, and the next
    sample, when there is one, is no less red, no more green and no more
    blue. *)
Definition gradient_check (i : Z) : bool :=
  match stroke_color (sample_t i) with
  | Some (RGBA r g b a) =>
      is_byte r && is_byte g && is_byte b && (a =? 255)
      && (if i <? steps - 1 then
            match stroke_color (sample_t (i + 1)) with
            | Some (RGBA r' g' b' _) =>
                (r <=? r') && (g' <=? g) && (b' <=? b)
            | _ => false
            end
          else true)
  | _ => false
  end.

(** What [os.path.join(cwd, name)] puts before a relative [name]. *)
Definition cwd_prefix (cwd : string) : string :=
  if bool_decide (cwd = "") || ends_with_sep cwd then cwd else cwd +:+ "/".


(** Three more worlds: the master image sitting at one of the exporter's own
    output paths; a text file; and the master image beside a directory that
    sits where the exporter writes [32x32.png]. *)
Definition self_world : @world logging_pillow :=
  mkWorld (<["src-tauri/icons/icon.png" := File (PngData master)]> ∅) [] [].

Definition text_world : @world logging_pillow :=
  mkWorld (<["notes.txt" := File (Blob "hello")]> ∅) [] [].

Definition blocked_world : @world logging_pillow :=
  mkWorld (<["src-tauri/icons/32x32.png" := Dir]>
             (<["icon_master.png" := File (PngData master)]> ∅)) [] [].

(** ** The picture the generator draws, kernel by kernel *)

Section Picture.
Context `{!Pillow}.

(** The box of a circle of diameter [thickness] centred at [(x, y)], as
    lines 63-64 pass it to [draw.ellipse]. *)
Definition circle_box (x y thickness : float)
    : float * float * float * float :=
  let r := (thickness / 2)%float in
  ((x - r)%float, (y - r)%float, (x + r)%float, (y + r)%float).

(** The picture of a [size] canvas on which the circles [stamps] are drawn,
    in order, between the dark rounded plate and the pale highlight: what
    the calls of lines 7, 16, 64 and 68 leave, written out kernel by
    kernel. *)
Definition stamped_picture (size : Z) (stamps : list stamp) : Image :=
  let dims := (size, size) in
  let plate :=
    raster_rounded_rectangle dims (raster_new dims (RGBA 0 0 0 0))
      ((0, 0), (size, size)) (size / 5) (RGB 20 20 25) in
  let stroke :=
    foldl (λ px s,
             raster_ellipse dims px
               (circle_box (st_x s) (st_y s) (st_thickness s)) (st_color s))
      plate stamps in
  mkImage dims
    (raster_ellipse dims stroke
       ((Py.float_of_int size * 0.1)%float, (Py.float_of_int size * 0.1)%float,
        (Py.float_of_int size * 0.9)%float, (Py.float_of_int size * 0.5)%float)
       (RGBA 255 255 255 20)).

End Picture.

(** ** The sampling against the exact quotient *)

(** [x] is the binary64 number nearest to [q]: it is finite, no finite
    binary64 number is closer to [q], and one that is as close has the same
    value. *)
Definition nearest_binary64 (x : float) (q : Q) : Prop :=
  ∃ v, Py.exact x = Some v
    ∧ ∀ (y : float) (u : Q), Py.exact y = Some u →
        (Qabs (v - q) <= Qabs (u - q))%Q
        ∧ ((Qabs (u - q) <= Qabs (v - q))%Q → (u == v)%Q).

(** Sample [i] is [i/199] itself, or a number of 53 significant bits, not
    a power of two, within half a unit in its last place of [i/199]. *)
Definition nearest_check (i : Z) : bool :=
  match Prim2SF (sample_t i) with
  | S754_zero _ => i =? 0
  | S754_finite false m e =>
      (e <? 0)
      && ((199 * Z.pos m =? i * 2 ^ (- e))
          || ((2 ^ 52 <? Z.pos m) && (Z.pos m <? 2 ^ 53) && (e <=? -53)
              && (2 * Z.abs (199 * Z.pos m - i * 2 ^ (- e)) <=? 199)))
  | _ => false
  end.

(** The exact values of samples [i] and [i + 1] are [1/199] apart, up to
    the two roundings. *)
Definition spacing_check (i : Z) : bool :=
  match Py.exact (sample_t i), Py.exact (sample_t (i + 1)) with
  | Some v, Some v' => Qle_bool (Qabs (v' - v - (1 # 199))) (1 # 2 ^ 53)
  | _, _ => false
  end.

(** ** Python's [math.floor] and [math.ceil] *)

Module PyMath.

(** [math.floor(x)] and [math.ceil(x)] of a float; [None] stands for the
    error Python raises on an infinity or a NaN. *)
Definition floor (x : float) : option Z :=
  match Prim2SF x with
  | S754_zero _ => Some 0
  | S754_finite s m e =>
      if 0 <=? e then
        let a := Z.shiftl (Z.pos m) e in Some (if s then - a else a)
      else
        let q := Z.shiftr (Z.pos m) (- e) in
        let whole := Z.pos m mod 2 ^ (- e) =? 0 in
        Some (if s then (if whole then - q else - q - 1) else q)
  | _ => None
  end.

Definition ceil (x : float) : option Z :=
  match Prim2SF x with
  | S754_zero _ => Some 0
  | S754_finite s m e =>
      if 0 <=? e then
        let a := Z.shiftl (Z.pos m) e in Some (if s then - a else a)
      else
        let q := Z.shiftr (Z.pos m) (- e) in
        let whole := Z.pos m mod 2 ^ (- e) =? 0 in
        Some (if s then - q else (if whole then q else q + 1))
  | _ => None
  end.

End PyMath.

(** ** Pillow's icon encoder: which frames [save(format='ICO', sizes=...)]
    embeds

    The script hands the loaded image and [ico_sizes] to Pillow;
    [IcoImagePlugin._save] goes through [sorted(set(sizes))], skips a size
    wider or taller than the image or than 256, and embeds for each size
    left the image itself when it has that size and otherwise a copy shrunk
    by [thumbnail(size, LANCZOS, reducing_gap=None)], which keeps the aspect
    ratio.  Sizes are taken with positive sides, as the script's are. *)

Module Ico.

(** The order of Python's tuples of ints. *)
Definition size_le (a b : Z * Z) : Prop :=
  a.1 < b.1 ∨ (a.1 = b.1 ∧ a.2 ≤ b.2).

#[global] Instance size_le_dec (a b : Z * Z) : Decision (size_le a b).
Proof. unfold size_le. apply _. Defined.

(** [sorted(set(sizes))] *)
Definition requested (sizes : list (Z * Z)) : list (Z * Z) :=
  merge_sort size_le (remove_dups sizes).

(** The test of the loop, negated: the size is not skipped. *)
Definition fits (dims size : Z * Z) : bool :=
  negb ((dims.1 <? size.1) || (dims.2 <? size.2)
        || (256 <? size.1) || (256 <? size.2)).

(** [max(min(math.floor(number), math.ceil(number), key=key), 1)] *)
Definition round_aspect (number : float) (key : Z → float) : option Z :=
  lo ← PyMath.floor number;
  hi ← PyMath.ceil number;
  Some (Z.max (if (key hi <? key lo)%float then hi else lo) 1).

(** [preserve_aspect_ratio()] of [Image.thumbnail]: the size the image is
    shrunk to; [None] when it is left as it is (the requested size is no
    smaller than the image in either direction) or a rounding raises. *)
Definition thumbnail_size (dims size : Z * Z) : option (Z * Z) :=
  let '(width, height) := dims in
  let '(x, y) := size in
  if (width <=? x) && (height <=? y) then None
  else
    let aspect := Py.int_truediv width height in
    if (aspect <=? Py.int_truediv x y)%float then
      x' ← round_aspect (Py.float_of_int y * aspect)%float
             (λ n, PrimFloat.abs (aspect - Py.int_truediv n y)%float);
      Some (x', y)
    else
      y' ← round_aspect (Py.float_of_int x / aspect)%float
             (λ n, if n =? 0 then 0%float
                   else PrimFloat.abs (aspect - Py.int_truediv x n)%float);
      Some (x, y').

Section Frames.
Context `{!Pillow}.

(** [frame.thumbnail(size, Image.Resampling.LANCZOS, reducing_gap=None)] on
    a copy of the image. *)
Definition thumbnail (im : Image) (size : Z * Z) : Image :=
  match thumbnail_size (im_size im) size with
  | Some final =>
      if bool_decide (im_size im = final) then im
      else resized_image im final
  | None => im
  end.

(** The frame embedded for a size that is not skipped. *)
Definition frame (im : Image) (size : Z * Z) : Image :=
  if bool_decide (im_size im = size) then im else thumbnail im size.

(** The frames of the container, in the order they are embedded. *)
Definition frames (im : Image) (sizes : list (Z * Z)) : list Image :=
  map (frame im) (List.filter (fits (im_size im)) (requested sizes)).

(** The frames a file embeds, when it is an icon container. *)
Definition embedded (d : file_data) : list Image :=
  match d with
  | IcoData im sizes => frames im sizes
  | _ => []
  end.

End Frames.

End Ico.

(** The sides the script asks of the encoder, smallest first. *)
Definition icon_sides : list Z := [16; 32; 48; 64; 128; 256].

(** ** Paths in normal form *)

(** The components of a path, split at the separators. *)
Fixpoint components (path : string) : list string :=
  match path with
  | EmptyString => [EmptyString]
  | String c rest =>
      if is_sep c then EmptyString :: components rest
      else match components rest with
           | first :: others => String c first :: others
           | [] => [String c EmptyString]
           end
  end.

(** An absolute path in normal form, as [os.getcwd()] returns one: the
    root, or a separator before every component, none of them empty, [.] or
    [..].  Two such paths name the same file only when they are the same
    string (links apart). *)
Definition canonical (path : string) : bool :=
  match components path with
  | "" :: rest =>
      bool_decide (rest = [""])
      || forallb (λ c, negb (bool_decide (c = "") || bool_decide (c = ".")
                             || bool_decide (c = "..")))
           rest
  | _ => false
  end.

(** Two more worlds: a 100 x 100 source image; and a project checked out at
    [/repo], holding the master image and a text file. *)
Definition small : @Image logging_pillow :=
  @mkImage logging_pillow (100, 100) (Decoded "small.png").

Definition small_world : @world logging_pillow :=
  mkWorld (<["small.png" := File (PngData small)]> ∅) [] [].

Definition repo_world : @world logging_pillow :=
  mkWorld (<["/repo/README.md" := File (Blob "Sutu")]>
             (<["/repo/icon_master.png" := File (PngData master)]> ∅)) [] [].

(** * Properties *)

(** ** Finite enumeration *)

Lemma range_elem (n i : Z) : 0 ≤ i < n → i ∈ Py.range n.
Proof.
  intros Hi. unfold Py.range.
  apply list_elem_of_fmap. exists (Z.to_nat i). split; [lia|].
  apply elem_of_seq. lia.
Qed.

Lemma range_forallb (P : Z → bool) (n : Z) :
  forallb P (Py.range n) = true → ∀ i, 0 ≤ i < n → P i = true.
Proof.
  intros H i Hi. rewrite forallb_forall in H.
  apply H, list_elem_of_In, range_elem, Hi.
Qed.

(** ** Order on floats *)

Lemma SFleb_trans (x y z : spec_float) :
  SFleb x y = true → SFleb y z = true → SFleb x z = true.
Proof.
  unfold SFleb, SFcompare.
  destruct x as [sx|sx| |sx mx ex], y as [sy|sy| |sy my ey],
           z as [sz|sz| |sz mz ez];
    try destruct sx; try destruct sy; try destruct sz;
    try (intros; reflexivity); try (intros; discriminate);
    change (Pos.compare_cont Eq) with Pos.compare;
    repeat match goal with
    | |- context [ (?a ?= ?b)%Z ] => destruct (Z.compare_spec a b)
    | |- context [ (?a ?= ?b)%positive ] => destruct (Pos.compare_spec a b)
    end; simpl; try (intros; reflexivity); try (intros; discriminate);
    try lia.
Qed.

Lemma leb_trans (x y z : float) :
  (x <=? y)%float = true → (y <=? z)%float = true → (x <=? z)%float = true.
Proof. rewrite !FloatAxioms.leb_spec. apply SFleb_trans. Qed.

Lemma leb_of_eqb (x y : float) :
  (x =? y)%float = true → (x <=? y)%float = true.
Proof.
  rewrite FloatAxioms.eqb_spec, FloatAxioms.leb_spec. unfold SFeqb, SFleb.
  destruct (SFcompare _ _) as [[]|]; congruence.
Qed.

Lemma leb_refl_l (x y : float) :
  (x <=? y)%float = true → (x <=? x)%float = true.
Proof.
  rewrite !FloatAxioms.leb_spec. unfold SFleb, SFcompare.
  destruct (Prim2SF x) as [sx|sx| |sx mx ex], (Prim2SF y) as [sy|sy| |sy my ey];
    try destruct sx; try (intros; reflexivity); try (intros; discriminate);
    rewrite Z.compare_refl; change (Pos.compare_cont Eq) with Pos.compare;
    rewrite Pos.compare_refl; reflexivity.
Qed.

(** ** The tables: one check per sample *)

Lemma sampling_table : forallb sampling_check (Py.range steps) = true.
Proof. vm_compute. reflexivity. Qed.

Lemma color_table : forallb color_check (Py.range steps) = true.
Proof. vm_compute. reflexivity. Qed.

Lemma midpoint_table : forallb midpoint_check (Py.range steps) = true.
Proof. vm_compute. reflexivity. Qed.

(** ** Rounding to nearest even, as [SpecFloat] computes it *)

Lemma iter_pos_nat {A : Type} (f : A -> A) (n : positive) (x : A) :
  SpecFloat.iter_pos f n x = Nat.iter (Pos.to_nat n) f x.
Proof.
  revert x. induction n as [n IH|n IH|]; intros x; cbn [SpecFloat.iter_pos].
  - rewrite !IH, Pos2Nat.inj_xI, <- Nat.iter_add, <- Nat.iter_succ_r.
    f_equal. lia.
  - rewrite !IH, Pos2Nat.inj_xO, <- Nat.iter_add. f_equal. lia.
  - reflexivity.
Qed.

Lemma shr_1_spec (m : Z) (r s : bool) :
  0 <= m ->
  shr_1 (Build_shr_record m r s) = Build_shr_record (Z.div2 m) (Z.odd m) (r || s).
Proof. destruct m as [|[p|p|]|p]; intros Hm; try reflexivity; lia. Qed.

Lemma split_bit (m : Z) (k : Z) :
  0 <= k ->
  m = 2 ^ (k + 1) * (m / 2 ^ (k + 1)) + 2 ^ k * Z.b2z (Z.testbit m k)
      + m mod 2 ^ k.
Proof.
  intros Hk. rewrite Z.testbit_spec' by lia.
  rewrite Z.pow_add_r by lia. change (2 ^ 1) with 2.
  rewrite <- Z.div_div by lia.
  pose proof (Z.div_mod m (2 ^ k) ltac:(lia)).
  pose proof (Z.div_mod (m / 2 ^ k) 2 ltac:(lia)).
  nia.
Qed.

Lemma iter_shr_1 (m : Z) (k : nat) :
  0 <= m ->
  Nat.iter (S k) shr_1 (Build_shr_record m false false) = shifted m k.
Proof.
  intros Hm. induction k as [|k IH].
  - cbn [Nat.iter]. rewrite shr_1_spec by lia. unfold shifted.
    cbn [Z.of_nat Z.add Z.pow Z.pow_pos Pos.iter Z.mul Pos.mul orb].
    rewrite Z.mod_1_r. cbn [Z.eqb negb].
    rewrite Z.div2_div. change (Z.testbit m 0) with (Z.odd m). reflexivity.
  - rewrite Nat.iter_succ, IH. unfold shifted.
    rewrite shr_1_spec by (apply Z.div_pos; lia).
    f_equal.
    + rewrite Z.div2_div, Z.div_div by lia.
      replace (Z.of_nat (S k) + 1) with (Z.of_nat k + 1 + 1) by lia.
      rewrite (Z.pow_add_r 2 (Z.of_nat k + 1) 1) by lia. reflexivity.
    + rewrite Z.testbit_odd, Z.shiftr_div_pow2 by lia. f_equal. f_equal. lia.
    + pose proof (split_bit (m mod 2 ^ Z.of_nat (S k)) (Z.of_nat k) ltac:(lia)) as Hs.
      assert (Hlow : (m mod 2 ^ Z.of_nat (S k)) mod 2 ^ Z.of_nat k = m mod 2 ^ Z.of_nat k).
      { replace (2 ^ Z.of_nat (S k)) with (2 ^ Z.of_nat k * 2)
          by (rewrite Nat2Z.inj_succ, Z.pow_succ_r by lia; lia).
        rewrite Z.rem_mul_r by lia.
        rewrite (Z.mul_comm (2 ^ Z.of_nat k) (_ mod 2)), Z.mod_add by lia.
        apply Z.mod_mod. lia. }
      assert (Hbit : Z.testbit (m mod 2 ^ Z.of_nat (S k)) (Z.of_nat k) = Z.testbit m (Z.of_nat k)).
      { rewrite Z.mod_pow2_bits_low by lia. reflexivity. }
      assert (Hq : (m mod 2 ^ Z.of_nat (S k)) / 2 ^ (Z.of_nat k + 1) = 0).
      { apply Z.div_small. replace (Z.of_nat k + 1) with (Z.of_nat (S k)) by lia.
        apply Z.mod_pos_bound. lia. }
      rewrite Hlow, Hbit, Hq in Hs.
      pose proof (Z.mod_pos_bound m (2 ^ Z.of_nat k) ltac:(lia)) as Hb1.
      assert (0 < 2 ^ Z.of_nat k) by lia.
      destruct (Z.testbit m (Z.of_nat k)); cbn [orb Z.b2z] in *.
      * symmetry. apply negb_true_iff, Z.eqb_neq. lia.
      * replace (m mod 2 ^ Z.of_nat (S k)) with (m mod 2 ^ Z.of_nat k) by lia.
        reflexivity.
Qed.

Lemma rne_spec (m : Z) (k : nat) :
  rne m k
  = m / 2 ^ (Z.of_nat k + 1)
    + (if Z.testbit m (Z.of_nat k)
       then if m mod 2 ^ Z.of_nat k =? 0
            then if Z.even (m / 2 ^ (Z.of_nat k + 1)) then 0 else 1
            else 1
       else 0).
Proof.
  unfold rne, shifted. cbn [shr_m loc_of_shr_record].
  destruct (Z.testbit m (Z.of_nat k)), (m mod 2 ^ Z.of_nat k =? 0);
    cbn [negb round_nearest_even]; try lia.
  destruct (Z.even _); lia.
Qed.

Lemma rne_mono (m m' : Z) (k : nat) :
  0 <= m <= m' -> rne m k <= rne m' k.
Proof.
  intros Hm. rewrite !rne_spec.
  pose proof (split_bit m (Z.of_nat k) ltac:(lia)) as Hs.
  pose proof (split_bit m' (Z.of_nat k) ltac:(lia)) as Hs'.
  pose proof (Z.mod_pos_bound m (2 ^ Z.of_nat k) ltac:(lia)) as Hl.
  pose proof (Z.mod_pos_bound m' (2 ^ Z.of_nat k) ltac:(lia)) as Hl'.
  assert (Hq : m / 2 ^ (Z.of_nat k + 1) <= m' / 2 ^ (Z.of_nat k + 1))
    by (apply Z.div_le_mono; lia).
  assert (Hp : 0 < 2 ^ Z.of_nat k) by lia.
  rewrite Z.pow_add_r in * by lia. change (2 ^ 1) with 2 in *.
  generalize dependent (m / (2 ^ Z.of_nat k * 2)).
  generalize dependent (m' / (2 ^ Z.of_nat k * 2)).
  generalize dependent (m mod 2 ^ Z.of_nat k).
  generalize dependent (m' mod 2 ^ Z.of_nat k).
  generalize dependent (2 ^ Z.of_nat k).
  intros h Hp l' Hl' l Hl q' Hs' q Hs Hq.
  destruct (Z.eq_dec q q') as [<-|Hne].
  - destruct (Z.testbit m (Z.of_nat k)), (Z.testbit m' (Z.of_nat k));
      cbn [Z.b2z] in *;
      destruct (Z.eqb_spec l 0), (Z.eqb_spec l' 0);
      destruct (Z.even q); lia.
  - destruct (Z.testbit m (Z.of_nat k)), (Z.testbit m' (Z.of_nat k));
      destruct (l =? 0), (l' =? 0), (Z.even q), (Z.even q'); lia.
Qed.

Lemma rne_bounds (m : Z) (k : nat) :
  0 <= m ->
  m - 2 ^ Z.of_nat k <= 2 ^ (Z.of_nat k + 1) * rne m k <= m + 2 ^ Z.of_nat k.
Proof.
  intros Hm. rewrite rne_spec.
  pose proof (split_bit m (Z.of_nat k) ltac:(lia)) as Hs.
  pose proof (Z.mod_pos_bound m (2 ^ Z.of_nat k) ltac:(lia)) as Hl.
  assert (Hp : 0 < 2 ^ Z.of_nat k) by lia.
  rewrite Z.pow_add_r in * by lia. change (2 ^ 1) with 2 in *.
  generalize dependent (m / (2 ^ Z.of_nat k * 2)).
  generalize dependent (m mod 2 ^ Z.of_nat k).
  generalize dependent (2 ^ Z.of_nat k).
  intros h Hp l Hl q Hs.
  destruct (Z.testbit m (Z.of_nat k)); cbn [Z.b2z] in *;
    destruct (Z.eqb_spec l 0); destruct (Z.even q); lia.
Qed.

Lemma rne_exact (q : Z) (k : nat) :
  0 <= q -> rne (q * 2 ^ (Z.of_nat k + 1)) k = q.
Proof.
  intros Hq.
  pose proof (rne_bounds (q * 2 ^ (Z.of_nat k + 1)) k ltac:(lia)) as Hb.
  rewrite Z.pow_add_r in * by lia. change (2 ^ 1) with 2 in *.
  assert (Hp : 0 < 2 ^ Z.of_nat k) by lia.
  generalize dependent (2 ^ Z.of_nat k). intros h. generalize (rne (q * (h * 2)) k).
  intros r Hb Hp. nia.
Qed.

(** ** Digits *)

Lemma digits2_pos_log2 (p : positive) :
  Z.pos (digits2_pos p) = Z.log2 (Z.pos p) + 1.
Proof.
  assert (Hsize : forall q, digits2_pos q = Pos.size q).
  { induction q as [q IH|q IH|]; cbn [digits2_pos Pos.size]; congruence. }
  destruct p as [p|p|]; cbn [digits2_pos Z.log2]; rewrite ?Hsize; lia.
Qed.

Lemma digits2_pos_unique (p : positive) (d : Z) :
  2 ^ (d - 1) <= Z.pos p < 2 ^ d -> Z.pos (digits2_pos p) = d.
Proof.
  intros Hp. rewrite digits2_pos_log2.
  assert (Hd : 0 < d).
  { destruct (Z.lt_ge_cases 0 d) as [H|H]; [exact H|].
    destruct (Z.eq_dec d 0) as [->|Hn].
    - cbn in Hp. lia.
    - rewrite (Z.pow_neg_r 2 d) in Hp by lia. lia. }
  rewrite (Z.log2_unique (Z.pos p) (d - 1)); [lia|lia|].
  replace (Z.succ (d - 1)) with d by lia. exact Hp.
Qed.

(** ** [binary_round_aux] on a positive mantissa, away from the subnormal and
    overflow ranges *)

Lemma fexp_normal (d e : Z) :
  emin64 <= d + e - 53 -> fexp prec emax (d + e) = d + e - 53.
Proof. unfold fexp, SpecFloat.emin, prec, emax, emin64. lia. Qed.

Lemma shr_fexp_exact (m : positive) (e : Z) :
  Z.pos (digits2_pos m) = 53 -> emin64 <= e ->
  shr_fexp prec emax (Z.pos m) e loc_Exact
  = (Build_shr_record (Z.pos m) false false, e).
Proof.
  intros Hd He. unfold shr_fexp. cbn [Zdigits2]. rewrite Hd.
  rewrite fexp_normal by lia.
  replace (53 + e - 53 - e) with 0 by lia. reflexivity.
Qed.

Lemma shr_fexp_shift (m : positive) (e : Z) (k : nat) :
  Z.pos (digits2_pos m) = 53 + Z.of_nat k + 1 -> emin64 <= e + Z.of_nat k + 1 ->
  shr_fexp prec emax (Z.pos m) e loc_Exact
  = (shifted (Z.pos m) k, e + Z.of_nat k + 1).
Proof.
  intros Hd He. unfold shr_fexp. cbn [Zdigits2]. rewrite Hd.
  rewrite fexp_normal by lia.
  replace (53 + Z.of_nat k + 1 + e - 53 - e) with (Z.pos (Pos.of_succ_nat k))
    by lia.
  cbn [shr_record_of_loc shr].
  rewrite iter_pos_nat, SuccNat2Pos.id_succ, iter_shr_1 by lia.
  f_equal. lia.
Qed.

Lemma rne_range (m : positive) (k : nat) :
  Z.pos (digits2_pos m) = 53 + Z.of_nat k + 1 ->
  2 ^ 52 <= rne (Z.pos m) k <= 2 ^ 53.
Proof.
  intros Hd. rewrite digits2_pos_log2 in Hd.
  pose proof (Z.log2_spec (Z.pos m) ltac:(lia)) as Hlog.
  replace (Z.log2 (Z.pos m)) with (52 + (Z.of_nat k + 1)) in Hlog by lia.
  replace (Z.succ (52 + (Z.of_nat k + 1))) with (53 + (Z.of_nat k + 1)) in Hlog by lia.
  rewrite (Z.pow_add_r 2 52), (Z.pow_add_r 2 53) in Hlog by lia.
  assert (Hp : 0 < 2 ^ (Z.of_nat k + 1)) by lia.
  split.
  - etransitivity; [|apply (rne_mono (2 ^ 52 * 2 ^ (Z.of_nat k + 1))); lia].
    rewrite rne_exact; lia.
  - etransitivity; [apply (rne_mono _ (2 ^ 53 * 2 ^ (Z.of_nat k + 1))); lia|].
    rewrite rne_exact; lia.
Qed.

Lemma binary_round_aux_normal (m : positive) (e : Z) (k : nat) :
  Z.pos (digits2_pos m) = 53 + Z.of_nat k + 1 ->
  emin64 <= e + Z.of_nat k + 1 -> e + Z.of_nat k + 2 <= 971 ->
  binary_round_aux prec emax false (Z.pos m) e loc_Exact = rounded m e k.
Proof.
  intros Hd Hlo Hhi. unfold binary_round_aux, rounded.
  rewrite (shr_fexp_shift m e k Hd Hlo).
  fold (rne (Z.pos m) k).
  pose proof (rne_range m k Hd) as Hr.
  destruct (Z.eqb_spec (rne (Z.pos m) k) (2 ^ 53)) as [E|E].
  - rewrite E. change (2 ^ 53) with (Z.pos (2 ^ 53)%positive).
    unfold shr_fexp. cbn [Zdigits2].
    change (Z.pos (digits2_pos (2 ^ 53))) with 54.
    rewrite fexp_normal by lia.
    replace (54 + (e + Z.of_nat k + 1) - 53 - (e + Z.of_nat k + 1)) with 1 by lia.
    cbn [shr_record_of_loc shr SpecFloat.iter_pos shr_1 shr_m].
    replace (e + Z.of_nat k + 1 + 1) with (e + Z.of_nat k + 2) by lia.
    destruct (Z.leb_spec (e + Z.of_nat k + 2) (emax - prec)) as [_|Hbad];
      [reflexivity|unfold emax, prec in Hbad; lia].
  - destruct (rne (Z.pos m) k) as [|q|q] eqn:Eq; try lia.
    rewrite shr_fexp_exact; [|apply digits2_pos_unique; lia|lia].
    cbn [shr_m].
    destruct (Z.leb_spec (e + Z.of_nat k + 1) (emax - prec)) as [_|Hbad];
      [reflexivity|unfold emax, prec in Hbad; lia].
Qed.

Lemma binary_round_aux_exact (m : positive) (e : Z) :
  Z.pos (digits2_pos m) = 53 -> emin64 <= e <= 971 ->
  binary_round_aux prec emax false (Z.pos m) e loc_Exact = S754_finite false m e.
Proof.
  intros Hd He. unfold binary_round_aux.
  rewrite shr_fexp_exact by lia. cbn [shr_m loc_of_shr_record round_nearest_even].
  rewrite shr_fexp_exact by lia. cbn [shr_m].
  destruct (Z.leb_spec e (emax - prec)) as [_|Hbad];
    [reflexivity|unfold emax, prec in Hbad; lia].
Qed.

(** ** Comparing and multiplying positive normal numbers *)

Lemma SFleb_finite (m m' : positive) (e e' : Z) :
  SFleb (S754_finite false m e) (S754_finite false m' e') = true
  <-> e < e' \/ (e = e' /\ Z.pos m <= Z.pos m').
Proof.
  unfold SFleb, SFcompare. change (Pos.compare_cont Eq) with Pos.compare.
  destruct (Z.compare_spec e e'); [destruct (Pos.compare_spec m m')|..];
    split; intros Hx; try reflexivity; try discriminate; lia.
Qed.

Lemma SFltb_finite (m m' : positive) (e e' : Z) :
  SFltb (S754_finite false m e) (S754_finite false m' e') = true
  <-> e < e' \/ (e = e' /\ Z.pos m < Z.pos m').
Proof.
  unfold SFltb, SFcompare. change (Pos.compare_cont Eq) with Pos.compare.
  destruct (Z.compare_spec e e'); [destruct (Pos.compare_spec m m')|..];
    split; intros Hx; try reflexivity; try discriminate; lia.
Qed.

Lemma SFeqb_finite (m m' : positive) (e e' : Z) :
  SFeqb (S754_finite false m e) (S754_finite false m' e') = true
  <-> e = e' /\ m = m'.
Proof.
  unfold SFeqb, SFcompare. change (Pos.compare_cont Eq) with Pos.compare.
  destruct (Z.compare_spec e e'); [destruct (Pos.compare_spec m m')|..];
    split; intros Hx; try reflexivity; try discriminate; try lia.
Qed.

Lemma rounded_normal (m : positive) (e : Z) (k : nat) :
  Z.pos (digits2_pos m) = 53 + Z.of_nat k + 1 ->
  exists m' e', normal (rounded m e k) m' e'
    /\ e + Z.of_nat k + 1 <= e' <= e + Z.of_nat k + 2.
Proof.
  intros Hd. pose proof (rne_range m k Hd) as Hr. unfold rounded.
  destruct (Z.eqb_spec (rne (Z.pos m) k) (2 ^ 53)) as [E|E].
  - eexists _, _. split; [split; [reflexivity|]|]; [|lia].
    change (Z.pos (2 ^ 52)) with (2 ^ 52). lia.
  - eexists _, _. split; [split; [reflexivity|]|]; [|lia].
    rewrite Z2Pos.id by lia. lia.
Qed.

Lemma rounded_mono (m m' : positive) (e : Z) (k : nat) :
  Z.pos (digits2_pos m) = 53 + Z.of_nat k + 1 ->
  Z.pos (digits2_pos m') = 53 + Z.of_nat k + 1 ->
  Z.pos m <= Z.pos m' ->
  SFleb (rounded m e k) (rounded m' e k) = true.
Proof.
  intros Hd Hd' Hm.
  pose proof (rne_range m k Hd) as Hr. pose proof (rne_range m' k Hd') as Hr'.
  pose proof (rne_mono (Z.pos m) (Z.pos m') k ltac:(lia)) as Hmono.
  unfold rounded.
  destruct (Z.eqb_spec (rne (Z.pos m) k) (2 ^ 53)) as [E|E],
           (Z.eqb_spec (rne (Z.pos m') k) (2 ^ 53)) as [E'|E'];
    apply SFleb_finite; rewrite ?Z2Pos.id by lia; lia.
Qed.

Lemma rounded_step (m m' : positive) (e : Z) (k : nat) :
  Z.pos (digits2_pos m) = 53 + Z.of_nat k + 1 ->
  Z.pos (digits2_pos m') = 53 + Z.of_nat (S k) + 1 ->
  SFleb (rounded m e k) (rounded m' e (S k)) = true.
Proof.
  intros Hd Hd'.
  pose proof (rne_range m k Hd) as Hr. pose proof (rne_range m' (S k) Hd') as Hr'.
  unfold rounded.
  destruct (Z.eqb_spec (rne (Z.pos m) k) (2 ^ 53)) as [E|E],
           (Z.eqb_spec (rne (Z.pos m') (S k)) (2 ^ 53)) as [E'|E'];
    apply SFleb_finite; rewrite ?Z2Pos.id by lia;
    change (Z.pos (2 ^ 52)) with (2 ^ 52); lia.
Qed.

Lemma product_digits (mx my : positive) :
  2 ^ 52 <= Z.pos mx < 2 ^ 53 -> 2 ^ 52 <= Z.pos my < 2 ^ 53 ->
  (Z.pos (mx * my) < 2 ^ 105 /\ Z.pos (digits2_pos (mx * my)) = 53 + Z.of_nat 51 + 1)
  \/ (2 ^ 105 <= Z.pos (mx * my) /\ Z.pos (digits2_pos (mx * my)) = 53 + Z.of_nat 52 + 1).
Proof.
  intros Hx Hy. rewrite Pos2Z.inj_mul.
  destruct (Z.lt_ge_cases (Z.pos mx * Z.pos my) (2 ^ 105)) as [Hlt|Hge].
  - left. split; [exact Hlt|].
    apply digits2_pos_unique. rewrite Pos2Z.inj_mul.
    change (53 + Z.of_nat 51 + 1) with 105. change (105 - 1) with 104. nia.
  - right. split; [exact Hge|].
    apply digits2_pos_unique. rewrite Pos2Z.inj_mul.
    change (53 + Z.of_nat 52 + 1) with 106. change (106 - 1) with 105. nia.
Qed.

(** The product of two positive normal numbers, away from underflow and
    overflow. *)
Lemma SFmul_normal (mx my : positive) (ex ey : Z) :
  2 ^ 52 <= Z.pos mx < 2 ^ 53 -> 2 ^ 52 <= Z.pos my < 2 ^ 53 ->
  emin64 <= ex + ey + 52 -> ex + ey + 54 <= 971 ->
  SFmul prec emax (S754_finite false mx ex) (S754_finite false my ey)
  = if Z.pos (mx * my) <? 2 ^ 105
    then rounded (mx * my) (ex + ey) 51
    else rounded (mx * my) (ex + ey) 52.
Proof.
  intros Hx Hy Hlo Hhi. cbn [SFmul xorb].
  destruct (product_digits mx my Hx Hy) as [[Hlt Hd]|[Hge Hd]].
  - destruct (Z.ltb_spec (Z.pos (mx * my)) (2 ^ 105)); [|lia].
    apply binary_round_aux_normal; [exact Hd|cbn [Z.of_nat]; lia..].
  - destruct (Z.ltb_spec (Z.pos (mx * my)) (2 ^ 105)); [lia|].
    apply binary_round_aux_normal; [exact Hd|cbn [Z.of_nat]; lia..].
Qed.

Lemma SFmul_normal_normal (x y : spec_float) (mx my : positive) (ex ey : Z) :
  normal x mx ex -> normal y my ey ->
  emin64 <= ex + ey + 52 -> ex + ey + 54 <= 971 ->
  exists m e, normal (SFmul prec emax x y) m e
    /\ ex + ey + 52 <= e <= ex + ey + 54.
Proof.
  intros [-> Hx] [-> Hy] Hlo Hhi. rewrite SFmul_normal by assumption.
  destruct (product_digits mx my Hx Hy) as [[Hlt Hd]|[Hge Hd]].
  - destruct (Z.ltb_spec (Z.pos (mx * my)) (2 ^ 105)); [|lia].
    destruct (rounded_normal _ (ex + ey) _ Hd) as (m & e & Hn & He).
    exists m, e. split; [exact Hn|]. cbn [Z.of_nat] in He. lia.
  - destruct (Z.ltb_spec (Z.pos (mx * my)) (2 ^ 105)); [lia|].
    destruct (rounded_normal _ (ex + ey) _ Hd) as (m & e & Hn & He).
    exists m, e. split; [exact Hn|]. cbn [Z.of_nat] in He. lia.
Qed.

(** Multiplying by a larger factor of the same exponent gives no less. *)
Lemma SFmul_mono (ma mf mf' : positive) (ea ef : Z) :
  2 ^ 52 <= Z.pos ma < 2 ^ 53 ->
  2 ^ 52 <= Z.pos mf < 2 ^ 53 -> 2 ^ 52 <= Z.pos mf' < 2 ^ 53 ->
  Z.pos mf <= Z.pos mf' ->
  emin64 <= ea + ef + 52 -> ea + ef + 54 <= 971 ->
  SFleb (SFmul prec emax (S754_finite false ma ea) (S754_finite false mf ef))
        (SFmul prec emax (S754_finite false ma ea) (S754_finite false mf' ef))
  = true.
Proof.
  intros Ha Hf Hf' Hle Hlo Hhi. rewrite !SFmul_normal by assumption.
  assert (Hp : Z.pos (ma * mf) <= Z.pos (ma * mf'))
    by (rewrite !Pos2Z.inj_mul; nia).
  destruct (product_digits ma mf Ha Hf) as [[Hlt Hd]|[Hge Hd]],
           (product_digits ma mf' Ha Hf') as [[Hlt' Hd']|[Hge' Hd']].
  - destruct (Z.ltb_spec (Z.pos (ma * mf)) (2 ^ 105)); [|lia].
    destruct (Z.ltb_spec (Z.pos (ma * mf')) (2 ^ 105)); [|lia].
    apply rounded_mono; assumption.
  - destruct (Z.ltb_spec (Z.pos (ma * mf)) (2 ^ 105)); [|lia].
    destruct (Z.ltb_spec (Z.pos (ma * mf')) (2 ^ 105)); [lia|].
    apply rounded_step; assumption.
  - lia.
  - destruct (Z.ltb_spec (Z.pos (ma * mf)) (2 ^ 105)); [lia|].
    destruct (Z.ltb_spec (Z.pos (ma * mf')) (2 ^ 105)); [lia|].
    apply rounded_mono; assumption.
Qed.

(** Multiplying by one gives the number back. *)
Lemma SFmul_one (ma : positive) (ea : Z) :
  2 ^ 52 <= Z.pos ma < 2 ^ 53 -> emin64 <= ea <= 960 ->
  SFmul prec emax (S754_finite false ma ea) (S754_finite false (2 ^ 52) (-52))
  = S754_finite false ma ea.
Proof.
  intros Ha He. rewrite SFmul_normal;
    [|assumption|change (Z.pos (2 ^ 52)) with (2 ^ 52); lia|unfold emin64 in *; lia..].
  assert (Hp : Z.pos (ma * 2 ^ 52) = Z.pos ma * 2 ^ (Z.of_nat 51 + 1))
    by (rewrite Pos2Z.inj_mul; reflexivity).
  destruct (Z.ltb_spec (Z.pos (ma * 2 ^ 52)) (2 ^ 105)) as [_|Hbad];
    [|rewrite Hp in Hbad; change (2 ^ (Z.of_nat 51 + 1)) with (2 ^ 52) in Hbad; lia].
  unfold rounded. rewrite Hp, rne_exact by lia.
  destruct (Z.eqb_spec (Z.pos ma) (2 ^ 53)); [lia|].
  rewrite Pos2Z.id. f_equal. cbn [Z.of_nat]. lia.
Qed.

(** Multiplying by a factor below one by at least two units in the last
    place gives strictly less. *)
Lemma SFmul_shrinks (ma mf : positive) (ea : Z) :
  2 ^ 52 <= Z.pos ma < 2 ^ 53 -> 2 ^ 52 <= Z.pos mf <= 2 ^ 53 - 2 ->
  emin64 <= ea - 1 -> ea + 1 <= 971 ->
  SFltb (SFmul prec emax (S754_finite false ma ea) (S754_finite false mf (-53)))
        (S754_finite false ma ea) = true.
Proof.
  intros Ha Hf Hlo Hhi. rewrite SFmul_normal by (unfold emin64 in *; lia).
  assert (Hp : Z.pos (ma * mf) = Z.pos ma * Z.pos mf) by apply Pos2Z.inj_mul.
  assert (Hprod : Z.pos ma * Z.pos mf <= Z.pos ma * (2 ^ 53 - 2))
    by (apply Z.mul_le_mono_nonneg_l; lia).
  rewrite Z.mul_sub_distr_l in Hprod.
  destruct (product_digits ma mf Ha ltac:(lia)) as [[Hlt Hd]|[Hge Hd]].
  - destruct (Z.ltb_spec (Z.pos (ma * mf)) (2 ^ 105)); [|lia].
    pose proof (rne_range _ _ Hd) as Hr.
    pose proof (rne_bounds (Z.pos (ma * mf)) 51 ltac:(lia)) as Hb.
    change (2 ^ (Z.of_nat 51 + 1)) with (2 ^ 52) in Hb.
    change (2 ^ Z.of_nat 51) with (2 ^ 51) in Hb.
    unfold rounded.
    destruct (Z.eqb_spec (rne (Z.pos (ma * mf)) 51) (2 ^ 53)) as [E|E];
      apply SFltb_finite; cbn [Z.of_nat]; [|lia].
    right. split; [lia|]. change (Z.pos (2 ^ 52)) with (2 ^ 52).
    rewrite E in Hb. lia.
  - destruct (Z.ltb_spec (Z.pos (ma * mf)) (2 ^ 105)); [lia|].
    pose proof (rne_range _ _ Hd) as Hr.
    pose proof (rne_bounds (Z.pos (ma * mf)) 52 ltac:(lia)) as Hb.
    change (2 ^ (Z.of_nat 52 + 1)) with (2 ^ 53) in Hb.
    change (2 ^ Z.of_nat 52) with (2 ^ 52) in Hb.
    assert (Hq : rne (Z.pos (ma * mf)) 52 < Z.pos ma) by lia.
    unfold rounded.
    destruct (Z.eqb_spec (rne (Z.pos (ma * mf)) 52) (2 ^ 53)) as [E|E]; [lia|].
    apply SFltb_finite; cbn [Z.of_nat]. right. split; [lia|].
    rewrite Z2Pos.id by lia. exact Hq.
Qed.

(** ** Integers as floats *)

Lemma digits_iter_xO (p dd : positive) :
  digits2_pos (Pos.iter xO p dd) = (digits2_pos p + dd)%positive.
Proof.
  induction dd as [|dd IH] using Pos.peano_ind.
  - cbn [Pos.iter digits2_pos]. lia.
  - rewrite Pos.iter_succ. cbn [digits2_pos]. rewrite IH. lia.
Qed.

Lemma binary_normalize_normal (p : positive) :
  Z.pos p < 2 ^ 53 ->
  exists m e, normal (binary_normalize prec emax (Z.pos p) 0 false) m e
    /\ -52 <= e <= 0.
Proof.
  intros Hp.
  assert (Hd : 1 <= Z.pos (digits2_pos p) <= 53).
  { split; [lia|]. rewrite digits2_pos_log2.
    assert (Z.log2 (Z.pos p) < 53) by (apply Z.log2_lt_pow2; lia). lia. }
  assert (Hnorm : forall m, Z.pos (digits2_pos m) = 53 ->
                    2 ^ 52 <= Z.pos m < 2 ^ 53).
  { intros m Hm. rewrite digits2_pos_log2 in Hm.
    pose proof (Z.log2_spec (Z.pos m) ltac:(lia)) as Hl.
    replace (Z.log2 (Z.pos m)) with 52 in Hl by lia. exact Hl. }
  unfold binary_normalize, binary_round, shl_align.
  rewrite (fexp_normal (Z.pos (digits2_pos p)) 0) by (unfold emin64; lia).
  destruct (Z.pos (digits2_pos p) + 0 - 53 - 0) as [|dd|dd] eqn:E; try lia.
  - rewrite binary_round_aux_exact by (unfold emin64; lia).
    eexists _, _. split; [split; [reflexivity|]|lia].
    apply (Hnorm p). lia.
  - assert (Hdd : Z.pos (digits2_pos (Pos.iter xO p dd)) = 53)
      by (rewrite digits_iter_xO; lia).
    rewrite binary_round_aux_exact by (unfold emin64; lia).
    eexists _, _. split; [split; [reflexivity|]|lia].
    apply (Hnorm _ Hdd).
Qed.

Lemma float_of_int_normal (size : Z) :
  1 <= size < 2 ^ 53 ->
  exists m e, normal (Prim2SF (Py.float_of_int size)) m e /\ -52 <= e <= 0.
Proof.
  intros Hs. unfold Py.float_of_int.
  destruct (Z.ltb_spec size 0) as [Hneg|_]; [lia|].
  rewrite of_uint63_spec, Uint63.of_Z_spec.
  rewrite Z.mod_small
    by (split; [lia|]; apply Z.lt_trans with (2 ^ 53); [lia|reflexivity]).
  destruct size as [|p|p]; try lia.
  apply binary_normalize_normal. lia.
Qed.

(** [size * 0.15] is a positive normal number for every positive size. *)
Lemma full_thickness_normal (size : Z) :
  1 <= size < 2 ^ 53 ->
  exists m e, normal (Prim2SF (full_thickness size)) m e /\ -55 <= e <= -1.
Proof.
  intros Hs. destruct (float_of_int_normal size Hs) as (ms & es & Hn & He).
  unfold full_thickness. rewrite mul_spec.
  destruct (SFmul_normal_normal (Prim2SF (Py.float_of_int size)) (Prim2SF 0.15)
              ms 5404319552844595 es (-55) Hn) as (m & e & Hm & Hr).
  - split; [reflexivity|]. lia.
  - unfold emin64. lia.
  - lia.
  - exists m, e. split; [exact Hm|lia].
Qed.

(** ** The taper factors of the samples *)

Lemma taper_table : forallb taper_check (Py.range steps) = true.
Proof. vm_compute. reflexivity. Qed.

Lemma taper_form (i : Z) :
  0 <= i < steps ->
  exists m, Prim2SF (taper (sample_t i)) = S754_finite false m (-53)
    /\ Z.pos m = taper_mantissa i /\ 3 * 2 ^ 51 <= Z.pos m <= 2 ^ 53 - 2.
Proof.
  intros Hi. pose proof (range_forallb _ _ taper_table i Hi) as H.
  unfold taper_check in H. rewrite !andb_true_iff in H.
  destruct H as [[[Hlo Hhi] _] _].
  apply Z.leb_le in Hlo, Hhi. revert Hlo Hhi. unfold taper_mantissa.
  destruct (Prim2SF (taper (sample_t i))) as [| | |[] m e]; try lia.
  destruct (Z.eqb_spec e (-53)) as [->|]; [|lia].
  intros Hlo Hhi. exists m. split; [reflexivity|]. split; [reflexivity|lia].
Qed.

Lemma taper_rising (n : nat) (i : Z) :
  0 <= i -> i + Z.of_nat n <= 99 ->
  taper_mantissa i <= taper_mantissa (i + Z.of_nat n).
Proof.
  intros Hi. induction n as [|n IH]; intros Hn.
  - replace (i + Z.of_nat 0) with i by lia. lia.
  - etransitivity; [apply IH; lia|].
    pose proof (range_forallb _ _ taper_table (i + Z.of_nat n)
                  ltac:(unfold steps; lia)) as H.
    unfold taper_check in H. rewrite !andb_true_iff in H.
    destruct H as [[_ H] _].
    destruct (Z.ltb_spec (i + Z.of_nat n) 99); [|lia].
    apply Z.leb_le in H.
    replace (i + Z.of_nat (S n)) with (i + Z.of_nat n + 1) by lia. exact H.
Qed.

Lemma taper_falling (n : nat) (i : Z) :
  100 <= i -> i + Z.of_nat n < steps ->
  taper_mantissa (i + Z.of_nat n) <= taper_mantissa i.
Proof.
  intros Hi. induction n as [|n IH]; intros Hn.
  - replace (i + Z.of_nat 0) with i by lia. lia.
  - etransitivity; [|apply IH; lia].
    pose proof (range_forallb _ _ taper_table (i + Z.of_nat n)
                  ltac:(unfold steps in *; lia)) as H.
    unfold taper_check in H. rewrite !andb_true_iff in H.
    destruct H as [_ H]. unfold steps in Hn.
    destruct (Z.leb_spec 100 (i + Z.of_nat n)); [|lia].
    destruct (Z.ltb_spec (i + Z.of_nat n) 199); [|lia].
    apply Z.leb_le in H.
    replace (i + Z.of_nat (S n)) with (i + Z.of_nat n + 1) by lia. exact H.
Qed.

(** ** The thickness, for every positive size *)

Lemma thickness_mono (size i j : Z) :
  1 <= size < 2 ^ 53 ->
  0 <= i < steps -> 0 <= j < steps ->
  taper_mantissa i <= taper_mantissa j ->
  (thickness size (sample_t i) <=? thickness size (sample_t j))%float = true.
Proof.
  intros size_range Hi Hj Hle.
  destruct (full_thickness_normal size size_range) as (ma & ea & [Ha Hma] & Hea).
  destruct (taper_form i Hi) as (mi & Hfi & Hmi & Hri).
  destruct (taper_form j Hj) as (mj & Hfj & Hmj & Hrj).
  unfold thickness. rewrite FloatAxioms.leb_spec, !mul_spec, Ha, Hfi, Hfj.
  apply SFmul_mono; unfold emin64; lia.
Qed.

Lemma thickness_below_full (size i : Z) :
  1 <= size < 2 ^ 53 ->
  0 <= i < steps ->
  (thickness size (sample_t i) <? full_thickness size)%float = true.
Proof.
  intros size_range Hi.
  destruct (full_thickness_normal size size_range) as (ma & ea & [Ha Hma] & Hea).
  destruct (taper_form i Hi) as (mi & Hfi & Hmi & Hri).
  unfold thickness. rewrite FloatAxioms.ltb_spec, mul_spec, Ha, Hfi.
  apply SFmul_shrinks; unfold emin64; lia.
Qed.

Lemma thickness_at_midpoint (size : Z) :
  1 <= size < 2 ^ 53 ->
  (thickness size 0.5 =? full_thickness size)%float = true.
Proof.
  intros size_range.
  destruct (full_thickness_normal size size_range) as (ma & ea & [Ha Hma] & Hea).
  unfold thickness. change (taper 0.5) with 1%float.
  rewrite FloatAxioms.eqb_spec, mul_spec, Ha.
  change (Prim2SF 1) with (S754_finite false (2 ^ 52) (-52)).
  rewrite SFmul_one by (unfold emin64; lia).
  apply SFeqb_finite. split; reflexivity.
Qed.

Lemma thickness_above_three_quarters (size i : Z) :
  1 <= size < 2 ^ 53 ->
  0 <= i < steps ->
  (full_thickness size * 0.75 <=? thickness size (sample_t i))%float = true.
Proof.
  intros size_range Hi.
  destruct (full_thickness_normal size size_range) as (ma & ea & [Ha Hma] & Hea).
  destruct (taper_form i Hi) as (mi & Hfi & Hmi & Hri).
  unfold thickness. rewrite FloatAxioms.leb_spec, !mul_spec, Ha, Hfi.
  change (Prim2SF 0.75) with (S754_finite false (3 * 2 ^ 51) (-53)).
  apply SFmul_mono; unfold emin64;
    change (Z.pos (3 * 2 ^ 51)) with (3 * 2 ^ 51); lia.
Qed.

Lemma thickness_at_end (size i : Z) :
  1 <= size < 2 ^ 53 ->
  taper (sample_t i) = 0.75%float ->
  (thickness size (sample_t i) =? full_thickness size * 0.75)%float = true.
Proof.
  intros size_range Hend.
  destruct (full_thickness_normal size size_range) as (ma & ea & [Ha Hma] & Hea).
  unfold thickness. rewrite Hend, FloatAxioms.eqb_spec, mul_spec, Ha.
  change (Prim2SF 0.75) with (S754_finite false (3 * 2 ^ 51) (-53)).
  unfold SF64mul.
  destruct (SFmul_normal_normal (S754_finite false ma ea)
              (S754_finite false (3 * 2 ^ 51) (-53)) ma (3 * 2 ^ 51) ea (-53))
    as (m & e & [-> _] & _).
  - split; [reflexivity|exact Hma].
  - split; [reflexivity|]. change (Z.pos (3 * 2 ^ 51)) with (3 * 2 ^ 51). lia.
  - unfold emin64. lia.
  - lia.
  - apply SFeqb_finite. split; reflexivity.
Qed.


(** ** The thickness checks, for every size that converts exactly *)

Lemma ltb_leb (x y : float) :
  (x <? y)%float = true -> (x <=? y)%float = true.
Proof.
  rewrite FloatAxioms.ltb_spec, FloatAxioms.leb_spec. unfold SFltb, SFleb.
  destruct (SFcompare _ _) as [[]|]; congruence.
Qed.

Lemma zero_size_table : size_check 0 = true.
Proof. vm_compute. reflexivity. Qed.

Lemma thickness_checked (size i : Z) :
  0 <= size < 2 ^ 53 -> 0 <= i < steps -> thickness_check size i = true.
Proof.
  intros Hs Hi. destruct (Z.eq_dec size 0) as [->|Hpos].
  - pose proof zero_size_table as H. unfold size_check in H.
    rewrite !andb_true_iff in H. destruct H as [[[H _] _] _].
    apply (range_forallb _ _ H), Hi.
  - assert (Hs1 : 1 <= size < 2 ^ 53) by lia.
    pose proof (range_forallb _ _ taper_table i Hi) as Ht.
    unfold taper_check in Ht. rewrite !andb_true_iff in Ht.
    destruct Ht as [[_ Hup] Hdown].
    unfold thickness_check. rewrite !andb_true_iff. repeat split.
    + apply ltb_leb, thickness_below_full; assumption.
    + apply thickness_above_three_quarters; assumption.
    + destruct (1 <=? size); [|reflexivity].
      apply thickness_below_full; assumption.
    + destruct (Z.ltb_spec i 99); [|reflexivity].
      apply thickness_mono; [assumption|assumption|unfold steps; lia|].
      apply Z.leb_le, Hup.
    + destruct (Z.leb_spec 100 i), (Z.ltb_spec i 199); try reflexivity.
      cbn [andb] in *.
      apply thickness_mono; [assumption|unfold steps; lia|assumption|].
      apply Z.leb_le, Hdown.
Qed.

Lemma size_checked (size : Z) :
  0 <= size < 2 ^ 53 -> size_check size = true.
Proof.
  intros Hs. destruct (Z.eq_dec size 0) as [->|Hpos];
    [exact zero_size_table|].
  assert (Hs1 : 1 <= size < 2 ^ 53) by lia.
  unfold size_check. rewrite !andb_true_iff. repeat split.
  - apply forallb_forall. intros i Hin. apply thickness_checked; [exact Hs|].
    unfold Py.range in Hin. apply in_map_iff in Hin as (n & <- & Hn).
    apply in_seq in Hn. unfold steps in *. lia.
  - apply thickness_at_midpoint, Hs1.
  - apply thickness_at_end; [exact Hs1|vm_compute; reflexivity].
  - apply thickness_at_end; [exact Hs1|vm_compute; reflexivity].
Qed.

(** Up to the midpoint every sample is at least as thick as any earlier one. *)
Lemma thickness_rising (size : Z) (n : nat) (i : Z) :
  0 ≤ size < 2 ^ 53 → 0 ≤ i → i + Z.of_nat n ≤ 99 →
  (thickness size (sample_t i)
   <=? thickness size (sample_t (i + Z.of_nat n)))%float = true.
Proof.
  intros Hs Hi. induction n as [|n IH]; intros Hn.
  - replace (i + Z.of_nat 0) with i by lia.
    pose proof (thickness_checked size i Hs ltac:(unfold steps; lia)) as H.
    unfold thickness_check in H. rewrite !andb_true_iff in H.
    destruct H as [[[[H _] _] _] _]. exact (leb_refl_l _ _ H).
  - eapply leb_trans; [apply IH; lia|].
    pose proof (thickness_checked size (i + Z.of_nat n) Hs
                  ltac:(unfold steps; lia)) as H.
    unfold thickness_check in H. rewrite !andb_true_iff in H.
    destruct H as [[_ H] _].
    destruct (i + Z.of_nat n <? 99) eqn:E; [|apply Z.ltb_ge in E; lia].
    replace (i + Z.of_nat (S n)) with (i + Z.of_nat n + 1) by lia. exact H.
Qed.

(** Past the midpoint every sample is at most as thick as any earlier one. *)
Lemma thickness_falling (size : Z) (n : nat) (i : Z) :
  0 ≤ size < 2 ^ 53 → 100 ≤ i → i + Z.of_nat n < steps →
  (thickness size (sample_t (i + Z.of_nat n))
   <=? thickness size (sample_t i))%float = true.
Proof.
  intros Hs Hi. induction n as [|n IH]; intros Hn.
  - replace (i + Z.of_nat 0) with i by lia.
    pose proof (thickness_checked size i Hs ltac:(unfold steps in *; lia)) as H.
    unfold thickness_check in H. rewrite !andb_true_iff in H.
    destruct H as [[[[H _] _] _] _]. exact (leb_refl_l _ _ H).
  - eapply leb_trans; [|apply IH; lia].
    pose proof (thickness_checked size (i + Z.of_nat n) Hs
                  ltac:(unfold steps in *; lia)) as H.
    unfold thickness_check in H. rewrite !andb_true_iff in H.
    destruct H as [_ H]. unfold steps in Hn.
    destruct (100 <=? i + Z.of_nat n) eqn:E1; [|apply Z.leb_gt in E1; lia].
    destruct (i + Z.of_nat n <? 199) eqn:E2; [|apply Z.ltb_ge in E2; lia].
    replace (i + Z.of_nat (S n)) with (i + Z.of_nat n + 1) by lia. exact H.
Qed.

(** ** The samples against [i/199] *)

Lemma nearest_table : forallb nearest_check (Py.range steps) = true.
Proof. vm_compute. reflexivity. Qed.

Lemma spacing_table : forallb spacing_check (Py.range (steps - 1)) = true.
Proof. vm_compute. reflexivity. Qed.

(** ** The binary64 numbers around a number of 53 significant bits *)

(** The value of a finite float as a fraction. *)
Lemma exact_fraction (y : float) (u : Q) :
  Py.exact y = Some u →
  ∃ (n : Z) (k : Z),
    u = n # Z.to_pos (2 ^ k) ∧ 0 ≤ k
    ∧ (n ≤ 0
       ∨ (k = 0 ∧ 1 ≤ n)
       ∨ (0 < k ∧ 1 ≤ n < 2 ^ 53)).
Proof.
  unfold Py.exact. pose proof (Prim2SF_valid y) as Hv.
  destruct (Prim2SF y) as [s| | |s m e]; try discriminate.
  - intros [= <-]. exists 0, 0. split; [reflexivity|]. split; [lia|]. left. lia.
  - assert (Hm : Z.pos m < 2 ^ 53).
    { unfold valid_binary, bounded, canonical_mantissa in Hv.
      apply andb_true_iff in Hv as [Hc _]. apply Z.eqb_eq in Hc.
      rewrite digits2_pos_log2 in Hc. unfold fexp in Hc.
      assert (Hl : Z.log2 (Z.pos m) + 1 ≤ prec) by lia.
      destruct (Z.log2_spec (Z.pos m) ltac:(lia)) as [_ Hlt].
      apply Z.lt_le_trans with (2 ^ Z.succ (Z.log2 (Z.pos m))); [exact Hlt|].
      apply Z.pow_le_mono_r; [lia|]. unfold prec in Hl. lia. }
    destruct (Z.leb_spec 0 e) as [He|He].
    + intros [= <-]. rewrite Z.shiftl_mul_pow2 by lia.
      assert (Hp : 0 < 2 ^ e) by (apply Z.pow_pos_nonneg; lia).
      destruct s.
      * exists (- (Z.pos m * 2 ^ e)), 0. split; [reflexivity|].
        split; [lia|]. left. nia.
      * exists (Z.pos m * 2 ^ e), 0. split; [reflexivity|].
        split; [lia|]. right. left. split; [reflexivity|nia].
    + intros [= <-]. rewrite Z.shiftl_1_l.
      destruct s.
      * exists (Z.neg m), (- e). split; [reflexivity|]. split; [lia|].
        left. lia.
      * exists (Z.pos m), (- e). split; [reflexivity|]. split; [lia|].
        right. right. lia.
Qed.

(** Two fractions against a third, in integers. *)
Lemma Qabs_diff_le (a n i : Z) (b d : positive) :
  (Qabs ((a # b) - (i # 199)) <= Qabs ((n # d) - (i # 199)))%Q
  ↔ Z.abs (a * 199 - i * Z.pos b) * Z.pos d
    ≤ Z.abs (n * 199 - i * Z.pos d) * Z.pos b.
Proof.
  unfold Qminus, Qplus, Qopp, Qabs, Qle.
  cbn [Qnum Qden]. rewrite !Pos2Z.inj_mul.
  replace (a * 199 + - i * Z.pos b) with (a * 199 - i * Z.pos b) by lia.
  replace (n * 199 + - i * Z.pos d) with (n * 199 - i * Z.pos d) by lia.
  split; nia.
Qed.

(** A finite float is the nearest to [i/199] once the integer form of the
    comparison holds against every fraction a binary64 number can be. *)
Lemma nearest_intro (x : float) (a : Z) (b : positive) (i : Z) :
  Py.exact x = Some (a # b) →
  (∀ n j, 0 ≤ j →
     (n ≤ 0 ∨ (j = 0 ∧ 1 ≤ n) ∨ (0 < j ∧ 1 ≤ n < 2 ^ 53)) →
     Z.abs (a * 199 - i * Z.pos b) * 2 ^ j
     ≤ Z.abs (n * 199 - i * 2 ^ j) * Z.pos b
     ∧ (Z.abs (n * 199 - i * 2 ^ j) * Z.pos b
        ≤ Z.abs (a * 199 - i * Z.pos b) * 2 ^ j →
        n * Z.pos b = a * 2 ^ j)) →
  nearest_binary64 x (i # 199).
Proof.
  intros Hx Hall. exists (a # b). split; [exact Hx|].
  intros y u Hu.
  destruct (exact_fraction y u Hu) as (n & j & -> & Hj & Hn).
  assert (HD : 0 < 2 ^ j) by (apply Z.pow_pos_nonneg; lia).
  destruct (Hall n j Hj Hn) as [Hle Heq].
  rewrite !Qabs_diff_le, !Z2Pos.id by assumption.
  split; [exact Hle|].
  intros Hge. unfold Qeq. cbn [Qnum Qden]. rewrite Z2Pos.id by assumption.
  apply Heq, Hge.
Qed.

(** Apart from [M / 2^k] itself, no binary64 number is within [1 / 2^k] of
    it, when [M] has 53 significant bits and is no power of two. *)
Lemma binary64_gap (M n k j : Z) :
  2 ^ 52 < M < 2 ^ 53 → 53 ≤ k → 0 ≤ j →
  (n ≤ 0 ∨ (j = 0 ∧ 1 ≤ n) ∨ (0 < j ∧ 1 ≤ n < 2 ^ 53)) →
  n * 2 ^ k = M * 2 ^ j ∨ 2 ^ j ≤ Z.abs (n * 2 ^ k - M * 2 ^ j).
Proof.
  intros HM Hk Hj Hn.
  assert (HP : 2 ^ 53 ≤ 2 ^ k) by (apply Z.pow_le_mono_r; lia).
  assert (HD : 0 < 2 ^ j) by (apply Z.pow_pos_nonneg; lia).
  assert (H52 : 0 < 2 ^ 52) by reflexivity.
  assert (E53 : 2 ^ 53 = 2 * 2 ^ 52) by reflexivity.
  destruct Hn as [Hn|[[-> Hn]|[Hj' Hn]]].
  - right. assert (n * 2 ^ k ≤ 0) by nia.
    assert (2 ^ j ≤ M * 2 ^ j) by nia. lia.
  - right. change (2 ^ 0) with 1. assert (2 ^ k ≤ n * 2 ^ k) by nia. lia.
  - destruct (Z.le_gt_cases j k) as [Hle|Hgt].
    + replace k with (j + (k - j)) by lia. rewrite Z.pow_add_r by lia.
      assert (Hc : 0 < 2 ^ (k - j)) by (apply Z.pow_pos_nonneg; lia).
      set (c := 2 ^ (k - j)) in *. clearbody c.
      set (D := 2 ^ j) in *. clearbody D.
      destruct (Z.eq_dec (n * c) M) as [E|E]; [left; nia|right].
      replace (n * (D * c) - M * D) with (D * (n * c - M)) by ring.
      rewrite Z.abs_mul. assert (1 ≤ Z.abs (n * c - M)) by lia. nia.
    + right. replace j with (k + (j - k)) by lia. rewrite Z.pow_add_r by lia.
      assert (Hc : 2 ≤ 2 ^ (j - k)).
      { change 2 with (2 ^ 1) at 1. apply Z.pow_le_mono_r; lia. }
      set (c := 2 ^ (j - k)) in *. clearbody c.
      assert (HP0 : 0 < 2 ^ k) by lia.
      set (P := 2 ^ k) in *. clearbody P.
      replace (n * P - M * (P * c)) with (- (P * (M * c - n))) by ring.
      rewrite Z.abs_opp, Z.abs_mul.
      assert (c ≤ M * c - n) by nia.
      assert (c ≤ Z.abs (M * c - n)) by lia.
      assert (Z.abs P = P) by lia. nia.
Qed.

(** A float whose value is [i/199] itself is the nearest to it. *)
Lemma nearest_of_exact (x : float) (a : Z) (b : positive) (i : Z) :
  Py.exact x = Some (a # b) → a * 199 = i * Z.pos b →
  nearest_binary64 x (i # 199).
Proof.
  intros Hx Hex. apply (nearest_intro x a b i Hx). intros n j Hj Hn.
  assert (HD : 0 < 2 ^ j) by (apply Z.pow_pos_nonneg; lia).
  set (D := 2 ^ j) in *. clearbody D.
  replace (a * 199 - i * Z.pos b) with 0 by lia. cbn [Z.abs Z.mul].
  split; [nia|]. intros Hz.
  assert (HB : n * 199 - i * D = 0) by nia.
  assert (E : 199 * (n * Z.pos b) = 199 * (a * D)) by nia.
  lia.
Qed.

(** A number of 53 significant bits, no power of two, that is within half a
    unit in its last place of [i/199] is the nearest binary64 number to
    it. *)
Lemma nearest_of_half_ulp (x : float) (m : positive) (e i : Z) :
  Prim2SF x = S754_finite false m e → e ≤ -53 →
  2 ^ 52 < Z.pos m < 2 ^ 53 →
  2 * Z.abs (199 * Z.pos m - i * 2 ^ (- e)) ≤ 199 →
  nearest_binary64 x (i # 199).
Proof.
  intros Hx He Hm Hhalf.
  assert (HP : 0 < 2 ^ (- e)) by (apply Z.pow_pos_nonneg; lia).
  apply (nearest_intro x (Z.pos m) (Z.to_pos (2 ^ (- e))) i).
  { unfold Py.exact. rewrite Hx.
    destruct (Z.leb_spec 0 e); [lia|]. rewrite Z.shiftl_1_l. reflexivity. }
  intros n j Hj Hn. rewrite !Z2Pos.id by assumption.
  assert (HD : 0 < 2 ^ j) by (apply Z.pow_pos_nonneg; lia).
  pose proof (binary64_gap (Z.pos m) n (- e) j Hm ltac:(lia) Hj Hn) as Hgap.
  set (P := 2 ^ (- e)) in *. clearbody P.
  set (D := 2 ^ j) in *. clearbody D.
  set (A := Z.pos m * 199 - i * P) in *.
  set (B := n * 199 - i * D).
  assert (HA : 2 * Z.abs A ≤ 199)
    by (replace A with (199 * Z.pos m - i * P) by (unfold A; lia); exact Hhalf).
  assert (E : B * P - A * D = 199 * (n * P - Z.pos m * D))
    by (unfold A, B; ring).
  assert (H2 : Z.abs (B * P - A * D) ≤ Z.abs B * P + Z.abs A * D).
  { rewrite <- (Z.abs_eq P) at 2 by lia. rewrite <- (Z.abs_eq D) at 2 by lia.
    rewrite <- !Z.abs_mul. lia. }
  destruct Hgap as [Heq|Hgap].
  - assert (E0 : B * P = A * D) by lia.
    assert (E1 : Z.abs A * D = Z.abs (A * D))
      by (rewrite Z.abs_mul, (Z.abs_eq D) by lia; reflexivity).
    assert (E2 : Z.abs B * P = Z.abs (B * P))
      by (rewrite Z.abs_mul, (Z.abs_eq P) by lia; reflexivity).
    rewrite E1, E2, E0. split; [reflexivity|]. intros _. exact Heq.
  - assert (H1 : 199 * D ≤ Z.abs (B * P - A * D))
      by (rewrite E, Z.abs_mul; cbn [Z.abs]; nia).
    split; [nia|]. intros Hge. exfalso. nia.
Qed.

(** Every sample is the binary64 number nearest to its [i/199]. *)
Lemma sample_t_nearest (i : Z) :
  0 ≤ i < steps → nearest_binary64 (sample_t i) (i # 199).
Proof.
  intros Hi. pose proof (range_forallb _ _ nearest_table i Hi) as H.
  unfold nearest_check in H.
  destruct (Prim2SF (sample_t i)) as [s| | |[] m e] eqn:Hx; try discriminate.
  - apply Z.eqb_eq in H as ->. apply (nearest_of_exact _ 0 1 0); [|reflexivity].
    unfold Py.exact. rewrite Hx. reflexivity.
  - apply andb_true_iff in H as [He H]. apply Z.ltb_lt in He.
    assert (HP : 0 < 2 ^ (- e)) by (apply Z.pow_pos_nonneg; lia).
    apply orb_true_iff in H as [H|H].
    + apply Z.eqb_eq in H.
      apply (nearest_of_exact _ (Z.pos m) (Z.to_pos (2 ^ (- e))) i).
      * unfold Py.exact. rewrite Hx.
        destruct (Z.leb_spec 0 e); [lia|]. rewrite Z.shiftl_1_l. reflexivity.
      * rewrite Z2Pos.id by assumption. lia.
    + rewrite !andb_true_iff in H. destruct H as [[[H1 H2] H3] H4].
      apply (nearest_of_half_ulp _ m e i Hx); lia.
Qed.

(** ** The generator's sampling, colour and thickness *)

(** C5, as the code has it: the 200 samples lie in the closed interval
    [0, 1]; sample [i] is the binary64 number nearest to [i/199] (no binary64
    number is closer, and one as close has the same value), within half a
    unit in the last place of it; two consecutive samples are [1/199]
    apart, up to [2^-53]; the samples increase strictly, the first is 0 and
    the last is exactly 1. *)
Theorem sample_t_uniform_on_closed_interval (i : Z) :
  0 ≤ i < steps →
  (0 <=? sample_t i)%float = true
  ∧ (sample_t i <=? 1)%float = true
  ∧ near (sample_t i) (Spec.sample_point i) half_ulp = true
  ∧ nearest_binary64 (sample_t i) (i # 199)
  ∧ (i < steps - 1 →
     (sample_t i <? sample_t (i + 1))%float = true
     ∧ ∃ v v', Py.exact (sample_t i) = Some v
         ∧ Py.exact (sample_t (i + 1)) = Some v'
         ∧ (Qabs (v' - v - (1 # 199)) <= 1 # 2 ^ 53)%Q)
  ∧ (i = 0 → (sample_t i =? 0)%float = true)
  ∧ (i = steps - 1 → (sample_t i =? 1)%float = true).
Proof.
  intros Hi. pose proof (range_forallb _ _ sampling_table i Hi) as H.
  unfold sampling_check in H. rewrite !andb_true_iff in H.
  destruct H as [[[[H0 H1] Hn] Hs] Hz].
  split; [exact H0|]. split; [exact H1|]. split; [exact Hn|].
  split; [apply sample_t_nearest, Hi|].
  split; [|split].
  - intros Hlt. split.
    + apply Z.ltb_lt in Hlt. rewrite Hlt in Hs. exact Hs.
    + pose proof (range_forallb _ _ spacing_table i ltac:(lia)) as Hsp.
      unfold spacing_check in Hsp.
      destruct (Py.exact (sample_t i)) as [v|]; [|discriminate].
      destruct (Py.exact (sample_t (i + 1))) as [v'|]; [|discriminate].
      exists v, v'. split; [reflexivity|]. split; [reflexivity|].
      apply Qle_bool_iff, Hsp.
  - intros ->. exact Hz.
  - intros ->. exact Hs.
Qed.

Lemma sample_t_uniform_on_closed_interval_witness :
  0 ≤ 7 < steps
  ∧ nearest_binary64 (sample_t 7) (7 # 199)
  ∧ (sample_t 7 <? sample_t 8)%float = true.
Proof.
  split; [unfold steps; lia|].
  destruct (sample_t_uniform_on_closed_interval 7) as (_ & _ & _ & Hn & Hs & _);
    [unfold steps; lia|].
  split; [exact Hn|]. apply Hs. unfold steps. lia.
Defined.

(** C5, as the specification words it, fails: the last of the 200 samples
    is [t = 1], which is not below 1. *)
Lemma sample_t_reaches_one :
  199 ∈ Py.range steps ∧ (sample_t 199 <? 1)%float = false
  ∧ (sample_t 199 =? 1)%float = true.
Proof.
  split; [apply range_elem; unfold steps; lia|].
  split; vm_compute; reflexivity.
Qed.

(** C2: at every sample the colour the code computes in binary64 is the
    two-segment interpolation of the specification, evaluated exactly and
    truncated, with alpha 255, both at [i/199] and at the exact value of the
    float [t]; and the interpolation gives c1 at [t = 0], c2 at [t = 0.5] and
    c3 at [t = 1]. *)
Theorem stroke_color_two_segment (i : Z) :
  0 ≤ i < steps →
  stroke_color (sample_t i) = Some (Spec.color (Spec.sample_point i))
  ∧ (∃ q, Py.exact (sample_t i) = Some q
          ∧ stroke_color (sample_t i) = Some (Spec.color q))
  ∧ stroke_color 0 = Some (opaque c1)
  ∧ stroke_color 0.5 = Some (opaque c2)
  ∧ stroke_color 1 = Some (opaque c3).
Proof.
  intros Hi. pose proof (range_forallb _ _ color_table i Hi) as H.
  unfold color_check in H. rewrite andb_true_iff in H. destruct H as [H1 H2].
  split; [exact (bool_decide_eq_true_1 _ H1)|]. split.
  - destruct (Py.exact (sample_t i)) as [q|]; [|discriminate].
    exists q. split; [reflexivity|exact (bool_decide_eq_true_1 _ H2)].
  - repeat split; vm_compute; reflexivity.
Qed.

Lemma stroke_color_two_segment_witness :
  0 ≤ 100 < steps
  ∧ (stroke_color (sample_t 100) = Some (Spec.color (Spec.sample_point 100))
     ∧ (∃ q, Py.exact (sample_t 100) = Some q
             ∧ stroke_color (sample_t 100) = Some (Spec.color q))
     ∧ stroke_color 0 = Some (opaque c1)
     ∧ stroke_color 0.5 = Some (opaque c2)
     ∧ stroke_color 1 = Some (opaque c3)).
Proof.
  split; [unfold steps; lia|].
  apply (stroke_color_two_segment 100). unfold steps. lia.
Defined.

(** C3, as the code has it: the thickness is the product of [size * 0.15]
    and [1 - 0.5 * |t - 0.5|]; it equals [size * 0.15] at [t = 0.5] and never
    exceeds it; over the samples it rises up to the midpoint and falls after
    it; it never goes below three quarters of [size * 0.15], the value it
    takes at both ends: the stroke tapers by 25%. *)
Theorem thickness_profile (size i j : Z) :
  0 ≤ size < 2 ^ 53 → 0 ≤ i < steps → 0 ≤ j < steps →
  thickness size (sample_t i)
    = (Py.float_of_int size * 0.15
       * (1 - 0.5 * PrimFloat.abs (sample_t i - 0.5)))%float
  ∧ (thickness size 0.5 =? full_thickness size)%float = true
  ∧ (thickness size (sample_t i) <=? full_thickness size)%float = true
  ∧ (i ≤ j ≤ 99 →
     (thickness size (sample_t i) <=? thickness size (sample_t j))%float = true)
  ∧ (100 ≤ i ≤ j →
     (thickness size (sample_t j) <=? thickness size (sample_t i))%float = true)
  ∧ (full_thickness size * 0.75 <=? thickness size (sample_t i))%float = true
  ∧ (thickness size (sample_t 0) =? full_thickness size * 0.75)%float = true
  ∧ (thickness size (sample_t (steps - 1))
     =? full_thickness size * 0.75)%float = true.
Proof.
  intros Hs Hi Hj.
  pose proof (size_checked size Hs) as Hsz.
  unfold size_check in Hsz. rewrite !andb_true_iff in Hsz.
  destruct Hsz as [[[_ Hmid] Hfirst] Hlast].
  pose proof (thickness_checked size i Hs Hi) as Hth.
  unfold thickness_check in Hth. rewrite !andb_true_iff in Hth.
  destruct Hth as [[[[Hle Hge] _] _] _].
  split; [reflexivity|]. split; [exact Hmid|]. split; [exact Hle|].
  split; [|split; [|split; [exact Hge|split; [exact Hfirst|exact Hlast]]]].
  - intros Hij. replace j with (i + Z.of_nat (Z.to_nat (j - i))) by lia.
    apply thickness_rising; [exact Hs|lia|lia].
  - intros Hij. replace j with (i + Z.of_nat (Z.to_nat (j - i))) at 1 by lia.
    apply thickness_falling; [exact Hs|lia|lia].
Qed.

Lemma thickness_profile_witness :
  (0 ≤ 1024 < 2 ^ 53 ∧ 0 ≤ 10 < steps ∧ 0 ≤ 60 < steps)
  ∧ (thickness 1024 (sample_t 10)
       = (Py.float_of_int 1024 * 0.15
          * (1 - 0.5 * PrimFloat.abs (sample_t 10 - 0.5)))%float
     ∧ (thickness 1024 0.5 =? full_thickness 1024)%float = true
     ∧ (thickness 1024 (sample_t 10) <=? full_thickness 1024)%float = true
     ∧ (10 ≤ 60 ≤ 99 →
        (thickness 1024 (sample_t 10)
         <=? thickness 1024 (sample_t 60))%float = true)
     ∧ (100 ≤ 10 ≤ 60 →
        (thickness 1024 (sample_t 60)
         <=? thickness 1024 (sample_t 10))%float = true)
     ∧ (full_thickness 1024 * 0.75 <=? thickness 1024 (sample_t 10))%float = true
     ∧ (thickness 1024 (sample_t 0) =? full_thickness 1024 * 0.75)%float = true
     ∧ (thickness 1024 (sample_t (steps - 1))
        =? full_thickness 1024 * 0.75)%float = true).
Proof.
  split; [unfold steps; lia|].
  apply (thickness_profile 1024 10 60); unfold steps; lia.
Defined.

(** C3, as the specification words it, fails on the taper: on the default
    1024 canvas the stroke is thinnest at its two ends, where it keeps three
    quarters of the full thickness, and no sample comes down to half of it. *)
Lemma taper_is_a_quarter_not_a_half :
  (thickness 1024 (sample_t 0) =? full_thickness 1024 * 0.75)%float = true
  ∧ (thickness 1024 (sample_t 199) =? full_thickness 1024 * 0.75)%float = true
  ∧ (thickness 1024 (sample_t 0) <=? full_thickness 1024 * 0.5)%float = false
  ∧ (thickness 1024 (sample_t 199) <=? full_thickness 1024 * 0.5)%float = false
  ∧ forallb (λ i, (full_thickness 1024 * 0.5
                   <? thickness 1024 (sample_t i))%float)
      (Py.range steps) = true.
Proof. repeat split; vm_compute; reflexivity. Qed.

(** ** The scripts *)

Section ScriptProperties.
Context `{!Pillow, !Libm}.

(** ** Stepping through the monad *)

Lemma bind_Ok {A B : Type} (m : M A) (f : A → M B) w b w' :
  (m ≫= f) w = (Ok b, w') →
  ∃ a w1, m w = (Ok a, w1) ∧ f a w1 = (Ok b, w').
Proof.
  unfold mbind, M_bind. destruct (m w) as [[a|e] w1]; [|discriminate].
  intros Hf. exists a, w1. split; [reflexivity|exact Hf].
Qed.

Lemma emit_Ok ev w u w' :
  emit ev w = (Ok u, w') →
  w' = mkWorld (fs w) (heap w) (trace w ++ [ev]).
Proof. unfold emit. intros [= _ <-]. reflexivity. Qed.

Lemma alloc_Ok im w r w' :
  alloc im w = (Ok r, w') →
  r = length (heap w) ∧ w' = mkWorld (fs w) (heap w ++ [im]) (trace w).
Proof. unfold alloc. intros [= <- <-]. split; reflexivity. Qed.

Lemma deref_Ok r w im w' :
  deref r w = (Ok im, w') → heap w !! r = Some im ∧ w' = w.
Proof.
  unfold deref. destruct (heap w !! r) as [im'|]; [|discriminate].
  intros [= <- <-]. split; reflexivity.
Qed.

Lemma write_file_Ok path d w u w' :
  write_file path d w = (Ok u, w') →
  fs w !! path ≠ Some Dir
  ∧ w' = mkWorld (<[path := File d]> (fs w)) (heap w)
           (trace w ++ [Write path d]).
Proof.
  unfold write_file. destruct (fs w !! path) as [[|d']|]; [discriminate| |];
    intros [= _ <-]; split; (congruence || reflexivity).
Qed.

Lemma os_makedirs_Ok path w u w' :
  os_makedirs path w = (Ok u, w') →
  w' = mkWorld (made_dir path (fs w)) (heap w)
         (trace w ++ mkdir_events path (fs w)).
Proof.
  unfold os_makedirs, made_dir, mkdir_events.
  destruct (fs w !! path) as [[|d']|].
  - intros [= _ <-]. destruct w; simpl. rewrite app_nil_r. reflexivity.
  - discriminate.
  - destruct (bool_decide (path = "")); [discriminate|].
    intros [= _ <-]. reflexivity.
Qed.

Lemma Image_open_Ok path w r w' :
  Image_open path w = (Ok r, w') →
  ∃ d orig, fs w !! path = Some (File d) ∧ decode d = Some orig
    ∧ r = length (heap w)
    ∧ w' = mkWorld (fs w) (heap w ++ [orig]) (trace w).
Proof.
  unfold Image_open. destruct (fs w !! path) as [[|d]|]; try discriminate.
  destruct (decode d) as [orig|] eqn:Hd; [|discriminate].
  intros [-> ->]%alloc_Ok. exists d, orig. split; [reflexivity|].
  split; [exact Hd|]. split; reflexivity.
Qed.

Lemma Image_resize_Ok img size w r w' :
  Image_resize img size w = (Ok r, w') →
  ∃ im, heap w !! img = Some im ∧ r = length (heap w)
    ∧ w' = mkWorld (fs w) (heap w ++ [resized_image im size]) (trace w).
Proof.
  unfold Image_resize. intros (im & w1 & [Him ->]%deref_Ok & [-> ->]%alloc_Ok)%bind_Ok.
  exists im. repeat split. exact Him.
Qed.

Lemma Image_save_Ok img path w u w' :
  Image_save img path w = (Ok u, w') →
  ∃ im, heap w !! img = Some im ∧ fs w !! path ≠ Some Dir
    ∧ w' = mkWorld (<[path := File (PngData im)]> (fs w)) (heap w)
             (trace w ++ [Write path (PngData im)]).
Proof.
  unfold Image_save. intros (im & w1 & [Him ->]%deref_Ok & [Hp ->]%write_file_Ok)%bind_Ok.
  exists im. repeat split; assumption.
Qed.

Lemma Image_save_ico_Ok img path sizes w u w' :
  Image_save_ico img path sizes w = (Ok u, w') →
  ∃ im, heap w !! img = Some im ∧ fs w !! path ≠ Some Dir
    ∧ w' = mkWorld (<[path := File (IcoData im sizes)]> (fs w)) (heap w)
             (trace w ++ [Write path (IcoData im sizes)]).
Proof.
  unfold Image_save_ico. intros (im & w1 & [Him ->]%deref_Ok & [Hp ->]%write_file_Ok)%bind_Ok.
  exists im. repeat split; assumption.
Qed.

(** One iteration of the exporter's loop. *)
Lemma export_step_Ok img dir entry orig w u w' :
  heap w !! img = Some orig →
  export_step img dir entry w = (Ok u, w') →
  fs w' = <[os_path_join dir entry.1 := File (PngData (resized_image orig entry.2))]> (fs w)
  ∧ heap w' = heap w ++ [resized_image orig entry.2]
  ∧ trace w' = trace w ++ export_step_events orig dir entry.
Proof.
  intros Himg. destruct entry as [name size]. unfold export_step.
  intros (r & w1 & (im & Him & -> & ->)%Image_resize_Ok & Hk)%bind_Ok.
  apply bind_Ok in Hk as (? & w2 & (im2 & Him2 & _ & ->)%Image_save_Ok & Hk).
  apply emit_Ok in Hk as ->. simpl in *.
  rewrite Himg in Him. injection Him as <-.
  rewrite lookup_app_r, Nat.sub_diag in Him2 by lia. injection Him2 as <-.
  unfold export_step_events. simpl. rewrite <- app_assoc. repeat split.
Qed.

Lemma export_loop_Ok img dir orig entries w u w' :
  heap w !! img = Some orig →
  for_ entries (export_step img dir) w = (Ok u, w') →
  fs w' = written (map (λ e, (os_path_join dir e.1, PngData (resized_image orig e.2))) entries) (fs w)
  ∧ heap w' = heap w ++ map (λ e, resized_image orig e.2) entries
  ∧ trace w' = trace w ++ (entries ≫= export_step_events orig dir).
Proof.
  revert w. induction entries as [|e entries IH]; intros w Himg; simpl.
  - intros [= _ <-]. rewrite !app_nil_r. repeat split.
  - intros (? & w1 & (Hf & Hh & Ht)%(export_step_Ok _ _ _ orig) & Hk)%bind_Ok; [|exact Himg].
    apply IH in Hk as (Hf' & Hh' & Ht').
    + rewrite Hf', Hh', Ht', Hf, Hh, Ht. rewrite <- !app_assoc. repeat split.
    + rewrite Hh. apply lookup_app_l_Some, Himg.
Qed.

Lemma made_dir_lookup path store p :
  is_Some (store !! p) → made_dir path store !! p = store !! p.
Proof.
  intros Hp. unfold made_dir. destruct (store !! path) eqn:E; [reflexivity|].
  apply lookup_insert_ne. intros ->. rewrite E in Hp. destruct Hp; discriminate.
Qed.

Lemma written_app ws1 ws2 store :
  written (ws1 ++ ws2) store = written ws2 (written ws1 store).
Proof. apply foldl_app. Qed.

(** A run of the exporter on an existing source that returns normally. *)
Lemma process_icon_Ok src tauri pub w u w' :
  is_Some (fs w !! src) →
  process_icon src tauri pub w = (Ok u, w') →
  ∃ d orig,
    fs w !! src = Some (File d) ∧ decode d = Some orig
    ∧ fs w' = written (outputs orig tauri pub)
                (made_dir pub (made_dir tauri (fs w)))
    ∧ heap w' = heap w ++ orig :: map (λ e, resized_image orig e.2) sizes
                  ++ [resized_image orig (512, 512)]
    ∧ trace w' = trace w ++ mkdir_events tauri (fs w)
                   ++ mkdir_events pub (made_dir tauri (fs w))
                   ++ export_events orig src tauri pub.
Proof.
  intros Hsrc. unfold process_icon.
  intros (found & w0 & Hex & Hk)%bind_Ok.
  unfold os_path_exists in Hex. injection Hex as <- <-.
  rewrite bool_decide_eq_true_2 in Hk by exact Hsrc. cbn [negb] in Hk.
  apply bind_Ok in Hk as (? & w1 & ->%os_makedirs_Ok & Hk).
  apply bind_Ok in Hk as (? & w2 & ->%os_makedirs_Ok & Hk).
  apply bind_Ok in Hk as (img & w3 & (d & orig & Hd & Hdec & -> & ->)%Image_open_Ok & Hk).
  apply bind_Ok in Hk as (? & w4 & ->%emit_Ok & Hk).
  apply bind_Ok in Hk as (? & w5 & Hloop & Hk).
  apply (export_loop_Ok _ _ orig) in Hloop as (Hf5 & Hh5 & Ht5);
    [|cbn [heap]; rewrite lookup_app_r, Nat.sub_diag by lia; reflexivity].
  cbn [fs heap trace] in *.
  assert (Himg5 : heap w5 !! length (heap w) = Some orig).
  { rewrite Hh5, <- app_assoc. apply list_lookup_middle. reflexivity. }
  apply bind_Ok in Hk as (? & w6 & (im & Him & _ & ->)%Image_save_ico_Ok & Hk).
  rewrite Himg5 in Him. injection Him as <-.
  apply bind_Ok in Hk as (? & w7 & ->%emit_Ok & Hk).
  apply bind_Ok in Hk as (public & w8 & (im & Him & -> & ->)%Image_resize_Ok & Hk).
  cbn [fs heap trace] in *. rewrite Himg5 in Him. injection Him as <-.
  apply bind_Ok in Hk as (? & w9 & (im & Him & _ & ->)%Image_save_Ok & Hk).
  cbn [fs heap trace] in *.
  rewrite lookup_app_r, Nat.sub_diag in Him by lia. injection Him as <-.
  apply emit_Ok in Hk as ->. cbn [fs heap trace].
  rewrite made_dir_lookup, made_dir_lookup in Hd by
    (try rewrite made_dir_lookup; exact Hsrc).
  exists d, orig. split; [exact Hd|]. split; [exact Hdec|].
  rewrite Hf5, Hh5, Ht5. unfold outputs, export_events.
  rewrite written_app. split; [reflexivity|]. split.
  - rewrite <- !app_assoc. reflexivity.
  - rewrite <- !app_assoc. reflexivity.
Qed.

(** ** Paths *)

Lemma has_sep_cons c path :
  has_sep (String c path) = is_sep c || has_sep path.
Proof. reflexivity. Qed.

Lemma has_sep_app a b : has_sep (a +:+ b) = has_sep a || has_sep b.
Proof.
  induction a as [|c a IH]; [reflexivity|].
  change (String c a +:+ b) with (String c (a +:+ b)).
  rewrite !has_sep_cons, IH, orb_assoc. reflexivity.
Qed.

Lemma basename_no_sep b : has_sep b = false → basename b = b.
Proof. destruct b as [|c b]; [reflexivity|]. cbn [basename]. intros ->. reflexivity. Qed.

Lemma basename_after_sep a b :
  has_sep b = false → basename (a +:+ "/" +:+ b) = b.
Proof.
  intros Hb. induction a as [|c a IH].
  - change ("" +:+ "/" +:+ b) with (String "/" b).
    cbn [basename]. rewrite has_sep_cons.
    change (is_sep "/") with true. cbn [orb]. apply basename_no_sep, Hb.
  - change (String c a +:+ "/" +:+ b) with (String c (a +:+ "/" +:+ b)).
    cbn [basename]. rewrite has_sep_cons, has_sep_app.
    change ("/" +:+ b) with (String "/" b). rewrite (has_sep_cons "/" b).
    change (is_sep "/") with true. cbn [orb].
    rewrite !orb_true_r. exact IH.
Qed.

Lemma ends_with_sep_has_sep a : ends_with_sep a = true → has_sep a = true.
Proof.
  induction a as [|c a IH]; [discriminate|].
  rewrite has_sep_cons. cbn [ends_with_sep]. destruct a as [|c' a'].
  - intros ->. reflexivity.
  - intros Ha. rewrite (IH Ha). apply orb_true_r.
Qed.

Lemma basename_after_trailing_sep a b :
  ends_with_sep a = true → has_sep b = false → basename (a +:+ b) = b.
Proof.
  intros Ha Hb. induction a as [|c a IH]; [discriminate|].
  change (String c a +:+ b) with (String c (a +:+ b)).
  cbn [basename]. rewrite has_sep_cons, has_sep_app.
  cbn [ends_with_sep] in Ha. destruct a as [|c' a'].
  - rewrite Ha. cbn [orb]. change ("" +:+ b) with b. apply basename_no_sep, Hb.
  - rewrite (ends_with_sep_has_sep _ Ha). rewrite orb_true_r. apply IH, Ha.
Qed.

(** [os.path.basename(os.path.join(a, b)) == b] for a plain file name. *)
Lemma basename_join a b :
  has_sep b = false → basename (os_path_join a b) = b.
Proof.
  intros Hb. unfold os_path_join.
  assert (starts_with_sep b = false) as ->.
  { destruct b as [|c b]; [reflexivity|].
    rewrite has_sep_cons in Hb. apply orb_false_iff in Hb as [Hc _]. exact Hc. }
  destruct (bool_decide (a = "")) eqn:Ea.
  - apply bool_decide_eq_true_1 in Ea as ->. apply basename_no_sep, Hb.
  - cbn [orb]. destruct (ends_with_sep a) eqn:Es.
    + apply basename_after_trailing_sep; assumption.
    + apply basename_after_sep, Hb.
Qed.

Lemma join_same_file a a' b b' :
  has_sep b = false → has_sep b' = false →
  os_path_join a b = os_path_join a' b' → b = b'.
Proof.
  intros Hb Hb' Heq. rewrite <- (basename_join a b Hb), Heq.
  apply basename_join, Hb'.
Qed.

(** ** The size table *)

Lemma sizes_plain_names name size :
  (name, size) ∈ sizes → has_sep name = false ∧ name ≠ "icon.ico".
Proof.
  assert (Hall : Forall (λ e, has_sep e.1 = false ∧ e.1 ≠ "icon.ico") sizes).
  { unfold sizes. repeat (constructor; [split; [reflexivity|discriminate]|]).
    constructor. }
  rewrite Forall_forall in Hall. intros Hin. exact (Hall _ Hin).
Qed.

Lemma sizes_NoDup : NoDup (sizes.*1).
Proof. apply (bool_decide_unpack (NoDup (sizes.*1))). vm_compute. exact I. Qed.

Lemma sizes_functional name size size' :
  (name, size) ∈ sizes → (name, size') ∈ sizes → size = size'.
Proof.
  intros H1 H2.
  pose proof (elem_of_list_to_map_1 (M := gmap string) _ _ _ sizes_NoDup H1) as E1.
  pose proof (elem_of_list_to_map_1 (M := gmap string) _ _ _ sizes_NoDup H2) as E2.
  congruence.
Qed.

(** ** Reading the store after a sequence of writes *)

Lemma written_snoc ws p d store :
  written (ws ++ [(p, d)]) store = <[p := File d]> (written ws store).
Proof. unfold written. rewrite foldl_app. reflexivity. Qed.

Lemma written_lookup_in (P : file_data → Prop) ws store p :
  (∃ d, (p, d) ∈ ws) → (∀ d, (p, d) ∈ ws → P d) →
  ∃ d, written ws store !! p = Some (File d) ∧ P d.
Proof.
  induction ws as [|[p' d'] ws IH] using rev_ind.
  - intros [d Hd]. inversion Hd.
  - intros [d Hd] HP. rewrite written_snoc.
    destruct (decide (p = p')) as [->|Hne].
    + exists d'. rewrite lookup_insert_eq. split; [reflexivity|].
      apply HP. apply elem_of_app. right. apply list_elem_of_singleton. reflexivity.
    + rewrite lookup_insert_ne by congruence. apply IH.
      * apply elem_of_app in Hd as [Hd|Hd]; [exists d; exact Hd|].
        apply list_elem_of_singleton in Hd. congruence.
      * intros d0 Hd0. apply HP. apply elem_of_app. left. exact Hd0.
Qed.

Lemma written_lookup_notin ws store p :
  p ∉ ws.*1 → written ws store !! p = store !! p.
Proof.
  induction ws as [|[p' d'] ws IH] using rev_ind; [reflexivity|].
  rewrite fmap_app, not_elem_of_app. intros [Hws Hp'].
  rewrite written_snoc, lookup_insert_ne; [apply IH, Hws|].
  intros ->. apply Hp'. apply list_elem_of_singleton. reflexivity.
Qed.

(** ** Events *)

Lemma since_app w w' evs : trace w' = trace w ++ evs → since w w' = evs.
Proof. intros Ht. unfold since. rewrite Ht. apply drop_app_length. Qed.

Lemma writes_app evs1 evs2 : writes (evs1 ++ evs2) = writes evs1 ++ writes evs2.
Proof. apply omap_app. Qed.

Lemma writes_mkdir_events path store : writes (mkdir_events path store) = [].
Proof. unfold mkdir_events. destruct (store !! path); reflexivity. Qed.

Lemma writes_export_events orig src tauri pub :
  writes (export_events orig src tauri pub) = outputs orig tauri pub.
Proof. reflexivity. Qed.

Lemma outputs_elem orig tauri pub p d :
  (p, d) ∈ outputs orig tauri pub ↔
  (∃ name size, (name, size) ∈ sizes ∧ p = os_path_join tauri name
                ∧ d = PngData (resized_image orig size))
  ∨ (p = os_path_join tauri "icon.ico" ∧ d = IcoData orig ico_sizes)
  ∨ (p = os_path_join pub "icon.png"
     ∧ d = PngData (resized_image orig (512, 512))).
Proof.
  unfold outputs. rewrite elem_of_app, list_elem_of_fmap.
  rewrite elem_of_cons, list_elem_of_singleton. split.
  - intros [([name size] & [= -> ->] & Hin)|[[= -> ->]|[= -> ->]]].
    + left. exists name, size. repeat split. exact Hin.
    + right. left. split; reflexivity.
    + right. right. split; reflexivity.
  - intros [(name & size & Hin & -> & ->)|[[-> ->]|[-> ->]]].
    + left. exists (name, size). split; [reflexivity|exact Hin].
    + right. left. reflexivity.
    + right. right. reflexivity.
Qed.

(** The whole run in one statement: what was read, what was written. *)
Lemma process_icon_run src tauri pub w u w' :
  is_Some (fs w !! src) →
  process_icon src tauri pub w = (Ok u, w') →
  ∃ d orig,
    fs w !! src = Some (File d) ∧ decode d = Some orig
    ∧ fs w' = written (outputs orig tauri pub)
                (made_dir pub (made_dir tauri (fs w)))
    ∧ heap w' !! length (heap w) = Some orig
    ∧ writes (since w w') = outputs orig tauri pub.
Proof.
  intros Hsrc Hrun.
  destruct (process_icon_Ok _ _ _ _ _ _ Hsrc Hrun)
    as (d & orig & Hd & Hdec & Hfs & Hheap & Htrace).
  exists d, orig. split; [exact Hd|]. split; [exact Hdec|].
  split; [exact Hfs|]. split.
  - rewrite Hheap. apply list_lookup_middle. reflexivity.
  - rewrite (since_app _ _ _ Htrace), !writes_app, !writes_mkdir_events.
    apply writes_export_events.
Qed.

(** ** The exporter's outputs *)

(** C1: after a run that found its source and returned, every entry
    [(name, size)] of the table has its file in the packaging directory
    holding an image of exactly that size, every write to that path during
    the run was of an image of that size, and [icon.png] in the public
    directory holds a 512x512 image. *)
Theorem exported_sizes_match (src tauri pub : string) (w w' : world) :
  is_Some (fs w !! src) →
  process_icon src tauri pub w = (Ok tt, w') →
  (∀ name size, (name, size) ∈ sizes →
     (∃ im, fs w' !! os_path_join tauri name = Some (File (PngData im))
            ∧ im_size im = size)
     ∧ (∃ d, (os_path_join tauri name, d) ∈ writes (since w w'))
     ∧ (∀ d, (os_path_join tauri name, d) ∈ writes (since w w') →
             ∃ im, d = PngData im ∧ im_size im = size))
  ∧ (∃ im, fs w' !! os_path_join pub "icon.png" = Some (File (PngData im))
           ∧ im_size im = (512, 512)).
Proof.
  intros Hsrc Hrun.
  destruct (process_icon_run _ _ _ _ _ _ Hsrc Hrun)
    as (d0 & orig & _ & _ & Hfs & _ & Hw).
  rewrite Hfs, Hw. clear Hfs Hw Hrun Hsrc.
  assert (Hpng : ("icon.png", (512, 512)) ∈ sizes)
    by (unfold sizes; apply list_elem_of_here).
  split.
  - intros name size Hin.
    destruct (sizes_plain_names _ _ Hin) as [Hplain Hico].
    assert (Hall : ∀ d, (os_path_join tauri name, d) ∈ outputs orig tauri pub →
                        ∃ im, d = PngData im ∧ im_size im = size).
    { intros d [(name' & size' & Hin' & Hp & ->)|[[Hp ->]|[Hp ->]]]%outputs_elem.
      - destruct (sizes_plain_names _ _ Hin') as [Hplain' _].
        apply join_same_file in Hp as <-; [|assumption..].
        rewrite (sizes_functional _ _ _ Hin Hin'). eexists. split; reflexivity.
      - apply join_same_file in Hp; [|assumption|reflexivity]. contradiction.
      - apply join_same_file in Hp as ->; [|assumption|reflexivity].
        rewrite (sizes_functional _ _ _ Hin Hpng). eexists. split; reflexivity. }
    assert (Hex : ∃ d, (os_path_join tauri name, d) ∈ outputs orig tauri pub).
    { eexists. apply outputs_elem. left. exists name, size.
      split; [exact Hin|]. split; reflexivity. }
    split; [|split; [exact Hex|exact Hall]].
    destruct (written_lookup_in _ _ (made_dir pub (made_dir tauri (fs w))) _ Hex Hall)
      as (d & Hd & im & -> & Him).
    exists im. split; assumption.
  - assert (Hall : ∀ d, (os_path_join pub "icon.png", d) ∈ outputs orig tauri pub →
                        ∃ im, d = PngData im ∧ im_size im = (512, 512)).
    { intros d [(name' & size' & Hin' & Hp & ->)|[[Hp ->]|[Hp ->]]]%outputs_elem.
      - destruct (sizes_plain_names _ _ Hin') as [Hplain' _].
        apply join_same_file in Hp as <-; [|reflexivity|assumption].
        rewrite (sizes_functional _ _ _ Hin' Hpng). eexists. split; reflexivity.
      - apply join_same_file in Hp; [discriminate|reflexivity..].
      - eexists. split; reflexivity. }
    assert (Hex : ∃ d, (os_path_join pub "icon.png", d) ∈ outputs orig tauri pub).
    { eexists. apply outputs_elem. right. right. split; reflexivity. }
    destruct (written_lookup_in _ _ (made_dir pub (made_dir tauri (fs w))) _ Hex Hall)
      as (d & Hd & im & -> & Him).
    exists im. split; assumption.
Qed.

(** What the script hands to the encoder of the icon container, once, and
    what [icon.ico] holds at the end. *)
Lemma icon_container_handed (src tauri pub : string) (w w' : world) :
  is_Some (fs w !! src) →
  process_icon src tauri pub w = (Ok tt, w') →
  ∃ d orig,
    fs w !! src = Some (File d) ∧ decode d = Some orig
    ∧ List.filter (λ pd, is_ico pd.2) (writes (since w w'))
      = [(os_path_join tauri "icon.ico", IcoData orig ico_sizes)]
    ∧ fs w' !! os_path_join tauri "icon.ico"
      = Some (File (IcoData orig ico_sizes))
    ∧ ico_sizes = map (λ n, (n, n)) [256; 128; 64; 48; 32; 16].
Proof.
  intros Hsrc Hrun.
  destruct (process_icon_run _ _ _ _ _ _ Hsrc Hrun)
    as (d0 & orig & Hd & Hdec & Hfs & _ & Hw).
  exists d0, orig. split; [exact Hd|]. split; [exact Hdec|].
  rewrite Hfs, Hw. split; [reflexivity|]. split; [|reflexivity].
  assert (Hall : ∀ d, (os_path_join tauri "icon.ico", d) ∈ outputs orig tauri pub →
                      d = IcoData orig ico_sizes).
  { intros d [(name' & size' & Hin' & Hp & ->)|[[Hp ->]|[Hp ->]]]%outputs_elem.
    - destruct (sizes_plain_names _ _ Hin') as [Hplain' Hne].
      apply join_same_file in Hp; [|reflexivity|assumption]. congruence.
    - reflexivity.
    - apply join_same_file in Hp; [discriminate|reflexivity..]. }
  assert (Hex : ∃ d, (os_path_join tauri "icon.ico", d) ∈ outputs orig tauri pub).
  { eexists. apply outputs_elem. right. left. split; reflexivity. }
  destruct (written_lookup_in _ _ (made_dir pub (made_dir tauri (fs w))) _ Hex Hall)
    as (d & Hlook & ->).
  exact Hlook.
Qed.

(** ** The source image across the loop *)

(** One iteration, whatever its outcome: objects already on the heap are
    left as they are, and whatever is written is a resize of the image
    [img] names. *)
Lemma export_step_frame img dir entry orig w r w' :
  heap w !! img = Some orig →
  export_step img dir entry w = (r, w') →
  heap w `prefix_of` heap w'
  ∧ ∃ evs, trace w' = trace w ++ evs
      ∧ ∀ p d, (p, d) ∈ writes evs →
               ∃ size, d = PngData (resized_image orig size).
Proof.
  intros Himg. destruct entry as [name size].
  unfold export_step, Image_resize, Image_save, print, emit, write_file,
    deref, alloc, mbind, M_bind. cbn [fs heap trace]. rewrite Himg.
  cbn [fs heap trace].
  rewrite lookup_app_r, Nat.sub_diag by lia.
  cbn [lookup list_lookup fs heap trace].
  destruct (fs w !! os_path_join dir name) as [[|d0]|];
    intros [= <- <-]; cbn [fs heap trace]; (split; [by apply prefix_app_r|]).
  1: exists []; rewrite app_nil_r; split; [reflexivity|]; intros p d Hin; inversion Hin.
  all: eexists; rewrite <- app_assoc; (split; [reflexivity|]);
    intros p d Hin; cbn in Hin; apply list_elem_of_singleton in Hin;
    injection Hin as -> ->; eexists; reflexivity.
Qed.

(** Any number of iterations, whatever the outcome. *)
Lemma export_loop_frame img dir orig entries w r w' :
  heap w !! img = Some orig →
  for_ entries (export_step img dir) w = (r, w') →
  heap w `prefix_of` heap w'
  ∧ ∃ evs, trace w' = trace w ++ evs
      ∧ ∀ p d, (p, d) ∈ writes evs →
               ∃ size, d = PngData (resized_image orig size).
Proof.
  revert w. induction entries as [|e entries IH]; intros w Himg.
  - cbn [for_]. intros [= <- <-]. split; [reflexivity|].
    exists []. rewrite app_nil_r. split; [reflexivity|].
    intros p d Hin. inversion Hin.
  - cbn [for_]. unfold mbind, M_bind.
    destruct (export_step img dir e w) as [[u|ex] w1] eqn:Hstep;
      destruct (export_step_frame _ _ _ _ _ _ _ Himg Hstep)
        as (Hpre & evs & Htr & Hevs).
    + intros Hrest.
      assert (Himg1 : heap w1 !! img = Some orig)
        by (eapply prefix_lookup_Some; eassumption).
      destruct (IH _ Himg1 Hrest) as (Hpre' & evs' & Htr' & Hevs').
      split; [etrans; eassumption|]. exists (evs ++ evs').
      rewrite Htr', Htr, app_assoc. split; [reflexivity|].
      intros p d. rewrite writes_app, elem_of_app.
      intros [Hin|Hin]; [eapply Hevs, Hin|eapply Hevs', Hin].
    + intros [= <- <-]. split; [exact Hpre|]. exists evs.
      split; [exact Htr|exact Hevs].
Qed.

(** C6: the image object loaded from the source holds the same image at
    the end of the run as when it was loaded; every file the run writes is
    the icon container encoded from that image or a resize of that image,
    never of a resized one; and this holds through the loop: after any
    number of iterations, whatever their outcome, the object still holds
    the loaded image and the files written so far are resizes of it. *)
Theorem source_image_never_mutated (src tauri pub : string) (w w' : world) :
  is_Some (fs w !! src) →
  process_icon src tauri pub w = (Ok tt, w') →
  ∃ d orig,
    fs w !! src = Some (File d) ∧ decode d = Some orig
    ∧ heap w' !! length (heap w) = Some orig
    ∧ (∀ p d', (p, d') ∈ writes (since w w') →
         d' = IcoData orig ico_sizes
         ∨ ∃ size, d' = PngData (resized_image orig size))
    ∧ (∀ entries img wl r wl',
         heap wl !! img = Some orig →
         for_ entries (export_step img tauri) wl = (r, wl') →
         heap wl' !! img = Some orig
         ∧ ∀ p d', (p, d') ∈ writes (since wl wl') →
                   ∃ size, d' = PngData (resized_image orig size)).
Proof.
  intros Hsrc Hrun.
  destruct (process_icon_run _ _ _ _ _ _ Hsrc Hrun)
    as (d0 & orig & Hd & Hdec & _ & Hheap & Hw).
  exists d0, orig. split; [exact Hd|]. split; [exact Hdec|].
  split; [exact Hheap|]. split.
  - rewrite Hw.
    intros p d' [(name & size & _ & _ & ->)|[[_ ->]|[_ ->]]]%outputs_elem.
    + right. eexists. reflexivity.
    + left. reflexivity.
    + right. eexists. reflexivity.
  - intros entries img wl r wl' Himg Hloop.
    destruct (export_loop_frame _ _ _ _ _ _ _ Himg Hloop)
      as (Hpre & evs & Htr & Hevs).
    split; [eapply prefix_lookup_Some; eassumption|].
    rewrite (since_app _ _ _ Htr). exact Hevs.
Qed.

(** ** A missing source *)

Lemma process_icon_missing (src tauri pub : string) (w : world) :
  fs w !! src = None →
  process_icon src tauri pub w
  = (Ok tt, mkWorld (fs w) (heap w)
              (trace w ++ [Print ("Error: Source file not found at " +:+ src)])).
Proof.
  intros Hsrc. unfold process_icon, os_path_exists, mbind, M_bind.
  rewrite bool_decide_eq_false_2
    by (rewrite Hsrc; intros [x Hx]; discriminate).
  reflexivity.
Qed.

(** C4: when nothing exists at the source path the exporter returns
    normally, having only printed the error line: the store is unchanged
    (no file written, no directory made), the heap is unchanged. *)
Theorem missing_source_reported (src tauri pub : string) (w : world) :
  fs w !! src = None →
  ∃ w', process_icon src tauri pub w = (Ok tt, w')
    ∧ fs w' = fs w ∧ heap w' = heap w
    ∧ since w w' = [Print ("Error: Source file not found at " +:+ src)]
    ∧ writes (since w w') = [].
Proof.
  intros Hsrc. eexists. split; [apply process_icon_missing, Hsrc|].
  cbn [fs heap trace]. unfold since. cbn [trace].
  rewrite drop_app_length. repeat split.
Qed.

(** C10: run as a script on a source path where nothing exists, the
    exporter returns normally, so the interpreter exits with status 0; the
    store is the one it started from, so neither destination directory was
    created, and no [makedirs] took place. *)
Theorem missing_source_exits_zero (prog src cwd : string) (w : world) :
  fs w !! src = None →
  ∃ w', exporter_main [prog; src] cwd w = (Ok tt, w')
    ∧ exit_status (fst (exporter_main [prog; src] cwd w)) = 0
    ∧ fs w' = fs w
    ∧ (∀ path, Mkdir path ∉ since w w')
    ∧ fs w' !! os_path_join (os_path_join cwd "src-tauri") "icons"
      = fs w !! os_path_join (os_path_join cwd "src-tauri") "icons"
    ∧ fs w' !! os_path_join cwd "public"
      = fs w !! os_path_join cwd "public".
Proof.
  intros Hsrc.
  pose proof (process_icon_missing src
                (os_path_join (os_path_join cwd "src-tauri") "icons")
                (os_path_join cwd "public") w Hsrc) as Hrun.
  eexists. unfold exporter_main.
  rewrite bool_decide_eq_false_2 by (cbn; lia).
  cbv zeta. change (default "" ([prog; src] !! 1%nat)) with src.
  rewrite Hrun. split; [reflexivity|]. split; [reflexivity|].
  cbn [fs]. split; [reflexivity|]. split; [|split; reflexivity].
  intros path. unfold since. cbn [trace]. rewrite drop_app_length.
  intros Hin. apply list_elem_of_singleton in Hin. discriminate.
Qed.

(** ** The generator's run *)

Lemma assign_Ok r im w u w' :
  assign r im w = (Ok u, w') →
  w' = mkWorld (fs w) (<[r := im]> (heap w)) (trace w).
Proof. unfold assign. intros [= _ <-]. reflexivity. Qed.

Lemma ImageDraw_ellipse_Ok draw xy fill w u w' :
  ImageDraw_ellipse draw xy fill w = (Ok u, w') →
  ∃ im, heap w !! draw = Some im
    ∧ w' = mkWorld (fs w)
             (<[draw := mkImage (im_size im)
                          (raster_ellipse (im_size im) (im_px im) xy fill)]>
                (heap w))
             (trace w).
Proof.
  unfold ImageDraw_ellipse.
  intros (im & w1 & [Him ->]%deref_Ok & ->%assign_Ok)%bind_Ok.
  exists im. split; [exact Him|reflexivity].
Qed.

Lemma ImageDraw_rounded_rectangle_Ok draw xy radius fill w u w' :
  ImageDraw_rounded_rectangle draw xy radius fill w = (Ok u, w') →
  ∃ im, heap w !! draw = Some im
    ∧ w' = mkWorld (fs w)
             (<[draw := mkImage (im_size im)
                          (raster_rounded_rectangle (im_size im) (im_px im)
                             xy radius fill)]> (heap w))
             (trace w).
Proof.
  unfold ImageDraw_rounded_rectangle.
  intros (im & w1 & [Him ->]%deref_Ok & ->%assign_Ok)%bind_Ok.
  exists im. split; [exact Him|reflexivity].
Qed.

(** The stroke loop paints the samples, in order, on the one canvas. *)
Lemma stroke_loop_Ok draw size indices im w u w' :
  heap w !! draw = Some im →
  for_ indices (stroke_step draw size) w = (Ok u, w') →
  fs w' = fs w ∧ trace w' = trace w
  ∧ heap w' = <[draw := foldl (paint size) im indices]> (heap w).
Proof.
  revert im w. induction indices as [|i indices IH]; intros im w Him.
  - cbn [for_ foldl]. intros [= _ <-]. rewrite list_insert_id by exact Him.
    repeat split.
  - cbn [for_ foldl]. intros (? & w1 & Hstep & Hrest)%bind_Ok.
    unfold stroke_step in Hstep. unfold paint at 2.
    destruct (sample size i) as [s|]; [|discriminate].
    apply ImageDraw_ellipse_Ok in Hstep as (im' & Him' & ->).
    rewrite Him in Him'. injection Him' as <-.
    eapply IH in Hrest as (Hf & Ht & Hh);
      [|cbn [heap]; apply list_lookup_insert_eq; eapply lookup_lt_Some, Him].
    cbn [fs heap trace] in *.
    rewrite Hf, Ht, Hh, list_insert_insert_eq. repeat split.
Qed.

(** A run of the generator that returns normally. *)
Lemma create_gradient_icon_Ok path size w u w' :
  create_gradient_icon path size w = (Ok u, w') →
  fs w' = <[path := File (PngData (canvas size))]> (fs w)
  ∧ heap w' = heap w ++ [canvas size]
  ∧ trace w' = trace w ++ [ Write path (PngData (canvas size));
                            Print ("Generated icon at " +:+ path) ].
Proof.
  unfold create_gradient_icon, canvas.
  generalize (Py.range steps). intros indices.
  intros (image & w1 & Hnew & Hk)%bind_Ok.
  unfold Image_new in Hnew.
  destruct (bool_decide _); [|discriminate].
  apply alloc_Ok in Hnew as [-> ->]. cbv zeta in Hk.
  apply bind_Ok in Hk as (? & w2 & (im & Him & ->)%ImageDraw_rounded_rectangle_Ok & Hk).
  cbn [fs heap trace] in *.
  rewrite lookup_app_r, Nat.sub_diag in Him by lia. injection Him as <-.
  rewrite insert_app_r_alt, Nat.sub_diag in Hk by lia.
  cbn [insert list_insert im_size im_px] in Hk.
  apply bind_Ok in Hk as (? & w3 & Hloop & Hk).
  eapply stroke_loop_Ok in Hloop as (Hf3 & Ht3 & Hh3);
    [|cbn [heap]; rewrite lookup_app_r, Nat.sub_diag by lia; reflexivity].
  cbn [fs heap trace] in *.
  rewrite insert_app_r_alt, Nat.sub_diag in Hh3 by lia.
  cbn [insert list_insert] in Hh3.
  apply bind_Ok in Hk as (? & w4 & (im & Him & ->)%ImageDraw_ellipse_Ok & Hk).
  rewrite Hh3, lookup_app_r, Nat.sub_diag in Him by lia. injection Him as <-.
  rewrite Hh3, insert_app_r_alt, Nat.sub_diag in Hk by lia.
  cbn [insert list_insert] in Hk.
  apply bind_Ok in Hk as (? & w5 & (im & Him & _ & ->)%Image_save_Ok & Hk).
  cbn [fs heap trace] in *.
  rewrite lookup_app_r, Nat.sub_diag in Him by lia. injection Him as <-.
  apply emit_Ok in Hk as ->. cbn [fs heap trace].
  rewrite Hf3, Ht3, <- app_assoc. repeat split.
Qed.

(** The generator returns whenever the size is one Pillow accepts and the
    output path is not a directory. *)
Lemma stroke_loop_returns draw size indices im w :
  heap w !! draw = Some im →
  Forall (λ i, 0 ≤ i < steps) indices →
  ∃ w', for_ indices (stroke_step draw size) w = (Ok tt, w').
Proof.
  revert im w. induction indices as [|i indices IH]; intros im w Him Hall.
  - eexists. reflexivity.
  - apply Forall_cons in Hall as [Hi Hall].
    pose proof (range_forallb _ _ color_table i Hi) as Hc.
    unfold color_check in Hc. rewrite andb_true_iff in Hc.
    destruct Hc as [Hc _]. apply bool_decide_eq_true_1 in Hc.
    cbn [for_]. unfold mbind, M_bind, stroke_step, sample.
    rewrite Hc. cbn [mbind option_bind].
    unfold ImageDraw_ellipse, mbind, M_bind, deref, assign. rewrite Him.
    eapply IH; [|exact Hall]. cbn [heap].
    apply list_lookup_insert_eq. eapply lookup_lt_Some, Him.
Qed.

Lemma create_gradient_icon_returns path size w :
  0 ≤ size < 2 ^ 31 → fs w !! path ≠ Some Dir →
  ∃ w', create_gradient_icon path size w = (Ok tt, w').
Proof.
  intros Hsize Hpath. unfold create_gradient_icon, Image_new.
  rewrite bool_decide_eq_true_2 by (cbn [fst snd]; lia).
  unfold mbind at 1, M_bind at 1, alloc. cbv zeta.
  unfold mbind at 1, M_bind at 1, ImageDraw_rounded_rectangle, mbind at 1,
    M_bind at 1, deref, assign.
  cbn [fs heap trace]. rewrite lookup_app_r, Nat.sub_diag by lia.
  cbn [lookup list_lookup fs heap trace].
  rewrite insert_app_r_alt, Nat.sub_diag by lia. cbn [insert list_insert].
  unfold mbind at 1, M_bind at 1.
  assert (Hall : Forall (λ i, 0 ≤ i < steps) (Py.range steps)).
  { apply Forall_forall. intros i Hin. unfold Py.range in Hin.
    apply list_elem_of_fmap in Hin as (n & -> & Hn). apply elem_of_seq in Hn.
    unfold steps in *. lia. }
  revert Hall. generalize (Py.range steps). intros indices Hall.
  edestruct (stroke_loop_returns (length (heap w)) size indices)
    as [w3 Hloop]; [|exact Hall|rewrite Hloop].
  { cbn [heap]. rewrite lookup_app_r, Nat.sub_diag by lia. reflexivity. }
  eapply stroke_loop_Ok in Hloop as (Hf3 & Ht3 & Hh3);
    [|cbn [heap]; rewrite lookup_app_r, Nat.sub_diag by lia; reflexivity].
  cbn [fs heap trace] in *.
  rewrite insert_app_r_alt, Nat.sub_diag in Hh3 by lia.
  cbn [insert list_insert] in Hh3.
  unfold mbind at 1, M_bind at 1, ImageDraw_ellipse, mbind at 1, M_bind at 1,
    deref, assign.
  rewrite Hh3, lookup_app_r, Nat.sub_diag by lia.
  cbn [lookup list_lookup fs heap trace].
  unfold mbind at 1, M_bind at 1, Image_save, mbind at 1, M_bind at 1,
    deref, write_file.
  cbn [fs heap trace].
  rewrite Hh3, insert_app_r_alt, Nat.sub_diag by lia. cbn [insert list_insert].
  rewrite lookup_app_r, Nat.sub_diag by lia. cbn [lookup list_lookup].
  rewrite ?Hf3. cbn [fs heap trace]. rewrite ?Hf3.
  destruct (fs w !! path) as [[|d]|]; [congruence| |];
    cbn [fs heap trace]; unfold print, emit; eexists; reflexivity.
Qed.

Lemma written_lookup_same ws store1 store2 p :
  p ∈ ws.*1 → written ws store1 !! p = written ws store2 !! p.
Proof.
  induction ws as [|[p' d'] ws IH] using rev_ind.
  - intros Hin. inversion Hin.
  - rewrite fmap_app, elem_of_app, !written_snoc. intros Hin.
    destruct (decide (p = p')) as [->|Hne].
    + rewrite !lookup_insert_eq. reflexivity.
    + rewrite !lookup_insert_ne by congruence. apply IH.
      destruct Hin as [Hin|Hin]; [exact Hin|].
      apply list_elem_of_singleton in Hin. contradiction.
Qed.

(** ** Runs that return *)

(** The loop returns when no path it writes is a directory. *)
Lemma export_loop_returns img dir orig entries w :
  heap w !! img = Some orig →
  (∀ e, e ∈ entries → fs w !! os_path_join dir e.1 ≠ Some Dir) →
  ∃ w', for_ entries (export_step img dir) w = (Ok tt, w').
Proof.
  revert w. induction entries as [|[name size] entries IH]; intros w Himg Hfree.
  - eexists. reflexivity.
  - cbn [for_]. unfold mbind at 1, M_bind at 1.
    assert (Hstep : ∃ w1, export_step img dir (name, size) w = (Ok tt, w1)
              ∧ heap w1 !! img = Some orig
              ∧ ∀ p, fs w1 !! p = Some Dir → fs w !! p = Some Dir).
    { unfold export_step, Image_resize, Image_save, print, emit, write_file,
        deref, alloc, mbind, M_bind. cbn [fs heap trace]. rewrite Himg.
      cbn [fs heap trace]. rewrite lookup_app_r, Nat.sub_diag by lia.
      cbn [lookup list_lookup fs heap trace].
      pose proof (Hfree (name, size) ltac:(apply list_elem_of_here)) as Hp.
      cbn [fst] in Hp.
      destruct (fs w !! os_path_join dir name) as [[|d0]|] eqn:E;
        [congruence| |]; cbn [fs heap trace];
        (eexists; split; [reflexivity|]; cbn [fs heap trace];
         split; [apply lookup_app_l_Some, Himg|];
         intros p; destruct (decide (p = os_path_join dir name)) as [->|Hne];
         [rewrite lookup_insert_eq; discriminate
         |rewrite lookup_insert_ne by congruence; tauto]). }
    destruct Hstep as (w1 & -> & Himg1 & Hdirs).
    apply (IH w1 Himg1). intros e He Hdir.
    apply (Hfree e); [apply list_elem_of_further, He|apply Hdirs, Hdir].
Qed.

Lemma os_makedirs_returns path w :
  can_make_dir path (fs w) = true →
  os_makedirs path w
  = (Ok tt, mkWorld (made_dir path (fs w)) (heap w)
              (trace w ++ mkdir_events path (fs w))).
Proof.
  unfold can_make_dir, os_makedirs, made_dir, mkdir_events.
  destruct (fs w !! path) as [[|d]|]; [|discriminate|].
  - intros _. destruct w as [st hp tr]. cbn [fs heap trace]. rewrite app_nil_r. reflexivity.
  - destruct (bool_decide (path = "")); [discriminate|reflexivity].
Qed.

(** The exporter returns normally when the source is a decodable image, the
    two directories can be made, and no output path is a directory. *)
Lemma process_icon_returns src tauri pub w d orig :
  fs w !! src = Some (File d) → decode d = Some orig →
  can_make_dir tauri (fs w) = true →
  can_make_dir pub (made_dir tauri (fs w)) = true →
  (∀ p, p ∈ (outputs orig tauri pub).*1 →
        made_dir pub (made_dir tauri (fs w)) !! p ≠ Some Dir) →
  ∃ w', process_icon src tauri pub w = (Ok tt, w').
Proof.
  intros Hsrc Hdec Hcan1 Hcan2 Hfree.
  pose proof (os_makedirs_returns tauri w Hcan1) as Hmk1.
  set (w1 := mkWorld (made_dir tauri (fs w)) (heap w)
               (trace w ++ mkdir_events tauri (fs w))) in *.
  pose proof (os_makedirs_returns pub w1 Hcan2) as Hmk2'.
  set (w2 := mkWorld (made_dir pub (fs w1)) (heap w1)
               (trace w1 ++ mkdir_events pub (fs w1))) in *.
  pose proof (os_makedirs_Ok _ _ _ _ Hmk1) as Hw1.
  pose proof (os_makedirs_Ok _ _ _ _ Hmk2') as Hw2.
  assert (Hfs2 : fs w2 = made_dir pub (made_dir tauri (fs w)))
    by (rewrite Hw2, Hw1; reflexivity).
  assert (Hheap2 : heap w2 = heap w) by (rewrite Hw2, Hw1; reflexivity).
  assert (Hsrc2 : fs w2 !! src = Some (File d)).
  { rewrite Hfs2, !made_dir_lookup; [exact Hsrc|by rewrite Hsrc|].
    rewrite made_dir_lookup; by rewrite Hsrc. }
  unfold process_icon, os_path_exists. unfold mbind at 1, M_bind at 1.
  rewrite bool_decide_eq_true_2 by (by rewrite Hsrc). cbn [negb].
  unfold mbind at 1, M_bind at 1. rewrite Hmk1.
  unfold mbind at 1, M_bind at 1. rewrite Hmk2'.
  unfold mbind at 1, M_bind at 1, Image_open. rewrite Hsrc2, Hdec.
  unfold alloc. unfold mbind at 1, M_bind at 1, print, emit.
  unfold mbind at 1, M_bind at 1.
  edestruct (export_loop_returns (length (heap w2)) tauri orig sizes) as [w3 Hloop];
    [| |rewrite Hloop].
  { cbn [heap]. rewrite lookup_app_r, Nat.sub_diag by lia. reflexivity. }
  { cbn [fs]. intros e He. rewrite Hfs2. apply Hfree. unfold outputs.
    rewrite fmap_app, elem_of_app. left. rewrite <- list_fmap_compose.
    apply list_elem_of_fmap. exists e. split; [reflexivity|exact He]. }
  apply (export_loop_Ok _ _ orig) in Hloop as (Hf3 & Hh3 & Ht3);
    [|cbn [heap]; rewrite lookup_app_r, Nat.sub_diag by lia; reflexivity].
  cbn [fs heap trace] in Hf3, Hh3, Ht3.
  assert (Himg3 : heap w3 !! length (heap w2) = Some orig).
  { rewrite Hh3, <- app_assoc. apply list_lookup_middle. reflexivity. }
  assert (Hdirs : ∀ ws st p, written ws st !! p = Some Dir → st !! p = Some Dir).
  { intros ws. induction ws as [|[q dq] ws IHws] using rev_ind; intros st p.
    - intros Hp. exact Hp.
    - rewrite written_snoc. destruct (decide (p = q)) as [->|Hne].
      + rewrite lookup_insert_eq. discriminate.
      + rewrite lookup_insert_ne by congruence. apply IHws. }
  unfold mbind at 1, M_bind at 1, Image_save_ico, mbind at 1, M_bind at 1,
    deref, write_file.
  rewrite Himg3.
  destruct (fs w3 !! os_path_join tauri "icon.ico") as [[|d1]|] eqn:E1.
  { exfalso. rewrite Hf3 in E1. apply Hdirs in E1. rewrite Hfs2 in E1.
    revert E1. apply Hfree. unfold outputs. rewrite fmap_app, elem_of_app.
    right. apply list_elem_of_here. }
  all: assert (Hpub : fs w3 !! os_path_join pub "icon.png" ≠ Some Dir)
    by (intros E2; rewrite Hf3 in E2; apply Hdirs in E2; rewrite Hfs2 in E2;
        revert E2; apply Hfree; unfold outputs;
        rewrite fmap_app, elem_of_app; right;
        apply list_elem_of_further, list_elem_of_here).
  all: assert (Hne : os_path_join tauri "icon.ico" ≠ os_path_join pub "icon.png")
    by (intros Heq; apply join_same_file in Heq; [discriminate|reflexivity..]).
  all: unfold mbind at 1, M_bind at 1;
    unfold mbind at 1, M_bind at 1, Image_resize, mbind at 1, M_bind at 1,
      deref, alloc; cbn [fs heap trace]; rewrite Himg3;
    unfold mbind at 1, M_bind at 1, Image_save, mbind at 1, M_bind at 1,
      deref, write_file; cbn [fs heap trace];
    rewrite lookup_app_r, Nat.sub_diag by lia;
    cbn [lookup list_lookup fs heap trace];
    rewrite lookup_insert_ne by exact Hne;
    destruct (fs w3 !! os_path_join pub "icon.png") as [[|d2]|];
    [congruence|eexists; reflexivity|eexists; reflexivity].
Qed.
(** ** Determinism *)

(** C8: two runs of the exporter that find the same file content at their
    source paths and return, from any two worlds, write the same files with
    the same contents, in the same order, and every path they wrote holds
    the same content afterwards; two runs of the generator with the same
    canvas size that return, from any two worlds and to any two paths,
    write the same image, and it is what their output paths hold. *)
Theorem runs_are_deterministic :
  (∀ src1 src2 tauri pub w1 w2 w1' w2',
     is_Some (fs w1 !! src1) → fs w1 !! src1 = fs w2 !! src2 →
     process_icon src1 tauri pub w1 = (Ok tt, w1') →
     process_icon src2 tauri pub w2 = (Ok tt, w2') →
     writes (since w1 w1') = writes (since w2 w2')
     ∧ ∀ p, p ∈ (writes (since w1 w1')).*1 → fs w1' !! p = fs w2' !! p)
  ∧ (∀ path1 path2 size w1 w2 w1' w2',
     create_gradient_icon path1 size w1 = (Ok tt, w1') →
     create_gradient_icon path2 size w2 = (Ok tt, w2') →
     (writes (since w1 w1')).*2 = (writes (since w2 w2')).*2
     ∧ fs w1' !! path1 = fs w2' !! path2
     ∧ (path1 = path2 → writes (since w1 w1') = writes (since w2 w2'))).
Proof.
  split.
  - intros src1 src2 tauri pub w1 w2 w1' w2' Hsrc Hsame Hrun1 Hrun2.
    assert (Hsrc2 : is_Some (fs w2 !! src2)) by (rewrite <- Hsame; exact Hsrc).
    destruct (process_icon_run _ _ _ _ _ _ Hsrc Hrun1)
      as (d1 & orig1 & Hd1 & Hdec1 & Hfs1 & _ & Hw1).
    destruct (process_icon_run _ _ _ _ _ _ Hsrc2 Hrun2)
      as (d2 & orig2 & Hd2 & Hdec2 & Hfs2 & _ & Hw2).
    assert (orig1 = orig2) as <- by congruence.
    rewrite Hw1, Hw2, Hfs1, Hfs2. split; [reflexivity|].
    intros p Hp. apply written_lookup_same, Hp.
  - intros path1 path2 size w1 w2 w1' w2' Hrun1 Hrun2.
    apply create_gradient_icon_Ok in Hrun1 as (Hfs1 & _ & Ht1).
    apply create_gradient_icon_Ok in Hrun2 as (Hfs2 & _ & Ht2).
    rewrite (since_app _ _ _ Ht1), (since_app _ _ _ Ht2), Hfs1, Hfs2.
    rewrite !lookup_insert_eq. split; [reflexivity|]. split; [reflexivity|].
    intros ->. reflexivity.
Qed.
End ScriptProperties.

(** * Further properties of the two scripts *)

Section Coverage.
Context `{!Pillow, !Libm}.

(** ** Relations every run of a computation respects *)

Lemma respects_bind (R : relation (gmap string node)) `{!PreOrder R}
    {A B : Type} (m : M A) (f : A → M B) :
  respects R m → (∀ a, respects R (f a)) → respects R (m ≫= f).
Proof.
  intros Hm Hf w r w'. unfold mbind, M_bind.
  destruct (m w) as [[a|e] w1] eqn:E.
  - intros Hk. transitivity (fs w1); [eapply Hm, E|eapply Hf, Hk].
  - intros [= _ <-]. eapply Hm, E.
Qed.

Lemma respects_for (R : relation (gmap string node)) `{!PreOrder R}
    {A : Type} (xs : list A) (body : A → M unit) :
  (∀ x, x ∈ xs → respects R (body x)) → respects R (for_ xs body).
Proof.
  induction xs as [|x xs IH]; intros Hbody; cbn [for_].
  - intros w r w' [= _ <-]. reflexivity.
  - apply respects_bind; [exact _|apply Hbody, list_elem_of_here|intros _].
    apply IH. intros y Hy. apply Hbody, list_elem_of_further, Hy.
Qed.

(** A computation that leaves the store as it is. *)
Lemma respects_same_store (R : relation (gmap string node)) `{!PreOrder R}
    {A : Type} (m : M A) :
  (∀ w r w', m w = (r, w') → fs w' = fs w) → respects R m.
Proof. intros Hm w r w' Hrun. rewrite (Hm _ _ _ Hrun). reflexivity. Qed.

Lemma same_store_ret {A : Type} (a : A) w r w' :
  (mret a : M A) w = (r, w') → fs w' = fs w.
Proof. intros [= _ <-]. reflexivity. Qed.

Lemma same_store_emit (ev : event) w r w' :
  emit ev w = (r, w') → fs w' = fs w.
Proof. intros [= _ <-]. reflexivity. Qed.

Lemma same_store_raise {A : Type} (e : exn) w r w' :
  @raise _ A e w = (r, w') → fs w' = fs w.
Proof. intros [= _ <-]. reflexivity. Qed.

Lemma same_store_alloc (im : Image) w r w' :
  alloc im w = (r, w') → fs w' = fs w.
Proof. intros [= _ <-]. reflexivity. Qed.

Lemma same_store_deref (x : nat) w r w' :
  deref x w = (r, w') → fs w' = fs w.
Proof. unfold deref. destruct (heap w !! x); intros [= _ <-]; reflexivity. Qed.

Lemma same_store_assign (x : nat) (im : Image) w r w' :
  assign x im w = (r, w') → fs w' = fs w.
Proof. intros [= _ <-]. reflexivity. Qed.

Lemma same_store_exists (path : string) w r w' :
  os_path_exists path w = (r, w') → fs w' = fs w.
Proof. intros [= _ <-]. reflexivity. Qed.

Lemma same_store_open (path : string) w r w' :
  Image_open path w = (r, w') → fs w' = fs w.
Proof.
  unfold Image_open, alloc.
  destruct (fs w !! path) as [[|d]|]; [| |]; try (intros [= _ <-]; reflexivity).
  destruct (decode d); intros [= _ <-]; reflexivity.
Qed.

(** *** Keeping the nodes *)

#[local] Instance keeps_nodes_preorder : PreOrder keeps_nodes.
Proof.
  split.
  - intros st p. destruct (st !! p) as [[|d]|]; eauto.
  - intros st1 st2 st3 H12 H23 p. specialize (H12 p). specialize (H23 p).
    destruct (st1 !! p) as [[|d]|]; [| |exact I].
    + rewrite H12 in H23. exact H23.
    + destruct H12 as [d2 H12]. rewrite H12 in H23. exact H23.
Qed.

Lemma keeps_nodes_makedirs (path : string) :
  respects keeps_nodes (os_makedirs path).
Proof.
  intros w r w'. unfold os_makedirs.
  destruct (fs w !! path) as [[|d]|] eqn:E;
    try (intros [= _ <-]; reflexivity).
  destruct (bool_decide (path = "")); intros [= _ <-]; [reflexivity|].
  cbn [fs]. intros p. destruct (decide (p = path)) as [->|Hne].
  - rewrite E. exact I.
  - rewrite lookup_insert_ne by congruence.
    destruct (fs w !! p) as [[|d]|]; eauto.
Qed.

Lemma keeps_nodes_write (path : string) (d : file_data) :
  respects keeps_nodes (write_file path d).
Proof.
  intros w r w'. unfold write_file.
  destruct (fs w !! path) as [[|d0]|] eqn:E; intros [= _ <-];
    [reflexivity| |]; cbn [fs]; intros p;
    (destruct (decide (p = path)) as [->|Hne];
     [rewrite E, ?lookup_insert_eq; eauto
     |rewrite lookup_insert_ne by congruence;
      destruct (fs w !! p) as [[|d1]|]; eauto]).
Qed.

(** *** Leaving a path alone *)

#[local] Instance kept_at_preorder (p : string) (dirs : list string) :
  PreOrder (kept_at p dirs).
Proof.
  split.
  - intros st _. reflexivity.
  - intros st1 st2 st3 H12 H23 Hp. rewrite <- (H12 Hp). apply H23.
    destruct Hp as [Hp|Hp]; [left; rewrite (H12 (or_introl Hp)); exact Hp|].
    right. exact Hp.
Qed.

Lemma kept_at_makedirs (p : string) (dirs : list string) (path : string) :
  path ∈ dirs → respects (kept_at p dirs) (os_makedirs path).
Proof.
  intros Hin w r w'. unfold os_makedirs.
  destruct (fs w !! path) as [[|d]|] eqn:E;
    try (intros [= _ <-]; reflexivity).
  destruct (bool_decide (path = "")); intros [= _ <-]; [reflexivity|].
  cbn [fs]. intros [Hp|Hp]; apply lookup_insert_ne; intros ->.
  - rewrite E in Hp. destruct Hp; discriminate.
  - contradiction.
Qed.

Lemma kept_at_write (p : string) (dirs : list string) (path : string)
    (d : file_data) :
  path ≠ p → respects (kept_at p dirs) (write_file path d).
Proof.
  intros Hne w r w'. unfold write_file.
  destruct (fs w !! path) as [[|d0]|]; intros [= _ <-]; [reflexivity| |];
    intros _; apply lookup_insert_ne, Hne.
Qed.

(** Splits a script into its primitives; what is left are the writes and
    the directory creations. *)
Ltac respect :=
  repeat first
    [ apply respects_for; [exact _|intros ? ?]
    | apply respects_bind; [exact _| |intros ?]
    | apply respects_same_store; [exact _|];
      first [ apply same_store_ret | apply same_store_emit
            | apply same_store_raise | apply same_store_alloc
            | apply same_store_deref | apply same_store_assign
            | apply same_store_exists | apply same_store_open ]
    | apply keeps_nodes_makedirs
    | apply keeps_nodes_write
    | match goal with |- respects _ (match ?x with _ => _ end) => destruct x end
    | match goal with |- respects _ (if ?b then _ else _) => destruct b end
    | match goal with |- respects _ (let '(_, _) := ?x in _) => destruct x end ].

Lemma process_icon_keeps_nodes (src tauri pub : string) :
  respects keeps_nodes (process_icon src tauri pub).
Proof.
  unfold process_icon, export_step, Image_resize, Image_save, Image_save_ico,
    print.
  respect.
Qed.

Lemma create_gradient_icon_keeps_nodes (path : string) (size : Z) :
  respects keeps_nodes (create_gradient_icon path size).
Proof.
  unfold create_gradient_icon, Image_new, stroke_step,
    ImageDraw_rounded_rectangle, ImageDraw_ellipse, Image_save, print.
  generalize (Py.range steps). intros indices.
  respect.
Qed.

Lemma process_icon_kept_at (src tauri pub p : string) :
  p ∉ output_paths tauri pub →
  respects (kept_at p [tauri; pub]) (process_icon src tauri pub).
Proof.
  intros Hp.
  assert (Hico : os_path_join tauri "icon.ico" ≠ p).
  { intros <-. apply Hp. unfold output_paths.
    apply elem_of_app. right. apply list_elem_of_here. }
  assert (Hpub : os_path_join pub "icon.png" ≠ p).
  { intros <-. apply Hp. unfold output_paths.
    apply elem_of_app. right. apply list_elem_of_further, list_elem_of_here. }
  assert (Hall : ∀ name size, (name, size) ∈ sizes → os_path_join tauri name ≠ p).
  { intros name size Hin <-. apply Hp. unfold output_paths.
    apply elem_of_app. left. apply list_elem_of_fmap.
    exists name. split; [reflexivity|].
    apply list_elem_of_fmap. exists (name, size). split; [reflexivity|exact Hin]. }
  revert Hall. unfold process_icon, export_step, Image_resize, Image_save,
    Image_save_ico, print.
  generalize sizes. intros entries Hall.
  respect;
    first [ apply kept_at_makedirs; set_solver
          | apply kept_at_write; eauto ].
Qed.

Lemma respects_run {A : Type} (m : M A) w r w' :
  m w = (r, w') → respects keeps_nodes m → keeps_nodes (fs w) (fs w').
Proof. intros Hrun Hm. exact (Hm _ _ _ Hrun). Qed.

(** ** More on the exporter's runs *)

Lemma outputs_paths orig tauri pub :
  (outputs orig tauri pub).*1 = output_paths tauri pub.
Proof. reflexivity. Qed.

Lemma made_dir_other path store p :
  p ≠ path → made_dir path store !! p = store !! p.
Proof.
  intros Hne. unfold made_dir. destruct (store !! path); [reflexivity|].
  apply lookup_insert_ne. congruence.
Qed.

Lemma made_dir_is_dir path store :
  can_make_dir path store = true → made_dir path store !! path = Some Dir.
Proof.
  unfold can_make_dir, made_dir.
  destruct (store !! path) as [[|d]|] eqn:E; try discriminate; intros _.
  - exact E.
  - apply lookup_insert_eq.
Qed.

Lemma os_makedirs_can path w u w' :
  os_makedirs path w = (Ok u, w') → can_make_dir path (fs w) = true.
Proof.
  unfold os_makedirs, can_make_dir.
  destruct (fs w !! path) as [[|d]|]; try discriminate; [reflexivity|].
  destruct (bool_decide (path = "")); [discriminate|reflexivity].
Qed.

(** What a returning run knows about the directories and the output paths
    before it wrote anything. *)
Lemma process_icon_conditions src tauri pub w u w' :
  is_Some (fs w !! src) →
  process_icon src tauri pub w = (Ok u, w') →
  can_make_dir tauri (fs w) = true
  ∧ can_make_dir pub (made_dir tauri (fs w)) = true
  ∧ keeps_nodes (made_dir pub (made_dir tauri (fs w))) (fs w').
Proof.
  intros Hsrc. unfold process_icon.
  intros (found & w0 & Hex & Hk)%bind_Ok.
  unfold os_path_exists in Hex. injection Hex as <- <-.
  rewrite bool_decide_eq_true_2 in Hk by exact Hsrc. cbn [negb] in Hk.
  apply bind_Ok in Hk as (? & w1 & Hmk1 & Hk).
  apply bind_Ok in Hk as (? & w2 & Hmk2 & Hk).
  pose proof (os_makedirs_can _ _ _ _ Hmk1) as Hcan1.
  pose proof (os_makedirs_can _ _ _ _ Hmk2) as Hcan2.
  apply os_makedirs_Ok in Hmk1 as ->. apply os_makedirs_Ok in Hmk2 as ->.
  cbn [fs] in *. split; [exact Hcan1|]. split; [exact Hcan2|].
  apply (respects_run _ _ _ _ Hk).
  unfold export_step, Image_resize, Image_save, Image_save_ico, print.
  respect.
Qed.

(** Each output file holds the resize of the loaded image, not only an image
    of the right size. *)
Lemma exported_file_content src tauri pub w u w' d orig :
  fs w !! src = Some (File d) → decode d = Some orig →
  process_icon src tauri pub w = (Ok u, w') →
  (∀ name size, (name, size) ∈ sizes →
     fs w' !! os_path_join tauri name
     = Some (File (PngData (resized_image orig size))))
  ∧ fs w' !! os_path_join pub "icon.png"
    = Some (File (PngData (resized_image orig (512, 512)))).
Proof.
  intros Hd Hdec Hrun.
  destruct (process_icon_run _ _ _ _ _ _ ltac:(by rewrite Hd) Hrun)
    as (d0 & orig0 & Hd0 & Hdec0 & Hfs & _ & _).
  assert (d0 = d) as -> by congruence.
  assert (orig0 = orig) as -> by congruence.
  rewrite Hfs. clear Hfs Hrun.
  assert (Hpng : ("icon.png", (512, 512)) ∈ sizes)
    by (unfold sizes; apply list_elem_of_here).
  split.
  - intros name size Hin.
    destruct (sizes_plain_names _ _ Hin) as [Hplain Hico].
    destruct (written_lookup_in
                (λ x, x = PngData (resized_image orig size))
                (outputs orig tauri pub)
                (made_dir pub (made_dir tauri (fs w)))
                (os_path_join tauri name)) as (x & Hx & ->); [| |exact Hx].
    + eexists. apply outputs_elem. left. exists name, size.
      split; [exact Hin|]. split; reflexivity.
    + intros x [(name' & size' & Hin' & Hp & ->)|[[Hp ->]|[Hp ->]]]%outputs_elem.
      * destruct (sizes_plain_names _ _ Hin') as [Hplain' _].
        apply join_same_file in Hp as <-; [|assumption..].
        rewrite (sizes_functional _ _ _ Hin Hin'). reflexivity.
      * apply join_same_file in Hp; [|assumption|reflexivity]. contradiction.
      * apply join_same_file in Hp as ->; [|assumption|reflexivity].
        rewrite (sizes_functional _ _ _ Hin Hpng). reflexivity.
  - destruct (written_lookup_in
                (λ x, x = PngData (resized_image orig (512, 512)))
                (outputs orig tauri pub)
                (made_dir pub (made_dir tauri (fs w)))
                (os_path_join pub "icon.png")) as (x & Hx & ->); [| |exact Hx].
    + eexists. apply outputs_elem. right. right. split; reflexivity.
    + intros x [(name' & size' & Hin' & Hp & ->)|[[Hp ->]|[Hp ->]]]%outputs_elem.
      * destruct (sizes_plain_names _ _ Hin') as [Hplain' _].
        apply join_same_file in Hp as <-; [|reflexivity|assumption].
        rewrite (sizes_functional _ _ _ Hin' Hpng). reflexivity.
      * apply join_same_file in Hp; [discriminate|reflexivity..].
      * reflexivity.
Qed.

(** X1: with fewer than two arguments the exporter prints its usage line and
    exits with status 1, touching neither the store nor the heap; with two or
    more, the arguments after the source path are ignored. *)
Theorem exporter_usage_error (argv : list string) (cwd : string) (w : world) :
  (length argv < 2)%nat →
  exporter_main argv cwd w
  = (Raise (SystemExit 1),
     mkWorld (fs w) (heap w)
       (trace w ++ [Print "Usage: python process_icons.py <path_to_source_image>"]))
  ∧ exit_status (exporter_main argv cwd w).1 = 1
  ∧ ∀ prog src rest,
      exporter_main (prog :: src :: rest) cwd w = exporter_main [prog; src] cwd w.
Proof.
  intros Hlen. unfold exporter_main.
  rewrite bool_decide_eq_true_2 by exact Hlen.
  split; [reflexivity|]. split; [reflexivity|].
  intros prog src rest.
  rewrite !bool_decide_eq_false_2 by (cbn [length]; lia). reflexivity.
Qed.

(** X2: a run that found its source and returned wrote sixteen times, to the
    fourteen table names in table order, then [icon.ico], both in the
    packaging directory, then [icon.png] in the public directory; the
    fifteen packaging paths are pairwise distinct, and the public path can
    only coincide with the packaging [icon.png]. *)
Theorem exporter_writes_in_order (src tauri pub : string) (w w' : world) :
  is_Some (fs w !! src) →
  process_icon src tauri pub w = (Ok tt, w') →
  (writes (since w w')).*1 = output_paths tauri pub
  ∧ length (writes (since w w')) = 16%nat
  ∧ NoDup (take 15 (output_paths tauri pub))
  ∧ (os_path_join pub "icon.png" ∈ take 15 (output_paths tauri pub) →
     os_path_join pub "icon.png" = os_path_join tauri "icon.png").
Proof.
  intros Hsrc Hrun.
  destruct (process_icon_run _ _ _ _ _ _ Hsrc Hrun)
    as (d0 & orig & _ & _ & _ & _ & Hw).
  rewrite Hw. split; [reflexivity|]. split; [reflexivity|].
  assert (Hnames : take 15 (output_paths tauri pub)
                   = os_path_join tauri <$> (sizes.*1 ++ ["icon.ico"]))
    by reflexivity.
  assert (Hplain : ∀ n, n ∈ sizes.*1 ++ ["icon.ico"] → has_sep n = false).
  { intros n [Hn|Hn]%elem_of_app.
    - apply list_elem_of_fmap in Hn as ([n' sz] & -> & Hin).
      apply (sizes_plain_names _ _ Hin).
    - apply list_elem_of_singleton in Hn as ->. reflexivity. }
  rewrite Hnames. split.
  - apply NoDup_fmap_2_strong.
    + intros a b Ha Hb. apply join_same_file; auto.
    + apply NoDup_app. split; [exact sizes_NoDup|]. split; [|apply NoDup_singleton].
      intros n Hn ->%list_elem_of_singleton.
      apply list_elem_of_fmap in Hn as ([n' sz] & Heq & Hin).
      cbn [fst] in Heq. subst n'.
      destruct (sizes_plain_names _ _ Hin) as [_ Hne]. contradiction.
  - intros (n & Heq & Hn)%list_elem_of_fmap.
    assert (Hpng : has_sep "icon.png" = false) by reflexivity.
    pose proof (join_same_file _ _ _ _ Hpng (Hplain _ Hn) Heq) as <-.
    exact Heq.
Qed.

(** X4: whatever their outcome, neither script removes a path from the
    store, turns a directory into a file or a file into a directory. *)
Theorem scripts_keep_nodes :
  (∀ argv cwd w r w' p,
     exporter_main argv cwd w = (r, w') →
     (fs w !! p = Some Dir → fs w' !! p = Some Dir)
     ∧ (∀ d, fs w !! p = Some (File d) → ∃ d', fs w' !! p = Some (File d')))
  ∧ (∀ path size w r w' p,
     create_gradient_icon path size w = (r, w') →
     (fs w !! p = Some Dir → fs w' !! p = Some Dir)
     ∧ (∀ d, fs w !! p = Some (File d) → ∃ d', fs w' !! p = Some (File d'))).
Proof.
  assert (Hread : ∀ st st' p, keeps_nodes st st' →
            (st !! p = Some Dir → st' !! p = Some Dir)
            ∧ (∀ d, st !! p = Some (File d) → ∃ d', st' !! p = Some (File d'))).
  { intros st st' p Hk. specialize (Hk p).
    split; [intros E|intros d E]; rewrite E in Hk; exact Hk. }
  split.
  - intros argv cwd w r w' p Hrun. apply Hread.
    apply (respects_run _ _ _ _ Hrun). unfold exporter_main.
    destruct (bool_decide _).
    + unfold print. respect.
    + apply process_icon_keeps_nodes.
  - intros path size w r w' p Hrun. apply Hread.
    apply (respects_run _ _ _ _ Hrun), create_gradient_icon_keeps_nodes.
Qed.

(** X5: run on one of its own outputs, the exporter overwrites its source:
    when the source path is the packaging path of a table entry, a run that
    returns leaves there the resize of the image it loaded. *)
Theorem exporter_overwrites_own_output
    (tauri pub name : string) (size : Z * Z) (w w' : world)
    (d : file_data) (orig : Image) :
  (name, size) ∈ sizes →
  fs w !! os_path_join tauri name = Some (File d) → decode d = Some orig →
  process_icon (os_path_join tauri name) tauri pub w = (Ok tt, w') →
  fs w' !! os_path_join tauri name
  = Some (File (PngData (resized_image orig size))).
Proof.
  intros Hin Hd Hdec Hrun.
  destruct (exported_file_content _ _ _ _ _ _ _ _ Hd Hdec Hrun) as [Hall _].
  apply Hall, Hin.
Qed.

(** ** Running the exporter again *)

Lemma written_idem ws store :
  written ws (written ws store) = written ws store.
Proof.
  apply map_eq. intros p. destruct (decide (p ∈ ws.*1)) as [Hin|Hout].
  - apply written_lookup_same, Hin.
  - apply written_lookup_notin, Hout.
Qed.

Lemma written_lookup_file ws store p :
  p ∈ ws.*1 → ∃ d, written ws store !! p = Some (File d).
Proof.
  intros ([p' d] & -> & Hin)%list_elem_of_fmap.
  destruct (written_lookup_in (λ _, True) ws store p') as (d' & Hd' & _).
  - exists d. exact Hin.
  - intros _ _. exact I.
  - exists d'. exact Hd'.
Qed.

Lemma written_lookup_NoDup ws store p d :
  NoDup ws.*1 → (p, d) ∈ ws → written ws store !! p = Some (File d).
Proof.
  intros Hnd Hin.
  destruct (written_lookup_in (λ x, x = d) ws store p) as (d' & Hd' & ->).
  - exists d. exact Hin.
  - intros d' Hin'.
    pose proof (elem_of_list_to_map_1 (M := gmap string) _ _ _ Hnd Hin) as E1.
    pose proof (elem_of_list_to_map_1 (M := gmap string) _ _ _ Hnd Hin') as E2.
    congruence.
  - exact Hd'.
Qed.

Lemma made_dir_id path store :
  is_Some (store !! path) → made_dir path store = store.
Proof. intros [n Hn]. unfold made_dir. rewrite Hn. reflexivity. Qed.

Lemma mkdir_events_nil path store :
  is_Some (store !! path) → mkdir_events path store = [].
Proof. intros [n Hn]. unfold mkdir_events. rewrite Hn. reflexivity. Qed.

Lemma export_events_no_mkdir orig src tauri pub p :
  Mkdir p ∉ export_events orig src tauri pub.
Proof.
  unfold export_events. rewrite elem_of_cons, elem_of_app, list_elem_of_bind.
  intros [Hp|[(e & Hin & _)|Hin]]; [discriminate| |].
  - unfold export_step_events in Hin.
    apply elem_of_cons in Hin as [Hin|Hin]; [discriminate|].
    apply list_elem_of_singleton in Hin. discriminate.
  - repeat (apply elem_of_cons in Hin as [Hin|Hin]; [discriminate|]).
    inversion Hin.
Qed.

(** The two directories are there after a run that returned. *)
Lemma process_icon_dirs src tauri pub w u w' :
  is_Some (fs w !! src) →
  process_icon src tauri pub w = (Ok u, w') →
  fs w' !! tauri = Some Dir ∧ fs w' !! pub = Some Dir.
Proof.
  intros Hsrc Hrun.
  destruct (process_icon_conditions _ _ _ _ _ _ Hsrc Hrun)
    as (Hcan1 & Hcan2 & Hkeep).
  pose proof (made_dir_is_dir _ _ Hcan1) as Ht.
  pose proof (made_dir_is_dir _ _ Hcan2) as Hp.
  split.
  - specialize (Hkeep tauri).
    rewrite made_dir_lookup, Ht in Hkeep by (rewrite Ht; eauto). exact Hkeep.
  - specialize (Hkeep pub). rewrite Hp in Hkeep. exact Hkeep.
Qed.

(** X6: a run that returned can be repeated: when the source is none of the
    output paths, a second run from the world the first one left returns
    too, writes the same sixteen files with the same contents, makes no
    directory, and leaves the store exactly as the first run left it. *)
Theorem exporter_rerun_changes_nothing (src tauri pub : string)
    (w w' : world) :
  is_Some (fs w !! src) →
  src ∉ output_paths tauri pub →
  process_icon src tauri pub w = (Ok tt, w') →
  ∃ w'', process_icon src tauri pub w' = (Ok tt, w'')
    ∧ fs w'' = fs w'
    ∧ writes (since w' w'') = writes (since w w')
    ∧ ∀ p, Mkdir p ∉ since w' w''.
Proof.
  intros Hsrc Hout Hrun.
  destruct (process_icon_run _ _ _ _ _ _ Hsrc Hrun)
    as (d & orig & Hd & Hdec & Hfs & _ & Hw).
  destruct (process_icon_dirs _ _ _ _ _ _ Hsrc Hrun) as [Ht Hp].
  assert (Hd' : fs w' !! src = Some (File d)).
  { rewrite <- Hd.
    apply (process_icon_kept_at src tauri pub src Hout _ _ _ Hrun).
    left. exact Hsrc. }
  assert (Hmade : made_dir pub (made_dir tauri (fs w')) = fs w').
  { rewrite (made_dir_id tauri) by (rewrite Ht; eauto).
    apply made_dir_id. rewrite Hp. eauto. }
  destruct (process_icon_returns src tauri pub w' d orig Hd' Hdec)
    as [w'' Hrun'].
  - unfold can_make_dir. rewrite Ht. reflexivity.
  - rewrite (made_dir_id tauri) by (rewrite Ht; eauto).
    unfold can_make_dir. rewrite Hp. reflexivity.
  - intros p Hin. rewrite Hmade, Hfs.
    destruct (written_lookup_file _ (made_dir pub (made_dir tauri (fs w))) _ Hin)
      as [x ->].
    discriminate.
  - exists w''. split; [exact Hrun'|].
    assert (Hsrc' : is_Some (fs w' !! src)) by (rewrite Hd'; eauto).
    destruct (process_icon_Ok _ _ _ _ _ _ Hsrc' Hrun')
      as (d2 & orig2 & Hd2 & Hdec2 & Hfs2 & _ & Htr2).
    assert (d2 = d) as -> by congruence.
    assert (orig2 = orig) as -> by congruence.
    rewrite (mkdir_events_nil tauri) in Htr2 by (rewrite Ht; eauto).
    rewrite (made_dir_id tauri) in Htr2 by (rewrite Ht; eauto).
    rewrite (mkdir_events_nil pub) in Htr2 by (rewrite Hp; eauto).
    cbn [app] in Htr2. rewrite (since_app _ _ _ Htr2).
    split; [|split].
    + rewrite Hfs2, Hmade, Hfs. apply written_idem.
    + rewrite Hw. apply writes_export_events.
    + intros p. apply export_events_no_mkdir.
Qed.

(** ** The generator's canvas *)

Lemma paint_size size im i : im_size (paint size im i) = im_size im.
Proof. unfold paint. destruct (sample size i); reflexivity. Qed.

Lemma stroke_size size im indices :
  im_size (foldl (paint size) im indices) = im_size im.
Proof.
  revert im. induction indices as [|i indices IH]; intros im; [reflexivity|].
  cbn [foldl]. rewrite IH. apply paint_size.
Qed.

Lemma canvas_size size : im_size (canvas size) = (size, size).
Proof.
  unfold canvas. generalize (Py.range steps). intros indices.
  cbn [im_size]. apply stroke_size.
Qed.

(** X11: the two scripts in a row: when the generator's main and then the
    exporter on [icon_master.png] both return, every output of the exporter
    is a resize of the 1024 x 1024 picture the generator drew. *)
Theorem generated_master_is_exported (tauri pub : string) (w w' : world) :
  (generator_main;; process_icon "icon_master.png" tauri pub) w
  = (Ok tt, w') →
  im_size (canvas 1024) = (1024, 1024)
  ∧ (∀ name size, (name, size) ∈ sizes →
       fs w' !! os_path_join tauri name
       = Some (File (PngData (resized_image (canvas 1024) size))))
  ∧ fs w' !! os_path_join pub "icon.png"
    = Some (File (PngData (resized_image (canvas 1024) (512, 512)))).
Proof.
  intros (? & w1 & Hgen & Hexp)%bind_Ok.
  split; [apply canvas_size|].
  apply create_gradient_icon_Ok in Hgen as (Hfs1 & _ & _).
  apply (exported_file_content _ _ _ _ _ _ (PngData (canvas 1024)) _
           ltac:(rewrite Hfs1; apply lookup_insert_eq) eq_refl Hexp).
Qed.

(** ** The colours along the stroke *)

Lemma gradient_table : forallb gradient_check (Py.range steps) = true.
Proof. vm_compute. reflexivity. Qed.

(** ** The paths of the exporter's main *)

Lemma append_assoc (a b c : string) : (a +:+ b) +:+ c = a +:+ (b +:+ c).
Proof.
  induction a as [|x a IH]; [reflexivity|].
  change (String x ((a +:+ b) +:+ c) = String x (a +:+ (b +:+ c))).
  rewrite IH. reflexivity.
Qed.

Lemma append_inj_r (a b c : string) : a +:+ b = a +:+ c → b = c.
Proof.
  induction a as [|x a IH]; [intros E; exact E|].
  change (String x (a +:+ b) = String x (a +:+ c) → b = c).
  intros [= E]. apply IH, E.
Qed.

Lemma ends_with_sep_app (a : string) (c : ascii) (b : string) :
  ends_with_sep (a +:+ String c b) = ends_with_sep (String c b).
Proof.
  induction a as [|x a IH]; [reflexivity|].
  change (String x a +:+ String c b) with (String x (a +:+ String c b)).
  destruct (a +:+ String c b) as [|y rest] eqn:E; [destruct a; discriminate|].
  exact IH.
Qed.

(** [os.path.join(cwd, name)] puts [name] after [cwd], with one separator
    between them unless [cwd] is empty or brings its own. *)
Lemma join_root (cwd : string) (c : ascii) (name : string) :
  is_sep c = false →
  os_path_join cwd (String c name) = cwd_prefix cwd +:+ String c name.
Proof.
  intros Hc. unfold os_path_join, cwd_prefix. cbn [starts_with_sep].
  rewrite Hc. destruct (bool_decide (cwd = "") || ends_with_sep cwd);
    [reflexivity|].
  rewrite append_assoc. reflexivity.
Qed.

Lemma cwd_prefix_app (a : string) (c : ascii) (b : string) :
  ends_with_sep (String c b) = false →
  cwd_prefix (a +:+ String c b) = a +:+ String c b +:+ "/".
Proof.
  intros Hb. unfold cwd_prefix. rewrite ends_with_sep_app, Hb.
  rewrite bool_decide_eq_false_2 by (destruct a; discriminate).
  cbn [orb]. apply append_assoc.
Qed.

Lemma main_paths (cwd : string) :
  os_path_join (os_path_join cwd "src-tauri") "icons"
  = cwd_prefix cwd +:+ "src-tauri/icons"
  ∧ os_path_join cwd "public" = cwd_prefix cwd +:+ "public".
Proof.
  rewrite (join_root cwd "s" "rc-tauri"), (join_root cwd "p" "ublic")
    by reflexivity.
  split; [|reflexivity].
  rewrite join_root, cwd_prefix_app by reflexivity.
  rewrite append_assoc. reflexivity.
Qed.

(** X13: run through its main, the exporter writes to sixteen different
    paths, under [src-tauri/icons] and [public] of the working directory,
    whatever that directory is: no output replaces another, and every file
    written holds at the end what was written to it. *)
Theorem main_writes_sixteen_distinct_files (prog src : string)
    (rest : list string) (cwd : string) (w w' : world) :
  is_Some (fs w !! src) →
  exporter_main (prog :: src :: rest) cwd w = (Ok tt, w') →
  (writes (since w w')).*1
  = output_paths (cwd_prefix cwd +:+ "src-tauri/icons")
      (cwd_prefix cwd +:+ "public")
  ∧ NoDup (writes (since w w')).*1
  ∧ length (writes (since w w')) = 16%nat
  ∧ ∀ p d, (p, d) ∈ writes (since w w') → fs w' !! p = Some (File d).
Proof.
  intros Hsrc. unfold exporter_main.
  rewrite bool_decide_eq_false_2 by (cbn [length]; lia). cbv zeta.
  change (default "" ((prog :: src :: rest) !! 1%nat)) with src.
  destruct (main_paths cwd) as [-> ->].
  set (tauri := cwd_prefix cwd +:+ "src-tauri/icons").
  set (pub := cwd_prefix cwd +:+ "public").
  intros Hrun.
  destruct (process_icon_run _ _ _ _ _ _ Hsrc Hrun)
    as (d0 & orig & _ & _ & Hfs & _ & Hw).
  assert (Hnd : NoDup (outputs orig tauri pub).*1).
  { rewrite outputs_paths.
    assert (Hplain : ∀ n, n ∈ sizes.*1 ++ ["icon.ico"] → has_sep n = false).
    { intros n [Hn|Hn]%elem_of_app.
      - apply list_elem_of_fmap in Hn as ([n' sz] & -> & Hin).
        apply (sizes_plain_names _ _ Hin).
      - apply list_elem_of_singleton in Hn as ->. reflexivity. }
    change (output_paths tauri pub)
      with ((os_path_join tauri <$> (sizes.*1 ++ ["icon.ico"]))
            ++ [os_path_join pub "icon.png"]).
    apply NoDup_app. split; [|split; [|apply NoDup_singleton]].
    - apply NoDup_fmap_2_strong.
      + intros a b Ha Hb. apply join_same_file; auto.
      + apply NoDup_app. split; [exact sizes_NoDup|].
        split; [|apply NoDup_singleton].
        intros n Hn ->%list_elem_of_singleton.
        apply list_elem_of_fmap in Hn as ([n' sz] & Heq & Hin).
        cbn [fst] in Heq. subst n'.
        destruct (sizes_plain_names _ _ Hin) as [_ Hne]. contradiction.
    - intros p (n & -> & Hn)%list_elem_of_fmap Heq%list_elem_of_singleton.
      assert (Hpng : has_sep "icon.png" = false) by reflexivity.
      pose proof (join_same_file _ _ _ _ (Hplain _ Hn) Hpng Heq) as ->.
      unfold tauri, pub in Heq.
      rewrite !join_root, !cwd_prefix_app, !append_assoc in Heq by reflexivity.
      apply append_inj_r in Heq. discriminate. }
  rewrite Hw. split; [reflexivity|]. split; [exact Hnd|].
  split; [reflexivity|].
  intros p d Hin. rewrite Hfs. apply written_lookup_NoDup; assumption.
Qed.

(** ** Runs of the exporter that fail while writing *)

(** The exporter's loop, whatever its outcome: it wrote the files of the
    first [k] entries, and stopped there only at a directory. *)
Lemma export_loop_run img dir orig entries w r w' :
  heap w !! img = Some orig →
  for_ entries (export_step img dir) w = (r, w') →
  ∃ k evs,
    fs w' = written (take k (map (λ e, (os_path_join dir e.1,
                                       PngData (resized_image orig e.2)))
                               entries)) (fs w)
    ∧ trace w' = trace w ++ evs
    ∧ writes evs = take k (map (λ e, (os_path_join dir e.1,
                                      PngData (resized_image orig e.2)))
                              entries)
    ∧ heap w' !! img = Some orig
    ∧ ((r = Ok tt ∧ k = length entries)
       ∨ (r = Raise IsADirectoryError
          ∧ ∃ e, entries !! k = Some e
                 ∧ fs w' !! os_path_join dir e.1 = Some Dir)).
Proof.
  revert w. induction entries as [|[name size] entries IH]; intros w Himg.
  - cbn [for_]. intros [= <- <-]. exists 0%nat, [].
    rewrite app_nil_r. repeat split; try reflexivity; [exact Himg|].
    left. split; reflexivity.
  - cbn [for_]. unfold mbind at 1, M_bind at 1.
    destruct (export_step img dir (name, size) w) as [[u|e] w1] eqn:Hstep.
    + apply (export_step_Ok _ _ _ orig) in Hstep as (Hf & Hh & Ht);
        [|exact Himg].
      intros Hrest.
      apply IH in Hrest as (k & evs & Hfs & Htr & Hws & Hheap & Hout);
        [|rewrite Hh; apply lookup_app_l_Some, Himg].
      exists (S k), (export_step_events orig dir (name, size) ++ evs).
      split; [rewrite Hfs, Hf; reflexivity|].
      split; [rewrite Htr, Ht, app_assoc; reflexivity|].
      split; [rewrite writes_app, Hws; reflexivity|].
      split; [exact Hheap|].
      destruct Hout as [[-> ->]|[-> Hdir]]; [left; split; reflexivity|].
      right. split; [reflexivity|exact Hdir].
    + intros [= <- <-]. revert Hstep.
      unfold export_step, Image_resize, Image_save, mbind, M_bind, deref,
        alloc, write_file, print, emit.
      cbn [fs heap trace]. rewrite Himg. cbn [fs heap trace].
      rewrite lookup_app_r, Nat.sub_diag by lia.
      cbn [lookup list_lookup fs heap trace].
      destruct (fs w !! os_path_join dir name) as [[|d0]|] eqn:E;
        [|intros Hstep; discriminate Hstep..].
      intros [= <- <-]. exists 0%nat, []. cbn [fs heap trace take written foldl].
      rewrite app_nil_r. repeat split; try reflexivity.
      * apply lookup_app_l_Some, Himg.
      * right. split; [reflexivity|]. exists (name, size).
        split; [reflexivity|exact E].
Qed.

Lemma written_dir ws store p :
  written ws store !! p = Some Dir → store !! p = Some Dir.
Proof.
  revert store. induction ws as [|[q dq] ws IH] using rev_ind; intros st.
  - intros Hp. exact Hp.
  - rewrite written_snoc. destruct (decide (p = q)) as [->|Hne].
    + rewrite lookup_insert_eq. discriminate.
    + rewrite lookup_insert_ne by congruence. apply IH.
Qed.

(** A run that fails after the source is loaded. *)
Lemma process_icon_failure (src tauri pub : string)
    (w w' : world) (e : exn) (d : file_data) (orig : Image) :
  fs w !! src = Some (File d) → decode d = Some orig →
  can_make_dir tauri (fs w) = true →
  can_make_dir pub (made_dir tauri (fs w)) = true →
  process_icon src tauri pub w = (Raise e, w') →
  e = IsADirectoryError
  ∧ ∃ k p, output_paths tauri pub !! k = Some p
      ∧ made_dir pub (made_dir tauri (fs w)) !! p = Some Dir
      ∧ writes (since w w') = take k (outputs orig tauri pub)
      ∧ fs w' = written (take k (outputs orig tauri pub))
                  (made_dir pub (made_dir tauri (fs w))).
Proof.
  intros Hsrc Hdec Hcan1 Hcan2.
  pose proof (os_makedirs_returns tauri w Hcan1) as Hmk1.
  set (w1 := mkWorld (made_dir tauri (fs w)) (heap w)
               (trace w ++ mkdir_events tauri (fs w))) in *.
  pose proof (os_makedirs_returns pub w1 Hcan2) as Hmk2.
  set (w2 := mkWorld (made_dir pub (fs w1)) (heap w1)
               (trace w1 ++ mkdir_events pub (fs w1))) in *.
  set (made := made_dir pub (made_dir tauri (fs w))).
  assert (Hsrc2 : fs w2 !! src = Some (File d)).
  { unfold w2, w1. cbn [fs].
    rewrite !made_dir_lookup; [exact Hsrc|by rewrite Hsrc|].
    rewrite made_dir_lookup; by rewrite Hsrc. }
  assert (Hsince : ∀ w3 evs, trace w3 = trace w2 ++ evs →
            writes (since w w3) = writes evs).
  { intros w3 evs Ht.
    rewrite (since_app w w3 (mkdir_events tauri (fs w)
                             ++ mkdir_events pub (made_dir tauri (fs w))
                             ++ evs))
      by (rewrite Ht; unfold w2, w1; cbn [trace fs];
          rewrite <- !app_assoc; reflexivity).
    rewrite !writes_app, !writes_mkdir_events. reflexivity. }
  unfold process_icon, os_path_exists. unfold mbind at 1, M_bind at 1.
  rewrite bool_decide_eq_true_2 by (by rewrite Hsrc). cbn [negb].
  unfold mbind at 1, M_bind at 1. rewrite Hmk1.
  unfold mbind at 1, M_bind at 1. rewrite Hmk2.
  unfold mbind at 1, M_bind at 1, Image_open. rewrite Hsrc2, Hdec.
  unfold alloc. unfold mbind at 1, M_bind at 1, print, emit.
  unfold mbind at 1, M_bind at 1.
  match goal with |- context [for_ sizes ?body ?w4] =>
    destruct (for_ sizes body w4) as [r3 w3] eqn:Hloop end.
  apply (export_loop_run _ _ orig) in Hloop
    as (k & evs & Hf3 & Ht3 & Hw3 & Himg3 & Hout);
    [|cbn [heap]; rewrite lookup_app_r, Nat.sub_diag by lia; reflexivity].
  cbn [fs heap trace] in Hf3, Ht3, Himg3.
  rewrite <- app_assoc in Ht3. cbn [app] in Ht3.
  change (fs w2) with made in Hf3.
  assert (Hprint : ∀ line, writes (Print line :: evs) = writes evs)
    by reflexivity.
  assert (Hk : (k ≤ 14)%nat).
  { destruct Hout as [[_ ->]|[_ (x & Hx & _)]]; [reflexivity|].
    apply lookup_lt_Some in Hx. exact (Nat.lt_le_incl _ _ Hx). }
  assert (Htake : take k (outputs orig tauri pub)
                  = take k (map (λ e, (os_path_join tauri e.1,
                                      PngData (resized_image orig e.2)))
                              sizes)).
  { unfold outputs. apply take_app_le. rewrite length_map. exact Hk. }
  destruct Hout as [[-> ->]|[-> (x & Hx & Hdir)]].
  - (* the loop returned *)
    unfold mbind at 1, M_bind at 1, Image_save_ico, mbind at 1, M_bind at 1,
      deref, write_file.
    rewrite Himg3.
    destruct (fs w3 !! os_path_join tauri "icon.ico") as [[|d1]|] eqn:E1.
    { intros [= <- <-]. split; [reflexivity|].
      exists 14%nat, (os_path_join tauri "icon.ico").
      split; [reflexivity|]. split; [|split].
      - rewrite Hf3 in E1. apply written_dir in E1. exact E1.
      - rewrite (Hsince _ _ Ht3), Hprint, Hw3. reflexivity.
      - rewrite Hf3. reflexivity. }
    all: assert (Hne : os_path_join tauri "icon.ico" ≠ os_path_join pub "icon.png")
      by (intros Heq; apply join_same_file in Heq; [discriminate|reflexivity..]).
    all: unfold mbind at 1, M_bind at 1;
      unfold mbind at 1, M_bind at 1, Image_resize, mbind at 1, M_bind at 1,
        deref, alloc; cbn [fs heap trace]; rewrite Himg3;
      unfold mbind at 1, M_bind at 1, Image_save, mbind at 1, M_bind at 1,
        deref, write_file; cbn [fs heap trace];
      rewrite lookup_app_r, Nat.sub_diag by lia;
      cbn [lookup list_lookup fs heap trace];
      rewrite lookup_insert_ne by exact Hne;
      destruct (fs w3 !! os_path_join pub "icon.png") as [[|d2]|] eqn:E2;
      [|discriminate..].
    all: intros [= <- <-]; split; [reflexivity|];
      exists 15%nat, (os_path_join pub "icon.png");
      (split; [reflexivity|]); cbn [fs heap trace];
      rewrite Hf3 in E2; apply written_dir in E2;
      (split; [exact E2|]); split;
      [ erewrite Hsince
          by (cbn [trace]; rewrite Ht3, <- !app_assoc; cbn [app]; reflexivity);
        rewrite app_comm_cons, writes_app, Hprint, Hw3; reflexivity
      | rewrite Hf3; reflexivity ].
  - (* the loop stopped at a directory *)
    intros [= <- <-]. split; [reflexivity|].
    exists k, (os_path_join tauri x.1). split; [|split; [|split]].
    + unfold output_paths. rewrite lookup_app_l
        by (rewrite length_map, length_fmap; exact (lookup_lt_Some _ _ _ Hx)).
      rewrite list_lookup_fmap, list_lookup_fmap, Hx. reflexivity.
    + rewrite Hf3 in Hdir. apply written_dir in Hdir. exact Hdir.
    + rewrite (Hsince _ _ Ht3), Hprint, Htake. exact Hw3.
    + rewrite Hf3, Htake. reflexivity.
Qed.

(** After the directories are made nothing turns into something else,
    whatever the outcome. *)
Lemma process_icon_tail_keeps (src tauri pub : string) (w w' : world)
    (r : result unit) :
  is_Some (fs w !! src) →
  can_make_dir tauri (fs w) = true →
  can_make_dir pub (made_dir tauri (fs w)) = true →
  process_icon src tauri pub w = (r, w') →
  keeps_nodes (made_dir pub (made_dir tauri (fs w))) (fs w').
Proof.
  intros Hsrc Hcan1 Hcan2.
  pose proof (os_makedirs_returns tauri w Hcan1) as Hmk1.
  set (w1 := mkWorld (made_dir tauri (fs w)) (heap w)
               (trace w ++ mkdir_events tauri (fs w))) in *.
  pose proof (os_makedirs_returns pub w1 Hcan2) as Hmk2.
  set (w2 := mkWorld (made_dir pub (fs w1)) (heap w1)
               (trace w1 ++ mkdir_events pub (fs w1))) in *.
  unfold process_icon, os_path_exists. unfold mbind at 1, M_bind at 1.
  rewrite bool_decide_eq_true_2 by exact Hsrc. cbn [negb].
  unfold mbind at 1, M_bind at 1. rewrite Hmk1.
  unfold mbind at 1, M_bind at 1. rewrite Hmk2.
  intros Hk. change (made_dir pub (made_dir tauri (fs w))) with (fs w2).
  apply (respects_run _ _ _ _ Hk).
  unfold export_step, Image_resize, Image_save, Image_save_ico, print.
  respect.
Qed.

End Coverage.

(** * What the generator draws *)

(** ** Exact quotients *)

Lemma div_eucl_exact (a b q : Z) :
  0 < b → a = b * q → Z.div_eucl a b = (q, 0).
Proof.
  intros Hb ->.
  assert (E : Z.div_eucl (b * q) b = ((b * q) / b, (b * q) mod b)).
  { unfold Z.div, Z.modulo. destruct (Z.div_eucl (b * q) b). reflexivity. }
  rewrite E. f_equal.
  - rewrite Z.mul_comm. apply Z.div_mul. lia.
  - rewrite Z.mul_comm. apply Z.mod_mul. lia.
Qed.

(** The quotient of two positive normal numbers whose significands divide
    exactly. *)
Lemma SFdiv_exact (m1 m2 r : positive) (e1 e2 : Z) :
  2 ^ 52 <= Z.pos m1 < 2 ^ 53 -> 2 ^ 52 <= Z.pos m2 < 2 ^ 53 ->
  2 ^ 52 <= Z.pos r < 2 ^ 53 ->
  Z.pos m1 * 2 ^ 53 = Z.pos m2 * (2 * Z.pos r) ->
  emin64 <= e1 - e2 - 53 -> e1 - e2 - 51 <= 971 ->
  SFdiv prec emax (S754_finite false m1 e1) (S754_finite false m2 e2)
  = S754_finite false r (e1 - e2 - 52).
Proof.
  intros H1 H2 Hr Hq Hlo Hhi. unfold SFdiv, SFdiv_core_binary.
  cbn [Zdigits2 xorb].
  rewrite (digits2_pos_unique m1 53), (digits2_pos_unique m2 53)
    by (change (53 - 1) with 52; assumption).
  replace (53 + e1 - (53 + e2)) with (53 + (e1 - e2 - 53)) by lia.
  rewrite fexp_normal by lia.
  replace (53 + (e1 - e2 - 53) - 53) with (e1 - e2 - 53) by lia.
  rewrite Z.min_l by lia.
  replace (e1 - e2 - (e1 - e2 - 53)) with 53 by lia.
  rewrite Z.shiftl_mul_pow2 by lia.
  rewrite (div_eucl_exact _ _ (2 * Z.pos r)) by (lia || exact Hq).
  assert (Hloc : new_location (Z.pos m2) 0 = loc_Exact)
    by (unfold new_location; destruct (Z.even _); reflexivity).
  rewrite Hloc. change (2 * Z.pos r) with (Z.pos r~0).
  rewrite (binary_round_aux_normal (r~0) (e1 - e2 - 53) 0).
  - unfold rounded.
    replace (Z.pos r~0) with (Z.pos r * 2 ^ (Z.of_nat 0 + 1))
      by (cbn [Z.of_nat Z.add]; change (2 ^ 1) with 2; lia).
    rewrite rne_exact by lia.
    destruct (Z.eqb_spec (Z.pos r) (2 ^ 53)) as [E|_]; [lia|].
    cbn [Z.to_pos Z.of_nat]. f_equal. lia.
  - apply digits2_pos_unique. cbn [Z.of_nat].
    change (53 + 0 + 1 - 1) with 53. change (53 + 0 + 1) with 54.
    rewrite (Pos2Z.inj_xO r).
    assert (E54 : 2 ^ 54 = 2 * 2 ^ 53) by reflexivity.
    assert (E53 : 2 ^ 53 = 2 * 2 ^ 52) by reflexivity.
    lia.
  - cbn [Z.of_nat]. lia.
  - cbn [Z.of_nat]. lia.
Qed.

(** Halving a positive normal number keeps it positive and normal. *)
Lemma half_normal (x : float) (m : positive) (e : Z) :
  normal (Prim2SF x) m e -> emin64 + 2 <= e <= 960 ->
  normal (Prim2SF (x / 2)) m (e - 1).
Proof.
  intros [Hx Hm] He. split; [|exact Hm].
  rewrite div_spec, Hx.
  change (Prim2SF 2) with (S754_finite false (2 ^ 52) (-51)).
  unfold SF64div.
  rewrite (SFdiv_exact m (2 ^ 52) m e (-51)); try assumption.
  - f_equal. lia.
  - split; [reflexivity|]. reflexivity.
  - change (Z.pos (2 ^ 52)) with (2 ^ 52). change (2 ^ 53) with (2 ^ 52 * 2). lia.
  - unfold emin64 in *. lia.
  - lia.
Qed.

Section Drawing.
Context `{!Pillow, !Libm}.

Lemma sample_is_Some (size i : Z) :
  0 ≤ i < steps → ∃ s, sample size i = Some s.
Proof.
  intros Hi. pose proof (range_forallb _ _ color_table i Hi) as Hc.
  unfold color_check in Hc. rewrite andb_true_iff in Hc.
  destruct Hc as [Hc _]. apply bool_decide_eq_true_1 in Hc.
  unfold sample. rewrite Hc. eexists. reflexivity.
Qed.

Lemma range_bounds (n i : Z) : i ∈ Py.range n → 0 ≤ i < n.
Proof.
  unfold Py.range. intros (k & -> & Hk)%list_elem_of_fmap.
  apply elem_of_seq in Hk. lia.
Qed.

Lemma range_lookup (n : Z) (k : nat) (i : Z) :
  Py.range n !! k = Some i → i = Z.of_nat k.
Proof.
  unfold Py.range. rewrite list_lookup_fmap.
  destruct (seq 0 (Z.to_nat n) !! k) as [j|] eqn:E; [|discriminate].
  apply lookup_seq in E as [-> _]. intros [= <-]. reflexivity.
Qed.

Lemma range_length (n : Z) : length (Py.range n) = Z.to_nat n.
Proof. unfold Py.range. rewrite length_map, length_seq. reflexivity. Qed.

(** The samples of the whole stroke, one stamp per index. *)
Lemma stroke_stamps (size : Z) (indices : list Z) :
  Forall (λ i, 0 ≤ i < steps) indices →
  ∃ stamps, Forall2 (λ i s, sample size i = Some s) indices stamps.
Proof.
  induction 1 as [|i indices Hi _ [stamps IH]].
  - exists []. constructor.
  - destruct (sample_is_Some size i Hi) as [s Hs].
    exists (s :: stamps). constructor; assumption.
Qed.

Lemma paint_stamps (size : Z) (indices : list Z) (stamps : list stamp)
    (px : Pixels) :
  Forall2 (λ i s, sample size i = Some s) indices stamps →
  foldl (paint size) (mkImage (size, size) px) indices
  = mkImage (size, size)
      (foldl (λ px s,
                raster_ellipse (size, size) px
                  (circle_box (st_x s) (st_y s) (st_thickness s))
                  (st_color s))
         px stamps).
Proof.
  intros Hall. revert px.
  induction Hall as [|i s indices stamps Hs _ IH]; intros px; [reflexivity|].
  cbn [foldl]. unfold paint at 2. rewrite Hs. cbn [im_size im_px].
  apply IH.
Qed.

(** The picture the generator builds is the plate with one circle per
    sample, drawn in the order of the samples, and the highlight. *)
Lemma canvas_stamped (size : Z) :
  ∃ stamps,
    Forall2 (λ i s, sample size i = Some s) (Py.range steps) stamps
    ∧ canvas size = stamped_picture size stamps.
Proof.
  destruct (stroke_stamps size (Py.range steps)) as [stamps Hall].
  { apply Forall_forall. intros i Hi. apply (range_bounds _ _ Hi). }
  exists stamps. split; [exact Hall|].
  unfold canvas, stamped_picture. revert Hall.
  generalize (Py.range steps). intros indices Hall.
  cbv zeta. rewrite (paint_stamps _ _ _ _ Hall). reflexivity.
Qed.

(** ** What a returning run of the generator drew *)

Lemma create_gradient_icon_size path size w u w' :
  create_gradient_icon path size w = (Ok u, w') → 0 ≤ size < 2 ^ 31.
Proof.
  unfold create_gradient_icon. generalize (Py.range steps). intros indices.
  intros (image & w1 & Hnew & _)%bind_Ok. unfold Image_new in Hnew.
  destruct (bool_decide _) eqn:E; [|discriminate].
  apply bool_decide_eq_true_1 in E. cbn [fst snd] in E. lia.
Qed.

Lemma sample_fields (size i : Z) (s : stamp) :
  sample size i = Some s →
  st_t s = sample_t i
  ∧ stroke_color (sample_t i) = Some (st_color s)
  ∧ st_thickness s = thickness size (sample_t i).
Proof.
  unfold sample. destruct (stroke_color (sample_t i)) as [c|]; [|discriminate].
  intros [= <-]. repeat split.
Qed.

(** Where the circle of a sample is centred (lines 33-35 and 40-41). *)
Lemma sample_centre (size i : Z) (s : stamp) :
  sample size i = Some s →
  st_x s
  = (Py.float_of_int size * 0.2
     + (Py.float_of_int size - 2 * (Py.float_of_int size * 0.2)) * st_t s)%float
  ∧ st_y s
    = (Py.float_of_int size / 2
       + sin (st_t s * Py.pi * 2)
         * ((Py.float_of_int size - 2 * (Py.float_of_int size * 0.2))
            * 0.3))%float.
Proof.
  unfold sample. destruct (stroke_color (sample_t i)) as [c|]; [|discriminate].
  intros [= <-]. split; reflexivity.
Qed.

(** A returning run wrote, at the output path, the plate with one circle
    per sample and the highlight, and nothing else. *)
Lemma generator_run_stamps path size w u w' :
  create_gradient_icon path size w = (Ok u, w') →
  0 ≤ size < 2 ^ 31
  ∧ ∃ stamps,
      length stamps = 200%nat
      ∧ (∀ k s, stamps !! k = Some s →
                sample size (Z.of_nat k) = Some s ∧ 0 ≤ Z.of_nat k < steps)
      ∧ fs w' !! path = Some (File (PngData (stamped_picture size stamps)))
      ∧ since w w' = [ Write path (PngData (stamped_picture size stamps));
                       Print ("Generated icon at " +:+ path) ].
Proof.
  intros Hrun. split; [apply (create_gradient_icon_size _ _ _ _ _ Hrun)|].
  destruct (canvas_stamped size) as (stamps & Hall & Hcanvas).
  apply create_gradient_icon_Ok in Hrun as (Hfs & _ & Htr).
  exists stamps. rewrite <- Hcanvas.
  split; [rewrite <- (Forall2_length _ _ _ Hall), range_length; reflexivity|].
  split; [|split; [rewrite Hfs; apply lookup_insert_eq|apply since_app, Htr]].
  intros k s Hk.
  destruct (Forall2_lookup_r _ _ _ _ _ Hall Hk) as (i & Hi & Hs).
  pose proof (range_bounds _ _ (list_elem_of_lookup_2 _ _ _ Hi)) as Hb.
  apply range_lookup in Hi as ->. split; assumption.
Qed.

Lemma thickness_normal (size i : Z) :
  1 ≤ size < 2 ^ 53 → 0 ≤ i < steps →
  ∃ m e, normal (Prim2SF (thickness size (sample_t i))) m e ∧ -56 ≤ e ≤ 0.
Proof.
  intros Hs Hi.
  destruct (full_thickness_normal size Hs) as (ma & ea & Ha & Hea).
  destruct (taper_form i Hi) as (mi & Hfi & Hmi & Hri).
  unfold thickness. rewrite mul_spec. unfold SF64mul.
  destruct (SFmul_normal_normal (Prim2SF (full_thickness size))
              (Prim2SF (taper (sample_t i))) ma mi ea (-53) Ha)
    as (m & e & Hm & He).
  - split; [exact Hfi|lia].
  - unfold emin64. lia.
  - lia.
  - exists m, e. split; [exact Hm|lia].
Qed.

Lemma normal_positive (x : float) (m : positive) (e : Z) :
  normal (Prim2SF x) m e → (0 <? x)%float = true.
Proof. intros [Hx _]. rewrite FloatAxioms.ltb_spec, Hx. reflexivity. Qed.

(** C9, for the canvas sizes [S ≥ 1]: no sample falls on the midpoint
    ([2 i ≠ 199], and the float [t] is never 0.5), so a run that returns has
    drawn none of its 200 circles in the colour c2 or with the full
    thickness [S * 0.15] as diameter; circle [i] is drawn for [t = i/199],
    centred where the curve is at [t]; the first circle is drawn at
    [t = 0] in the colour c1 and the last at [t = 1] in the colour c3,
    exactly. *)
Theorem no_circle_at_midpoint (path : string) (size : Z) (w w' : world) :
  1 ≤ size →
  create_gradient_icon path size w = (Ok tt, w') →
  ∃ stamps : list stamp,
    fs w' !! path = Some (File (PngData (stamped_picture size stamps)))
    ∧ length stamps = 200%nat
    ∧ (∀ (k : nat) (s : stamp), stamps !! k = Some s →
         st_t s = Py.int_truediv (Z.of_nat k) 199
         ∧ st_x s
           = (Py.float_of_int size * 0.2
              + (Py.float_of_int size - 2 * (Py.float_of_int size * 0.2))
                * st_t s)%float
         ∧ st_y s
           = (Py.float_of_int size / 2
              + sin (st_t s * Py.pi * 2)
                * ((Py.float_of_int size - 2 * (Py.float_of_int size * 0.2))
                   * 0.3))%float
         ∧ ¬ (Z.of_nat k # 199 == 1 # 2)%Q
         ∧ (st_t s =? 0.5)%float = false
         ∧ st_color s ≠ RGBA 140 50 255 255
         ∧ (st_thickness s <? Py.float_of_int size * 0.15)%float = true)
    ∧ (∃ s, stamps !! 0%nat = Some s
            ∧ st_t s = 0%float ∧ st_color s = RGBA 0 198 255 255)
    ∧ (∃ s, stamps !! 199%nat = Some s
            ∧ st_t s = 1%float ∧ st_color s = RGBA 255 30 150 255).
Proof.
  intros Hpos Hrun.
  destruct (generator_run_stamps _ _ _ _ _ Hrun)
    as (Hsize & stamps & Hlen & Hall & Hfs & _).
  assert (Hs53 : 0 ≤ size < 2 ^ 53)
    by (split; [lia|]; apply Z.lt_trans with (2 ^ 31); [lia|reflexivity]).
  exists stamps. split; [exact Hfs|]. split; [exact Hlen|].
  split; [|split].
  - intros k s Hk. destruct (Hall k s Hk) as [Hs Hi].
    destruct (sample_fields _ _ _ Hs) as (Ht & Hc & Hth).
    pose proof (range_forallb _ _ midpoint_table _ Hi) as Hm.
    unfold midpoint_check in Hm. rewrite !andb_true_iff in Hm.
    destruct Hm as [[Hne Hcol] _].
    apply negb_true_iff in Hne. apply negb_true_iff in Hcol.
    apply bool_decide_eq_false_1 in Hcol.
    pose proof (thickness_checked size _ Hs53 Hi) as Hchk.
    unfold thickness_check in Hchk. rewrite !andb_true_iff in Hchk.
    destruct Hchk as [[[_ Hlt] _] _].
    destruct (1 <=? size) eqn:E; [|apply Z.leb_gt in E; lia].
    destruct (sample_centre _ _ _ Hs) as [Hx Hy].
    split; [exact Ht|]. split; [exact Hx|]. split; [exact Hy|].
    split; [unfold Qeq; cbn [Qnum Qden]; lia|].
    split; [rewrite Ht; exact Hne|].
    split; [intros Heq; apply Hcol; rewrite Hc, Heq; reflexivity|].
    rewrite Hth. exact Hlt.
  - destruct (lookup_lt_is_Some_2 stamps 0) as [s Hk]; [lia|].
    destruct (Hall _ _ Hk) as [Hs _].
    destruct (sample_fields _ _ _ Hs) as (Ht & Hc & _).
    exists s. split; [exact Hk|]. split; [rewrite Ht; vm_compute; reflexivity|].
    assert (E : stroke_color (sample_t (Z.of_nat 0)) = Some (RGBA 0 198 255 255))
      by (vm_compute; reflexivity).
    congruence.
  - destruct (lookup_lt_is_Some_2 stamps 199) as [s Hk]; [lia|].
    destruct (Hall _ _ Hk) as [Hs _].
    destruct (sample_fields _ _ _ Hs) as (Ht & Hc & _).
    exists s. split; [exact Hk|]. split; [rewrite Ht; vm_compute; reflexivity|].
    assert (E : stroke_color (sample_t (Z.of_nat 199))
                = Some (RGBA 255 30 150 255))
      by (vm_compute; reflexivity).
    congruence.
Qed.

(** X9: a run of the generator that returned made exactly one write: a
    [size] x [size] picture, at the output path, which is what the path
    holds at the end; its one line is printed after the write. *)
Theorem generator_writes_square_canvas (path : string) (size : Z)
    (w w' : world) :
  create_gradient_icon path size w = (Ok tt, w') →
  ∃ im, since w w' = [ Write path (PngData im);
                       Print ("Generated icon at " +:+ path) ]
    ∧ fs w' !! path = Some (File (PngData im))
    ∧ im_size im = (size, size).
Proof.
  intros Hrun.
  destruct (generator_run_stamps _ _ _ _ _ Hrun)
    as (_ & stamps & _ & _ & Hfs & Hsince).
  exists (stamped_picture size stamps).
  split; [exact Hsince|]. split; [exact Hfs|reflexivity].
Qed.

(** X12: a run of the generator that returned has drawn each of its 200
    circles in an opaque colour whose three channels are bytes, and from one
    circle to the next the red channel never falls while the green and the
    blue never rise. *)
Theorem gradient_bytes_and_direction (path : string) (size : Z)
    (w w' : world) :
  create_gradient_icon path size w = (Ok tt, w') →
  ∃ stamps : list stamp,
    fs w' !! path = Some (File (PngData (stamped_picture size stamps)))
    ∧ length stamps = 200%nat
    ∧ (∀ (k : nat) (s : stamp), stamps !! k = Some s →
         ∃ r g b, st_color s = RGBA r g b 255
           ∧ 0 ≤ r ≤ 255 ∧ 0 ≤ g ≤ 255 ∧ 0 ≤ b ≤ 255
           ∧ ∀ s', stamps !! S k = Some s' →
               ∃ r' g' b', st_color s' = RGBA r' g' b' 255
                 ∧ r ≤ r' ∧ g' ≤ g ∧ b' ≤ b).
Proof.
  intros Hrun.
  destruct (generator_run_stamps _ _ _ _ _ Hrun)
    as (_ & stamps & Hlen & Hall & Hfs & _).
  exists stamps. split; [exact Hfs|]. split; [exact Hlen|].
  intros k s Hk. destruct (Hall k s Hk) as [Hs Hi].
  destruct (sample_fields _ _ _ Hs) as (_ & Hc & _).
  pose proof (range_forallb _ _ gradient_table _ Hi) as Hchk.
  unfold gradient_check in Hchk. rewrite Hc in Hchk.
  destruct (st_color s) as [|r g b a]; [discriminate|].
  unfold is_byte in Hchk. rewrite !andb_true_iff in Hchk.
  destruct Hchk as [[[[[Hr1 Hr2] [Hg1 Hg2]] [Hb1 Hb2]] Ha] Hnext].
  assert (a = 255) as -> by lia.
  exists r, g, b. split; [reflexivity|]. repeat (split; [lia|]).
  intros s' Hk'. destruct (Hall _ _ Hk') as [Hs' Hi'].
  destruct (sample_fields _ _ _ Hs') as (_ & Hc' & _).
  pose proof (range_forallb _ _ gradient_table _ Hi') as Hchk'.
  unfold gradient_check in Hchk'. rewrite Hc' in Hchk'.
  replace (Z.of_nat (S k)) with (Z.of_nat k + 1) in * by lia.
  destruct (Z.of_nat k <? steps - 1) eqn:E; [|apply Z.ltb_ge in E; lia].
  rewrite Hc' in Hnext.
  destruct (st_color s') as [|r' g' b' a']; [discriminate|].
  rewrite !andb_true_iff in Hchk'.
  destruct Hchk' as [[_ Ha'] _].
  assert (a' = 255) as -> by lia.
  rewrite !andb_true_iff in Hnext. destruct Hnext as [[H1 H2] H3].
  exists r', g', b'. split; [reflexivity|]. lia.
Qed.

(** X15: for every canvas size [S ≥ 1], a run of the generator that
    returned has drawn each of its 200 circles from a positive thickness and
    a positive radius: the [thickness] of the circle and the [rO =
    thickness / 2] its box is built from are positive floats. *)
Theorem stroke_circles_have_positive_radius (path : string) (size : Z)
    (w w' : world) :
  1 ≤ size →
  create_gradient_icon path size w = (Ok tt, w') →
  ∃ stamps : list stamp,
    fs w' !! path = Some (File (PngData (stamped_picture size stamps)))
    ∧ length stamps = 200%nat
    ∧ (∀ (k : nat) (s : stamp), stamps !! k = Some s →
         st_thickness s
         = (Py.float_of_int size * 0.15
            * (1 - 0.5 * PrimFloat.abs (st_t s - 0.5)))%float
         ∧ (0 <? st_thickness s)%float = true
         ∧ (0 <? st_thickness s / 2)%float = true).
Proof.
  intros Hpos Hrun.
  destruct (generator_run_stamps _ _ _ _ _ Hrun)
    as (Hsize & stamps & Hlen & Hall & Hfs & _).
  assert (Hs53 : 1 ≤ size < 2 ^ 53)
    by (split; [lia|]; apply Z.lt_trans with (2 ^ 31); [lia|reflexivity]).
  exists stamps. split; [exact Hfs|]. split; [exact Hlen|].
  intros k s Hk. destruct (Hall k s Hk) as [Hs Hi].
  destruct (sample_fields _ _ _ Hs) as (Ht & _ & Hth).
  destruct (thickness_normal size _ Hs53 Hi) as (m & e & Hn & He).
  rewrite Hth, Ht. split; [reflexivity|].
  split; [apply (normal_positive _ _ _ Hn)|].
  apply (normal_positive _ m (e - 1)), half_normal; [exact Hn|].
  unfold emin64. lia.
Qed.

(** At size 0 every thickness is the full thickness, 0. *)
Lemma zero_thickness_table :
  forallb (λ i, (thickness 0 (sample_t i) =? Py.float_of_int 0 * 0.15)%float)
    (Py.range steps) = true.
Proof. vm_compute. reflexivity. Qed.

Lemma zero_canvas_stamps :
  ∃ stamps : list stamp,
    canvas 0 = stamped_picture 0 stamps
    ∧ length stamps = 200%nat
    ∧ Forall (λ s, (st_thickness s =? Py.float_of_int 0 * 0.15)%float = true)
        stamps.
Proof.
  destruct (canvas_stamped 0) as (stamps & Hall & Hcanvas).
  exists stamps. split; [exact Hcanvas|].
  split; [rewrite <- (Forall2_length _ _ _ Hall), range_length; reflexivity|].
  apply Forall_forall. intros s Hs.
  apply list_elem_of_lookup_1 in Hs as [k Hk].
  destruct (Forall2_lookup_r _ _ _ _ _ Hall Hk) as (i & Hi & Hsample).
  pose proof (range_bounds _ _ (list_elem_of_lookup_2 _ _ _ Hi)) as Hb.
  destruct (sample_fields _ _ _ Hsample) as (_ & _ & ->).
  exact (range_forallb _ _ zero_thickness_table i Hb).
Qed.

End Drawing.

(** * The icon container *)

Lemma requested_ico_sizes :
  Ico.requested ico_sizes
  = [(16, 16); (32, 32); (48, 48); (64, 64); (128, 128); (256, 256)].
Proof. vm_compute. reflexivity. Qed.

(** ** The frames of the icon container *)

Lemma truediv_self (n : Z) : 1 ≤ n < 2 ^ 53 → Py.int_truediv n n = 1%float.
Proof.
  intros Hn. destruct (float_of_int_normal n Hn) as (m & e & [Hx Hm] & He).
  apply Prim2SF_inj. unfold Py.int_truediv. rewrite div_spec, Hx.
  unfold SF64div.
  rewrite (SFdiv_exact m m (2 ^ 52) e e); try assumption.
  - replace (e - e - 52) with (-52) by lia. reflexivity.
  - split; reflexivity.
  - change (Z.pos (2 ^ 52)) with (2 ^ 52). change (2 ^ 53) with (2 * 2 ^ 52). lia.
  - unfold emin64. lia.
  - lia.
Qed.

Lemma thumbnail_size_square (side n : Z) :
  n ∈ icon_sides → n < side < 2 ^ 53 →
  Ico.thumbnail_size (side, side) (n, n) = Some (n, n).
Proof.
  intros Hn Hside. unfold Ico.thumbnail_size.
  assert (Hpos : 1 ≤ n).
  { unfold icon_sides in Hn.
    repeat (apply elem_of_cons in Hn as [->|Hn]; [lia|]). inversion Hn. }
  destruct (Z.leb_spec side n) as [Hle|_]; [lia|]. cbn [andb].
  rewrite truediv_self by lia.
  unfold icon_sides in Hn.
  repeat (apply elem_of_cons in Hn as [->|Hn]; [vm_compute; reflexivity|]).
  inversion Hn.
Qed.

Section IconContainer.
Context `{!Pillow, !Libm}.

(** The frame embedded for a listed size in a square image. *)
Lemma frame_square (im : Image) (side n : Z) :
  im_size im = (side, side) → n ∈ icon_sides → n ≤ side < 2 ^ 53 →
  Ico.frame im (n, n)
  = (if bool_decide (side = n) then im else resized_image im (n, n)).
Proof.
  intros Him Hn Hside. unfold Ico.frame. rewrite Him.
  destruct (decide (side = n)) as [->|Hne].
  - rewrite !bool_decide_eq_true_2 by reflexivity. reflexivity.
  - rewrite !bool_decide_eq_false_2 by congruence.
    unfold Ico.thumbnail. rewrite Him, thumbnail_size_square by (assumption || lia).
    rewrite bool_decide_eq_false_2 by congruence. reflexivity.
Qed.

(** The sizes the encoder does not skip, for the script's list. *)
Lemma frames_ico_sizes (im : Image) :
  Ico.frames im ico_sizes
  = map (Ico.frame im)
      (List.filter
         (λ s, bool_decide (s.1 ≤ (im_size im).1 ∧ s.2 ≤ (im_size im).2))
         (map (λ n, (n, n)) icon_sides)).
Proof.
  unfold Ico.frames. rewrite requested_ico_sizes. f_equal.
  apply List.filter_ext_in. intros [a b] Hin.
  assert (Hsmall : a ≤ 256 ∧ b ≤ 256).
  { cbn [In] in Hin.
    repeat (destruct Hin as [[= <- <-]|Hin]; [lia|]). contradiction. }
  unfold Ico.fits. cbv beta.
  destruct (im_size im) as [width height]. cbn [fst snd].
  destruct (Z.ltb_spec width a); destruct (Z.ltb_spec height b);
    destruct (Z.ltb_spec 256 a); destruct (Z.ltb_spec 256 b);
    try lia; cbn [orb negb];
    first [ rewrite bool_decide_eq_false_2 by lia
          | rewrite bool_decide_eq_true_2 by lia ]; reflexivity.
Qed.

Lemma frames_count (im : Image) :
  length (Ico.frames im ico_sizes) = 6%nat
  ↔ 256 ≤ (im_size im).1 ∧ 256 ≤ (im_size im).2.
Proof.
  rewrite frames_ico_sizes, length_map.
  destruct (im_size im) as [width height]. cbn [fst snd].
  destruct (decide (256 ≤ width ∧ 256 ≤ height)) as [Hbig|Hsmall].
  - split; [intros _; exact Hbig|intros _].
    unfold icon_sides. cbn [map List.filter fst snd].
    repeat (rewrite bool_decide_eq_true_2 by lia; cbn [List.filter fst snd]).
    reflexivity.
  - split; [|intros Hbig; contradiction]. intros Hlen. exfalso.
    set (P := λ s : Z * Z, bool_decide (s.1 ≤ width ∧ s.2 ≤ height)) in Hlen.
    set (l5 := [(16, 16); (32, 32); (48, 48); (64, 64); (128, 128)]).
    change (map (λ n, (n, n)) icon_sides) with (l5 ++ [(256, 256)]) in Hlen.
    rewrite List.filter_app, length_app in Hlen.
    pose proof (List.filter_length_le P l5) as Hle.
    assert (Hlast : List.filter P [(256, 256)] = []).
    { cbn [List.filter]. unfold P. cbn [fst snd].
      rewrite bool_decide_eq_false_2 by exact Hsmall. reflexivity. }
    rewrite Hlast in Hlen. change (length l5) with 5%nat in Hle.
    cbn [length] in Hlen. lia.
Qed.

(** C7, as the encoder embeds: a run that found its source and returned
    wrote exactly one icon container, [icon.ico] in the packaging directory,
    from the image loaded from the source and the size list
    256, 128, 64, 48, 32, 16, and it is what the file holds at the end.
    The container embeds one frame for each listed size that is no wider
    and no taller than the loaded image, smallest first: all six exactly
    when the image is at least 256 x 256.  Each frame is the loaded image
    or a Lanczos resize of it, and for a square image each frame has
    exactly its listed size. *)
Theorem icon_container_frames (src tauri pub : string) (w w' : world) :
  is_Some (fs w !! src) →
  process_icon src tauri pub w = (Ok tt, w') →
  ∃ d orig,
    fs w !! src = Some (File d) ∧ decode d = Some orig
    ∧ List.filter (λ pd, is_ico pd.2) (writes (since w w'))
      = [(os_path_join tauri "icon.ico", IcoData orig ico_sizes)]
    ∧ fs w' !! os_path_join tauri "icon.ico"
      = Some (File (IcoData orig ico_sizes))
    ∧ ico_sizes = map (λ n, (n, n)) [256; 128; 64; 48; 32; 16]
    ∧ Ico.embedded (IcoData orig ico_sizes)
      = map (Ico.frame orig)
          (List.filter
             (λ s, bool_decide (s.1 ≤ (im_size orig).1
                                ∧ s.2 ≤ (im_size orig).2))
             [(16, 16); (32, 32); (48, 48); (64, 64); (128, 128); (256, 256)])
    ∧ (length (Ico.embedded (IcoData orig ico_sizes)) = 6%nat
       ↔ 256 ≤ (im_size orig).1 ∧ 256 ≤ (im_size orig).2)
    ∧ (∀ f, f ∈ Ico.embedded (IcoData orig ico_sizes) →
            f = orig ∨ ∃ size, f = resized_image orig size)
    ∧ (∀ side n, im_size orig = (side, side) → side < 2 ^ 53 →
         n ∈ [16; 32; 48; 64; 128; 256] → n ≤ side →
         Ico.frame orig (n, n) ∈ Ico.embedded (IcoData orig ico_sizes)
         ∧ im_size (Ico.frame orig (n, n)) = (n, n)
         ∧ Ico.frame orig (n, n)
           = (if bool_decide (side = n) then orig
              else resized_image orig (n, n))).
Proof.
  intros Hsrc Hrun.
  destruct (icon_container_handed _ _ _ _ _ Hsrc Hrun)
    as (d & orig & Hd & Hdec & Hw & Hfs & Hsizes).
  exists d, orig. split; [exact Hd|]. split; [exact Hdec|].
  split; [exact Hw|]. split; [exact Hfs|]. split; [exact Hsizes|].
  cbn [Ico.embedded].
  split; [apply frames_ico_sizes|]. split; [apply frames_count|]. split.
  - intros f. unfold Ico.frames.
    intros (size & -> & _)%list_elem_of_fmap.
    unfold Ico.frame, Ico.thumbnail.
    destruct (bool_decide (im_size orig = size)); [left; reflexivity|].
    destruct (Ico.thumbnail_size (im_size orig) size) as [final|];
      [|left; reflexivity].
    destruct (bool_decide (im_size orig = final)); [left; reflexivity|].
    right. exists final. reflexivity.
  - intros side n Him Hside Hn Hle.
    rewrite (frame_square orig side n Him Hn) by lia.
    split; [|split; [|reflexivity]].
    + rewrite <- (frame_square orig side n Him Hn) by lia.
      rewrite frames_ico_sizes. apply list_elem_of_fmap.
      exists (n, n). split; [reflexivity|].
      apply list_elem_of_In, List.filter_In. split.
      * apply list_elem_of_In. apply list_elem_of_fmap. exists n.
        split; [reflexivity|exact Hn].
      * rewrite Him. cbn [fst snd]. apply bool_decide_eq_true_2. lia.
    + destruct (bool_decide (side = n)) eqn:E; [|reflexivity].
      apply bool_decide_eq_true_1 in E. rewrite Him, E. reflexivity.
Qed.

End IconContainer.

(** * Failing runs, and what a run leaves alone *)

Section Failures.
Context `{!Pillow, !Libm}.

Lemma os_makedirs_fails path w :
  can_make_dir path (fs w) = false →
  ∃ e, os_makedirs path w = (Raise e, w)
    ∧ (e = FileExistsError ∨ e = FileNotFoundError).
Proof.
  unfold can_make_dir, os_makedirs.
  destruct (fs w !! path) as [[|d]|]; [discriminate| |].
  - intros _. exists FileExistsError. split; [reflexivity|left; reflexivity].
  - destruct (bool_decide (path = "")); [|discriminate].
    intros _. exists FileNotFoundError. split; [reflexivity|right; reflexivity].
Qed.

(** The packaging paths differ from one another. *)
Lemma packaging_paths_NoDup (tauri pub : string) :
  NoDup (take 15 (output_paths tauri pub)).
Proof.
  assert (Hnames : take 15 (output_paths tauri pub)
                   = os_path_join tauri <$> (sizes.*1 ++ ["icon.ico"]))
    by reflexivity.
  assert (Hplain : ∀ n, n ∈ sizes.*1 ++ ["icon.ico"] → has_sep n = false).
  { intros n [Hn|Hn]%elem_of_app.
    - apply list_elem_of_fmap in Hn as ([n' sz] & -> & Hin).
      apply (sizes_plain_names _ _ Hin).
    - apply list_elem_of_singleton in Hn as ->. reflexivity. }
  rewrite Hnames. apply NoDup_fmap_2_strong.
  - intros a b Ha Hb. apply join_same_file; auto.
  - apply NoDup_app. split; [exact sizes_NoDup|]. split; [|apply NoDup_singleton].
    intros n Hn ->%list_elem_of_singleton.
    apply list_elem_of_fmap in Hn as ([n' sz] & Heq & Hin).
    cbn [fst] in Heq. subst n'.
    destruct (sizes_plain_names _ _ Hin) as [_ Hne]. contradiction.
Qed.

(** The ways a run of the exporter can fail: at one of the two
    [os.makedirs], at [Image.open], or at a save. *)
Lemma process_icon_raises (src tauri pub : string) (w w' : world) (e : exn) :
  process_icon src tauri pub w = (Raise e, w') →
  ∃ n, fs w !! src = Some n
    ∧ (((e = FileExistsError ∨ e = FileNotFoundError)
        ∧ writes (since w w') = []
        ∧ (∀ line, Print line ∉ since w w'))
       ∨ (e = match n with
              | Dir => IsADirectoryError
              | File _ => UnidentifiedImageError
              end
          ∧ unreadable n
          ∧ fs w' = made_dir pub (made_dir tauri (fs w))
          ∧ can_make_dir tauri (fs w) = true
          ∧ can_make_dir pub (made_dir tauri (fs w)) = true
          ∧ writes (since w w') = []
          ∧ (∀ line, Print line ∉ since w w'))
       ∨ (∃ d orig k p,
            n = File d ∧ decode d = Some orig
            ∧ e = IsADirectoryError
            ∧ output_paths tauri pub !! k = Some p
            ∧ made_dir pub (made_dir tauri (fs w)) !! p = Some Dir
            ∧ writes (since w w') = take k (outputs orig tauri pub)
            ∧ fs w' = written (take k (outputs orig tauri pub))
                        (made_dir pub (made_dir tauri (fs w))))).
Proof.
  intros Hrun.
  destruct (fs w !! src) as [n|] eqn:Hn;
    [|rewrite (process_icon_missing _ _ _ _ Hn) in Hrun; discriminate].
  exists n. split; [reflexivity|].
  assert (Hnil : ∀ w0 : world, since w0 w0 = [])
    by (intros w0; unfold since; apply drop_all).
  assert (Hmk : ∀ path st line, Print line ∉ mkdir_events path st).
  { intros path st line. unfold mkdir_events.
    destruct (st !! path); [apply not_elem_of_nil|].
    intros Hin%list_elem_of_singleton. discriminate. }
  destruct (can_make_dir tauri (fs w)) eqn:Hcan1.
  2:{ left. destruct (os_makedirs_fails _ _ Hcan1) as (e1 & Hmk1 & He1).
      revert Hrun. unfold process_icon, os_path_exists.
      unfold mbind at 1, M_bind at 1.
      rewrite bool_decide_eq_true_2 by (by rewrite Hn). cbn [negb].
      unfold mbind at 1, M_bind at 1. rewrite Hmk1. intros [= <- <-].
      split; [exact He1|]. rewrite Hnil. split; [reflexivity|].
      intros line. apply not_elem_of_nil. }
  pose proof (os_makedirs_returns tauri w Hcan1) as Hmk1.
  set (w1 := mkWorld (made_dir tauri (fs w)) (heap w)
               (trace w ++ mkdir_events tauri (fs w))) in *.
  destruct (can_make_dir pub (made_dir tauri (fs w))) eqn:Hcan2.
  2:{ left. destruct (os_makedirs_fails pub w1 Hcan2) as (e2 & Hmk2 & He2).
      revert Hrun. unfold process_icon, os_path_exists.
      unfold mbind at 1, M_bind at 1.
      rewrite bool_decide_eq_true_2 by (by rewrite Hn). cbn [negb].
      unfold mbind at 1, M_bind at 1. rewrite Hmk1.
      unfold mbind at 1, M_bind at 1. rewrite Hmk2. intros [= <- <-].
      split; [exact He2|].
      rewrite (since_app w w1 (mkdir_events tauri (fs w))) by reflexivity.
      split; [apply writes_mkdir_events|]. intros line. apply Hmk. }
  right.
  assert (Hcase : unreadable n ∨ ∃ d orig, n = File d ∧ decode d = Some orig).
  { destruct n as [|d]; [left; exact I|].
    destruct (decode d) as [orig|] eqn:Hdec; [right; eauto|left; exact Hdec]. }
  destruct Hcase as [Hbad|(d & orig & -> & Hdec)].
  - left.
    pose proof (os_makedirs_returns pub w1 Hcan2) as Hmk2.
    set (w2 := mkWorld (made_dir pub (fs w1)) (heap w1)
                 (trace w1 ++ mkdir_events pub (fs w1))) in *.
    assert (Hn2 : fs w2 !! src = Some n).
    { unfold w2, w1. cbn [fs].
      rewrite !made_dir_lookup; [exact Hn|by rewrite Hn|].
      rewrite made_dir_lookup; by rewrite Hn. }
    revert Hrun. unfold process_icon, os_path_exists.
    unfold mbind at 1, M_bind at 1.
    rewrite bool_decide_eq_true_2 by (by rewrite Hn). cbn [negb].
    unfold mbind at 1, M_bind at 1. rewrite Hmk1.
    unfold mbind at 1, M_bind at 1. rewrite Hmk2.
    unfold mbind at 1, M_bind at 1, Image_open. rewrite Hn2.
    assert (Hsince : since w w2 = mkdir_events tauri (fs w)
                                  ++ mkdir_events pub (made_dir tauri (fs w)))
      by (apply since_app; unfold w2, w1; cbn [trace fs];
          rewrite <- app_assoc; reflexivity).
    assert (Hout : writes (since w w2) = [] ∧ ∀ line, Print line ∉ since w w2).
    { rewrite Hsince, writes_app, !writes_mkdir_events. split; [reflexivity|].
      intros line [Hin|Hin]%elem_of_app; eapply Hmk, Hin. }
    destruct n as [|d].
    + intros [= <- <-]. repeat split; tauto.
    + cbn [unreadable] in Hbad. rewrite Hbad. intros [= <- <-].
      repeat split; tauto.
  - right.
    destruct (process_icon_failure _ _ _ _ _ _ _ _ Hn Hdec Hcan1 Hcan2 Hrun)
      as (-> & k & p & Hp & Hdir & Hw & Hfs).
    exists d, orig, k, p. repeat split; assumption.
Qed.

(** X3: run through its main in a working directory given in normal form,
    the exporter leaves alone, whatever its outcome, everything that was
    already there, under its normal-form path, and is none of the sixteen
    output paths: no other file is written, replaced or removed, also when
    the run fails half way. *)
Theorem exporter_touches_only_outputs (argv : list string) (cwd p : string)
    (w w' : world) (r : result unit) :
  canonical cwd = true → canonical p = true →
  exporter_main argv cwd w = (r, w') →
  is_Some (fs w !! p) →
  p ∉ output_paths (cwd_prefix cwd +:+ "src-tauri/icons")
        (cwd_prefix cwd +:+ "public") →
  fs w' !! p = fs w !! p.
Proof.
  intros _ _ Hrun Hp Hout. revert Hrun. unfold exporter_main.
  destruct (bool_decide _).
  - unfold print, emit, raise, mbind, M_bind. intros [= _ <-]. reflexivity.
  - cbv zeta. destruct (main_paths cwd) as [-> ->]. intros Hrun.
    apply (process_icon_kept_at _ _ _ p Hout _ _ _ Hrun).
    left. exact Hp.
Qed.

(** X8: the directories are made before the source is opened: when the
    exporter fails because the source holds no image Pillow identifies
    (UnidentifiedImageError, exit status 1), the source is a file, both
    directories are there, and nothing has been written or printed. *)
Theorem unidentified_source_raises (src tauri pub : string) (w w' : world) :
  process_icon src tauri pub w = (Raise UnidentifiedImageError, w') →
  (∃ d, fs w !! src = Some (File d) ∧ decode d = None)
  ∧ exit_status (process_icon src tauri pub w).1 = 1
  ∧ fs w' !! tauri = Some Dir ∧ fs w' !! pub = Some Dir
  ∧ writes (since w w') = []
  ∧ (∀ line, Print line ∉ since w w').
Proof.
  intros Hrun.
  destruct (process_icon_raises _ _ _ _ _ _ Hrun)
    as (n & Hn & [([He|He] & _)|[(He & Hbad & Hfs & Hcan1 & Hcan2 & Hw & Hpr)
                                |(d & orig & k & p & _ & _ & He & _)]]);
    try discriminate.
  destruct n as [|d]; [discriminate|].
  split; [exists d; split; [exact Hn|exact Hbad]|].
  rewrite Hrun. split; [reflexivity|].
  rewrite Hfs.
  pose proof (made_dir_is_dir _ _ Hcan1) as Ht.
  pose proof (made_dir_is_dir _ _ Hcan2) as Hp.
  split; [rewrite made_dir_lookup; [exact Ht|rewrite Ht; eauto]|].
  split; [exact Hp|]. split; [exact Hw|exact Hpr].
Qed.

(** X14: a failing run of the exporter rolls nothing back: the writes it
    completed are those of the first outputs, in order (fewer than
    sixteen), and each of these files still holds, when the exception
    leaves the script, what was written to it. *)
Theorem failing_run_keeps_written_outputs (src tauri pub : string)
    (w w' : world) (e : exn) :
  process_icon src tauri pub w = (Raise e, w') →
  ∃ k, (k < 16)%nat
    ∧ (writes (since w w')).*1 = take k (output_paths tauri pub)
    ∧ ∀ p d, (p, d) ∈ writes (since w w') → fs w' !! p = Some (File d).
Proof.
  intros Hrun.
  destruct (process_icon_raises _ _ _ _ _ _ Hrun)
    as (n & Hn & [(_ & Hw & _)|[(_ & _ & _ & _ & _ & Hw & _)
                               |(d & orig & k & p & _ & _ & _ & Hp & _ & Hw & Hfs)]]).
  - exists 0%nat. rewrite Hw. split; [lia|]. split; [reflexivity|].
    intros p d Hin. inversion Hin.
  - exists 0%nat. rewrite Hw. split; [lia|]. split; [reflexivity|].
    intros p d Hin. inversion Hin.
  - assert (Hk : (k < 16)%nat) by (apply lookup_lt_Some in Hp; exact Hp).
    exists k. split; [exact Hk|]. rewrite Hw.
    split; [rewrite fmap_take, outputs_paths; reflexivity|].
    intros q d0 Hin. rewrite Hfs. apply written_lookup_NoDup; [|exact Hin].
    rewrite fmap_take, outputs_paths.
    replace (take k (output_paths tauri pub))
      with (take k (take 15 (output_paths tauri pub)))
      by (rewrite take_take; f_equal; lia).
    eapply sublist_NoDup; [apply packaging_paths_NoDup|apply sublist_take].
Qed.

End Failures.


(** ** The theorems at concrete inputs *)

#[local] Existing Instances logging_pillow series_libm.

Lemma demo_source_file :
  fs demo_world !! "icon_master.png" = Some (File (PngData master)).
Proof. vm_compute. reflexivity. Defined.

Lemma demo_source : is_Some (fs demo_world !! "icon_master.png").
Proof. eexists. vm_compute. reflexivity. Defined.

Lemma demo_export_run :
  process_icon "icon_master.png" "src-tauri/icons" "public" demo_world
  = (Ok tt, demo_export).
Proof. vm_compute. reflexivity. Defined.

Lemma exported_sizes_match_witness :
  ∃ im, fs demo_export !! "src-tauri/icons/32x32.png" = Some (File (PngData im))
        ∧ im_size im = (32, 32).
Proof.
  destruct (exported_sizes_match "icon_master.png" "src-tauri/icons" "public"
              demo_world demo_export demo_source demo_export_run) as [Hall _].
  destruct (Hall "32x32.png" (32, 32)) as [Him _].
  - unfold sizes. apply list_elem_of_further, list_elem_of_here.
  - exact Him.
Defined.

Lemma missing_source_exits_zero_witness :
  ∃ w', @exporter_main logging_pillow ["process_icons.py"; "nowhere.png"] "/repo" demo_world = (Ok tt, w')
        ∧ fs w' = fs demo_world.
Proof.
  destruct (@missing_source_exits_zero logging_pillow "process_icons.py" "nowhere.png" "/repo" demo_world)
    as (w' & Hrun & _ & Hfs & _).
  - vm_compute. reflexivity.
  - exists w'. split; assumption.
Defined.

Lemma source_image_never_mutated_witness :
  heap demo_export !! 0%nat = Some master.
Proof.
  destruct (source_image_never_mutated "icon_master.png" "src-tauri/icons"
              "public" demo_world demo_export demo_source demo_export_run)
    as (d & orig & Hd & Hdec & Hheap & _).
  assert (orig = master) as ->.
  { rewrite demo_source_file in Hd. injection Hd as <-.
    cbn [decode] in Hdec. congruence. }
  exact Hheap.
Defined.

Lemma missing_source_reported_witness :
  ∃ w', process_icon "nowhere.png" "src-tauri/icons" "public" demo_world
        = (Ok tt, w')
        ∧ fs w' = fs demo_world.
Proof.
  destruct (missing_source_reported "nowhere.png" "src-tauri/icons" "public"
              demo_world) as (w' & Hrun & Hfs & _).
  - vm_compute. reflexivity.
  - exists w'. split; assumption.
Defined.

(** The exporter run a second time, on the world its first run left, and the
    generator run from two different worlds to two different paths. *)
Lemma runs_are_deterministic_witness :
  writes (since demo_world demo_export)
  = writes (since demo_export
      (process_icon "icon_master.png" "src-tauri/icons" "public"
         demo_export).2)
  ∧ fs (create_gradient_icon "a.png" 64 demo_world).2 !! "a.png"
    = fs (create_gradient_icon "b.png" 64 demo_export).2 !! "b.png".
Proof.
  destruct (@runs_are_deterministic logging_pillow series_libm) as [Hexp Hgen].
  split.
  - destruct (Hexp "icon_master.png" "icon_master.png" "src-tauri/icons"
                "public" demo_world demo_export demo_export
                (process_icon "icon_master.png" "src-tauri/icons" "public"
                   demo_export).2) as [Hsame _].
    + exact demo_source.
    + vm_compute. reflexivity.
    + exact demo_export_run.
    + vm_compute. reflexivity.
    + exact Hsame.
  - destruct (Hgen "a.png" "b.png" 64 demo_world demo_export
               (create_gradient_icon "a.png" 64 demo_world).2
               (create_gradient_icon "b.png" 64 demo_export).2)
      as (_ & Hsame & _).
    + vm_compute. reflexivity.
    + vm_compute. reflexivity.
    + exact Hsame.
Defined.

(** ** The further theorems at concrete inputs *)

Lemma exporter_usage_error_witness :
  exit_status (exporter_main ["process_icons.py"] "/repo" demo_world).1 = 1.
Proof.
  destruct (exporter_usage_error ["process_icons.py"] "/repo" demo_world)
    as (_ & Hexit & _).
  - cbn [length]. lia.
  - exact Hexit.
Defined.

Lemma exporter_writes_in_order_witness :
  length (writes (since demo_world demo_export)) = 16%nat.
Proof.
  destruct (exporter_writes_in_order "icon_master.png" "src-tauri/icons"
              "public" demo_world demo_export demo_source demo_export_run)
    as (_ & Hlen & _).
  exact Hlen.
Defined.

Lemma exporter_overwrites_own_output_witness :
  fs (process_icon "src-tauri/icons/icon.png" "src-tauri/icons" "public"
        self_world).2 !! "src-tauri/icons/icon.png"
  = Some (File (PngData (resized_image master (512, 512)))).
Proof.
  apply (exporter_overwrites_own_output "src-tauri/icons" "public" "icon.png"
           (512, 512) self_world _ (PngData master) master).
  - unfold sizes. apply list_elem_of_here.
  - vm_compute. reflexivity.
  - reflexivity.
  - vm_compute. reflexivity.
Defined.

Lemma exporter_rerun_changes_nothing_witness :
  ∃ w'', process_icon "icon_master.png" "src-tauri/icons" "public" demo_export
         = (Ok tt, w'')
    ∧ fs w'' = fs demo_export.
Proof.
  destruct (exporter_rerun_changes_nothing "icon_master.png" "src-tauri/icons"
              "public" demo_world demo_export demo_source)
    as (w'' & Hrun & Hfs & _).
  - apply (bool_decide_unpack _). vm_compute. exact I.
  - exact demo_export_run.
  - exists w''. split; assumption.
Defined.

Lemma generated_master_is_exported_witness :
  fs ((generator_main;;
       process_icon "icon_master.png" "src-tauri/icons" "public")
        demo_world).2 !! "src-tauri/icons/32x32.png"
  = Some (File (PngData (resized_image (canvas 1024) (32, 32)))).
Proof.
  destruct (generated_master_is_exported "src-tauri/icons" "public" demo_world
              ((generator_main;;
                process_icon "icon_master.png" "src-tauri/icons" "public")
                 demo_world).2) as (_ & Hall & _).
  - vm_compute. reflexivity.
  - apply (Hall "32x32.png" (32, 32)).
    unfold sizes. apply list_elem_of_further, list_elem_of_here.
Defined.

Lemma main_writes_sixteen_distinct_files_witness :
  NoDup (writes (since demo_world
           (exporter_main ["process_icons.py"; "icon_master.png"] "/repo"
              demo_world).2)).*1.
Proof.
  destruct (main_writes_sixteen_distinct_files "process_icons.py"
              "icon_master.png" [] "/repo" demo_world
              (exporter_main ["process_icons.py"; "icon_master.png"] "/repo"
                 demo_world).2 demo_source) as (_ & Hnd & _).
  - vm_compute. reflexivity.
  - exact Hnd.
Defined.

(** ** The drawings, the frames and the failing runs at concrete inputs *)

Lemma demo_generator_run :
  create_gradient_icon "a.png" 64 demo_world
  = (Ok tt, (create_gradient_icon "a.png" 64 demo_world).2).
Proof. vm_compute. reflexivity. Defined.

Lemma icon_container_frames_witness :
  map im_size (Ico.embedded (IcoData master ico_sizes))
  = [(16, 16); (32, 32); (48, 48); (64, 64); (128, 128); (256, 256)]
  ∧ fs demo_export !! "src-tauri/icons/icon.ico"
    = Some (File (IcoData master ico_sizes)).
Proof.
  destruct (icon_container_frames "icon_master.png" "src-tauri/icons" "public"
              demo_world demo_export demo_source demo_export_run)
    as (d & orig & Hd & Hdec & _ & Hico & _ & Hemb & _).
  assert (orig = master) as ->.
  { assert (Hm : fs demo_world !! "icon_master.png"
                 = Some (File (PngData master))) by (vm_compute; reflexivity).
    rewrite Hm in Hd. injection Hd as <-. cbn [decode] in Hdec. congruence. }
  split; [|exact Hico]. rewrite Hemb. vm_compute. reflexivity.
Defined.

(** C7, as the specification words it, fails: from a 100 x 100 source the
    exporter returns, and the container it wrote embeds four frames, of
    sides 16, 32, 48 and 64, and none of the sides 128 and 256. *)
Lemma small_source_embeds_four_frames :
  process_icon "small.png" "src-tauri/icons" "public" small_world
  = (Ok tt, (process_icon "small.png" "src-tauri/icons" "public"
               small_world).2)
  ∧ fs (process_icon "small.png" "src-tauri/icons" "public" small_world).2
      !! "src-tauri/icons/icon.ico"
    = Some (File (IcoData small ico_sizes))
  ∧ map im_size (Ico.embedded (IcoData small ico_sizes))
    = [(16, 16); (32, 32); (48, 48); (64, 64)]
  ∧ length (Ico.embedded (IcoData small ico_sizes)) ≠ 6%nat.
Proof. repeat split; try (vm_compute; reflexivity). vm_compute. discriminate. Qed.

Lemma no_circle_at_midpoint_witness :
  ∃ stamps : list stamp,
    fs (create_gradient_icon "a.png" 64 demo_world).2 !! "a.png"
    = Some (File (PngData (stamped_picture 64 stamps)))
    ∧ ∀ k s, stamps !! k = Some s → st_color s ≠ RGBA 140 50 255 255.
Proof.
  destruct (no_circle_at_midpoint "a.png" 64 demo_world _ ltac:(lia)
              demo_generator_run) as (stamps & Hfs & _ & Hall & _).
  exists stamps. split; [exact Hfs|].
  intros k s Hk. destruct (Hall k s Hk) as (_ & _ & _ & _ & _ & Hc & _).
  exact Hc.
Defined.

(** C9, as it is worded for every canvas size, fails at size 0: the 200
    circles are drawn, and each with the thickness [0 * 0.15]. *)
Lemma zero_canvas_circles_at_full_thickness :
  ∃ stamps : list stamp,
    heap (create_gradient_icon "icon_master.png" 0 demo_world).2 !! 0%nat
    = Some (stamped_picture 0 stamps)
    ∧ length stamps = 200%nat
    ∧ Forall (λ s, (st_thickness s =? Py.float_of_int 0 * 0.15)%float = true)
        stamps.
Proof.
  destruct zero_canvas_stamps as (stamps & Hcanvas & Hlen & Hall).
  exists stamps. rewrite <- Hcanvas. split; [|split; assumption].
  assert (Hrun : create_gradient_icon "icon_master.png" 0 demo_world
                 = (Ok tt, (create_gradient_icon "icon_master.png" 0
                              demo_world).2))
    by (vm_compute; reflexivity).
  apply create_gradient_icon_Ok in Hrun as (_ & Hheap & _).
  rewrite Hheap. reflexivity.
Qed.

Lemma exporter_touches_only_outputs_witness :
  fs (exporter_main ["process_icons.py"; "/repo/icon_master.png"] "/repo"
        repo_world).2 !! "/repo/README.md"
  = Some (File (Blob "Sutu")).
Proof.
  rewrite (exporter_touches_only_outputs
             ["process_icons.py"; "/repo/icon_master.png"] "/repo"
             "/repo/README.md" repo_world _
             (exporter_main ["process_icons.py"; "/repo/icon_master.png"]
                "/repo" repo_world).1).
  - vm_compute. reflexivity.
  - vm_compute. reflexivity.
  - vm_compute. reflexivity.
  - destruct (exporter_main _ _ _). reflexivity.
  - eexists. vm_compute. reflexivity.
  - apply (bool_decide_unpack _). vm_compute. exact I.
Defined.

Lemma unidentified_source_raises_witness :
  fs (process_icon "notes.txt" "src-tauri/icons" "public" text_world).2
    !! "src-tauri/icons" = Some Dir.
Proof.
  destruct (unidentified_source_raises "notes.txt" "src-tauri/icons" "public"
              text_world
              (process_icon "notes.txt" "src-tauri/icons" "public"
                 text_world).2) as (_ & _ & Hdir & _).
  - vm_compute. reflexivity.
  - exact Hdir.
Defined.

Lemma generator_writes_square_canvas_witness :
  ∃ im, fs (create_gradient_icon "a.png" 64 demo_world).2 !! "a.png"
        = Some (File (PngData im))
    ∧ im_size im = (64, 64).
Proof.
  destruct (generator_writes_square_canvas "a.png" 64 demo_world _
              demo_generator_run) as (im & _ & Hfs & Hsize).
  exists im. split; assumption.
Defined.

Lemma gradient_bytes_and_direction_witness :
  ∃ stamps : list stamp,
    fs (create_gradient_icon "a.png" 64 demo_world).2 !! "a.png"
    = Some (File (PngData (stamped_picture 64 stamps)))
    ∧ length stamps = 200%nat.
Proof.
  destruct (gradient_bytes_and_direction "a.png" 64 demo_world _
              demo_generator_run) as (stamps & Hfs & Hlen & _).
  exists stamps. split; assumption.
Defined.

Lemma failing_run_keeps_written_outputs_witness :
  ∃ k, (k < 16)%nat
    ∧ (writes (since blocked_world
         (process_icon "icon_master.png" "src-tauri/icons" "public"
            blocked_world).2)).*1
      = take k (output_paths "src-tauri/icons" "public").
Proof.
  destruct (failing_run_keeps_written_outputs "icon_master.png"
              "src-tauri/icons" "public" blocked_world
              (process_icon "icon_master.png" "src-tauri/icons" "public"
                 blocked_world).2 IsADirectoryError)
    as (k & Hk & Hw & _).
  - vm_compute. reflexivity.
  - exists k. split; assumption.
Defined.

Lemma stroke_circles_have_positive_radius_witness :
  ∃ stamps : list stamp,
    fs (create_gradient_icon "a.png" 64 demo_world).2 !! "a.png"
    = Some (File (PngData (stamped_picture 64 stamps)))
    ∧ ∀ k s, stamps !! k = Some s → (0 <? st_thickness s / 2)%float = true.
Proof.
  destruct (stroke_circles_have_positive_radius "a.png" 64 demo_world _
              ltac:(lia) demo_generator_run) as (stamps & Hfs & _ & Hall).
  exists stamps. split; [exact Hfs|].
  intros k s Hk. destruct (Hall k s Hk) as (_ & _ & Hr). exact Hr.
Defined.
